(** * Scheduler work loop and child reconciler: a shallow embedding

    Two parts of the repository are embedded here:

    - the cooperative task scheduler (the [Scheduler.js] text that follows
      [isCustomComponent.js] in [packages/react-dom/src/shared]), together
      with the host configuration of
      [packages/scheduler/src/forks/SchedulerHostConfig.default.js];
    - the child reconciler [ChildReconciler] of
      [packages/react-reconciler/src/ReactChildFiber.old.js].

    JavaScript objects that are shared by reference (tasks, fibers) live in
    an explicit store, a [list] indexed by address; the queues and the
    fiber links hold addresses.  Times are numbers with an integer value.
    The sum [currentTime + delay], which the scheduler compares with
    [currentTime] itself, is rounded as a sum of doubles is; the other
    sums and differences of times are written with the exact [+] and
    [-]. *)

From Stdlib Require Import ZArith Lia.
From stdpp Require Import base tactics option list strings gmap.

Local Open Scope Z_scope.

(* ===================================================================== *)
(** * Part I: the scheduler, definitions *)
(* ===================================================================== *)

Module Scheduler.

(** ** Priorities and timeouts *)

(** Modelled from the spec: [SchedulerPriorities.js] is not among the
    sources.  The spec gives an enumerated ordinal with the levels
    Immediate, UserBlocking, Normal, Low and Idle; any other value a caller
    passes is [OtherPriority]. *)
Inductive PriorityLevel : Type :=
  | ImmediatePriority
  | UserBlockingPriority
  | NormalPriority
  | LowPriority
  | IdlePriority
  | OtherPriority (v : Z).

Definition maxSigned31BitInt : Z := 1073741823.

Definition IMMEDIATE_PRIORITY_TIMEOUT : Z := -1.
Definition USER_BLOCKING_PRIORITY_TIMEOUT : Z := 250.
Definition NORMAL_PRIORITY_TIMEOUT : Z := 5000.
Definition LOW_PRIORITY_TIMEOUT : Z := 10000.
Definition IDLE_PRIORITY_TIMEOUT : Z := maxSigned31BitInt.

(** The [switch (priorityLevel)] of [unstable_scheduleCallback]. *)
Definition timeoutForPriority (priorityLevel : PriorityLevel) : Z :=
  match priorityLevel with
  | ImmediatePriority => IMMEDIATE_PRIORITY_TIMEOUT
  | UserBlockingPriority => USER_BLOCKING_PRIORITY_TIMEOUT
  | IdlePriority => IDLE_PRIORITY_TIMEOUT
  | LowPriority => LOW_PRIORITY_TIMEOUT
  | NormalPriority => NORMAL_PRIORITY_TIMEOUT
  | OtherPriority _ => NORMAL_PRIORITY_TIMEOUT
  end.

(** ** Values a task callback can be, and what running one does *)

(** The [options] argument: an object (with whatever [delay] it holds) or
    anything else ([undefined], [null], a primitive). *)
Inductive Delay : Type :=
  | DelayNumber (d : Z)
  | DelayNotNumber.

Inductive Options : Type :=
  | OptionsObject (delay : Delay)
  | OptionsAbsent.

(** A callback is a JavaScript value.  A function value is given by what a
    call does, for either value of its argument: the scheduler entry
    points it calls while it runs, in order, the time that passes, and how
    it completes.  Tasks are named by their address in the store. *)
Inductive Value : Type :=
  | VNull
  | VOther
  | VFunction (run : bool -> Behaviour)
with Behaviour : Type :=
  | Behave (ops : list Op) (result : Completion)
with Op : Type :=
  | OpSchedule (priorityLevel : PriorityLevel) (callback : Value)
      (options : Options)
  | OpCancel (task : nat)
  | OpElapse (dt : N)
with Completion : Type :=
  | Return (v : Value)
  | Throw.

Definition isFunction (v : Value) : bool :=
  match v with VFunction _ => true | _ => false end.

Definition isNull (v : Value) : bool :=
  match v with VNull => true | _ => false end.

(** ** Tasks *)

Record Task : Type := mkTask {
  id : Z;
  callback : Value;
  priorityLevel : PriorityLevel;
  startTime : Z;
  expirationTime : Z;
  sortIndex : Z;
  isQueued : bool  (* profiling mark; absent reads as false *)
}.

Definition set_callback (v : Value) (t : Task) : Task :=
  mkTask (id t) v (priorityLevel t) (startTime t) (expirationTime t)
    (sortIndex t) (isQueued t).

Definition set_sortIndex (i : Z) (t : Task) : Task :=
  mkTask (id t) (callback t) (priorityLevel t) (startTime t)
    (expirationTime t) i (isQueued t).

Definition set_isQueued (b : bool) (t : Task) : Task :=
  mkTask (id t) (callback t) (priorityLevel t) (startTime t)
    (expirationTime t) (sortIndex t) b.

Definition noTask : Task :=
  mkTask 0 VNull NormalPriority 0 0 0 false.

(** The task at an address; queues only ever hold allocated addresses. *)
Definition taskAt (ts : list Task) (a : nat) : Task :=
  default noTask (ts !! a).

(** ** The min heap *)

(** Modelled from the spec: [SchedulerMinHeap.js] is not among the sources.
    The spec describes a binary min-heap over a sequence, compared by
    [sortIndex] and then [id]; [push] appends and sifts up; [peek] returns
    the first item or null; [pop] replaces the root by the last leaf and
    sifts down, choosing the smaller child at each step and stopping when
    neither is smaller; on an empty heap [pop] and [peek] return null and
    change nothing.  The heap holds task addresses and compares the tasks
    they name. *)
Definition compare (ts : list Task) (a b : nat) : Z :=
  let diff := sortIndex (taskAt ts a) - sortIndex (taskAt ts b) in
  if diff =? 0 then id (taskAt ts a) - id (taskAt ts b) else diff.

Fixpoint siftUp (fuel : nat) (ts : list Task) (heap : list nat)
    (node index : nat) : list nat :=
  match fuel with
  | O => heap
  | S fuel' =>
    match index with
    | O => heap
    | S _ =>
      let parentIndex := ((index - 1) / 2)%nat in
      match heap !! parentIndex with
      | Some parent =>
        if 0 <? compare ts parent node
        then siftUp fuel' ts (<[index := parent]> (<[parentIndex := node]> heap))
               node parentIndex
        else heap
      | None => heap
      end
    end
  end.

Definition push (ts : list Task) (heap : list nat) (node : nat) : list nat :=
  let index := length heap in
  siftUp (S index) ts (heap ++ [node]) node index.

Definition peek (heap : list nat) : option nat := head heap.

Fixpoint siftDown (fuel : nat) (ts : list Task) (heap : list nat)
    (node index : nat) : list nat :=
  match fuel with
  | O => heap
  | S fuel' =>
    let leftIndex := ((index + 1) * 2 - 1)%nat in
    let rightIndex := (leftIndex + 1)%nat in
    let swapWith (i child : nat) :=
      siftDown fuel' ts (<[i := node]> (<[index := child]> heap)) node i in
    if (index <? length heap)%nat then
      match heap !! leftIndex, heap !! rightIndex with
      | Some leftNode, Some rightNode =>
        if compare ts leftNode node <? 0 then
          if compare ts rightNode leftNode <? 0
          then swapWith rightIndex rightNode
          else swapWith leftIndex leftNode
        else if compare ts rightNode node <? 0
          then swapWith rightIndex rightNode
          else heap
      | Some leftNode, None =>
        if compare ts leftNode node <? 0
        then swapWith leftIndex leftNode
        else heap
      | None, Some rightNode =>
        if compare ts rightNode node <? 0
        then swapWith rightIndex rightNode
        else heap
      | None, None => heap
      end
    else heap
  end.

Definition pop (ts : list Task) (heap : list nat) : option nat * list nat :=
  match heap with
  | [] => (None, heap)
  | first :: _ =>
    let last := List.last heap first in
    let heap' := removelast heap in
    if decide (last = first) then (Some first, heap')
    else (Some first,
          siftDown (length heap') ts (<[0%nat := last]> heap') last 0%nat)
  end.

(** ** The host *)

(** [SchedulerHostConfig.default.js] defines [shouldYieldToHost] three
    ways, by what the environment offers. *)
Inductive HostKind : Type :=
  | HostWithoutDOM          (* no window or no MessageChannel *)
  | HostWithInputPending    (* isInputPending available and enabled *)
  | HostWithMessageChannel.

(** What the scheduler sees of the host and asks of it.  The message loop
    and the timers of the host are not followed: a request is recorded
    and that is all.  [calls] records every invocation of a task callback
    by the work loop: the task's address and the argument passed. *)
Record Host : Type := mkHost {
  clock : Z;                         (* what getCurrentTime() returns *)
  deadline : Z;
  needsPaint : bool;
  isInputPending : bool;
  hostCallbackRequested : bool;      (* requestHostCallback(flushWork) *)
  hostTimeout : option Z;            (* requestHostTimeout(handleTimeout, ms) *)
  calls : list (nat * bool)
}.

Definition maxYieldInterval : Z := 300.

Definition shouldYieldToHost (kind : HostKind) (h : Host) : bool :=
  match kind with
  | HostWithoutDOM => false
  | HostWithInputPending =>
    let currentTime := clock h in
    if deadline h <=? currentTime then
      if needsPaint h || isInputPending h then true
      else maxYieldInterval <=? currentTime
    else false
  | HostWithMessageChannel => deadline h <=? clock h
  end.

Definition requestHostCallback (h : Host) : Host :=
  mkHost (clock h) (deadline h) (needsPaint h) (isInputPending h) true
    (hostTimeout h) (calls h).

Definition requestHostTimeout (ms : Z) (h : Host) : Host :=
  mkHost (clock h) (deadline h) (needsPaint h) (isInputPending h)
    (hostCallbackRequested h) (Some ms) (calls h).

Definition cancelHostTimeout (h : Host) : Host :=
  mkHost (clock h) (deadline h) (needsPaint h) (isInputPending h)
    (hostCallbackRequested h) None (calls h).

Definition elapse (dt : N) (h : Host) : Host :=
  mkHost (clock h + Z.of_N dt) (deadline h) (needsPaint h) (isInputPending h)
    (hostCallbackRequested h) (hostTimeout h) (calls h).

Definition recordCall (task : nat) (didTimeout : bool) (h : Host) : Host :=
  mkHost (clock h) (deadline h) (needsPaint h) (isInputPending h)
    (hostCallbackRequested h) (hostTimeout h) (calls h ++ [(task, didTimeout)]).

(** ** Feature flags and the module state *)

(** [SchedulerFeatureFlags.js] is not among the sources: the two flags the
    scheduler reads are parameters.  Under [enableProfiling] only the
    [isQueued] mark of a task is followed; the event log of
    [SchedulerProfiling.js] (also absent) is written and never read by the
    scheduler. *)
Record FeatureFlags : Type := mkFlags {
  enableSchedulerDebugging : bool;
  enableProfiling : bool
}.

Record State : Type := mkState {
  tasks : list Task;                 (* the store of task objects *)
  taskQueue : list nat;
  timerQueue : list nat;
  taskIdCounter : Z;
  isSchedulerPaused : bool;
  currentTask : option nat;
  currentPriorityLevel : PriorityLevel;
  isPerformingWork : bool;
  isHostCallbackScheduled : bool;
  isHostTimeoutScheduled : bool;
  host : Host
}.

Definition with_tasks (f : list Task -> list Task) (s : State) : State :=
  mkState (f (tasks s)) (taskQueue s) (timerQueue s) (taskIdCounter s)
    (isSchedulerPaused s) (currentTask s) (currentPriorityLevel s)
    (isPerformingWork s) (isHostCallbackScheduled s)
    (isHostTimeoutScheduled s) (host s).

Definition with_taskQueue (q : list nat) (s : State) : State :=
  mkState (tasks s) q (timerQueue s) (taskIdCounter s)
    (isSchedulerPaused s) (currentTask s) (currentPriorityLevel s)
    (isPerformingWork s) (isHostCallbackScheduled s)
    (isHostTimeoutScheduled s) (host s).

Definition with_timerQueue (q : list nat) (s : State) : State :=
  mkState (tasks s) (taskQueue s) q (taskIdCounter s)
    (isSchedulerPaused s) (currentTask s) (currentPriorityLevel s)
    (isPerformingWork s) (isHostCallbackScheduled s)
    (isHostTimeoutScheduled s) (host s).

Definition with_taskIdCounter (n : Z) (s : State) : State :=
  mkState (tasks s) (taskQueue s) (timerQueue s) n
    (isSchedulerPaused s) (currentTask s) (currentPriorityLevel s)
    (isPerformingWork s) (isHostCallbackScheduled s)
    (isHostTimeoutScheduled s) (host s).

Definition with_isSchedulerPaused (b : bool) (s : State) : State :=
  mkState (tasks s) (taskQueue s) (timerQueue s) (taskIdCounter s)
    b (currentTask s) (currentPriorityLevel s)
    (isPerformingWork s) (isHostCallbackScheduled s)
    (isHostTimeoutScheduled s) (host s).

Definition with_currentTask (t : option nat) (s : State) : State :=
  mkState (tasks s) (taskQueue s) (timerQueue s) (taskIdCounter s)
    (isSchedulerPaused s) t (currentPriorityLevel s)
    (isPerformingWork s) (isHostCallbackScheduled s)
    (isHostTimeoutScheduled s) (host s).

Definition with_currentPriorityLevel (p : PriorityLevel) (s : State) : State :=
  mkState (tasks s) (taskQueue s) (timerQueue s) (taskIdCounter s)
    (isSchedulerPaused s) (currentTask s) p
    (isPerformingWork s) (isHostCallbackScheduled s)
    (isHostTimeoutScheduled s) (host s).

Definition with_isPerformingWork (b : bool) (s : State) : State :=
  mkState (tasks s) (taskQueue s) (timerQueue s) (taskIdCounter s)
    (isSchedulerPaused s) (currentTask s) (currentPriorityLevel s)
    b (isHostCallbackScheduled s)
    (isHostTimeoutScheduled s) (host s).

Definition with_isHostCallbackScheduled (b : bool) (s : State) : State :=
  mkState (tasks s) (taskQueue s) (timerQueue s) (taskIdCounter s)
    (isSchedulerPaused s) (currentTask s) (currentPriorityLevel s)
    (isPerformingWork s) b
    (isHostTimeoutScheduled s) (host s).

Definition with_isHostTimeoutScheduled (b : bool) (s : State) : State :=
  mkState (tasks s) (taskQueue s) (timerQueue s) (taskIdCounter s)
    (isSchedulerPaused s) (currentTask s) (currentPriorityLevel s)
    (isPerformingWork s) (isHostCallbackScheduled s)
    b (host s).

Definition with_host (f : Host -> Host) (s : State) : State :=
  mkState (tasks s) (taskQueue s) (timerQueue s) (taskIdCounter s)
    (isSchedulerPaused s) (currentTask s) (currentPriorityLevel s)
    (isPerformingWork s) (isHostCallbackScheduled s)
    (isHostTimeoutScheduled s) (f (host s)).

Definition getCurrentTime (s : State) : Z := clock (host s).

(** [task.field = v] on the task object at address [a]. *)
Definition updateTask (a : nat) (f : Task -> Task) (s : State) : State :=
  with_tasks (alter f a) s.

(** [pop(taskQueue)] and [pop(timerQueue)], the popped task dropped. *)
Definition popTaskQueue (s : State) : State :=
  with_taskQueue (pop (tasks s) (taskQueue s)).2 s.

Definition popTimerQueue (s : State) : State :=
  with_timerQueue (pop (tasks s) (timerQueue s)).2 s.

Definition pushTaskQueue (a : nat) (s : State) : State :=
  with_taskQueue (push (tasks s) (taskQueue s) a) s.

Definition pushTimerQueue (a : nat) (s : State) : State :=
  with_timerQueue (push (tasks s) (timerQueue s) a) s.

(** ** advanceTimers *)

(** One turn of the [while (timer !== null)] loop: [None] when the loop
    returns, the next state when it goes round again. *)
Definition advanceTimers_step (fl : FeatureFlags) (currentTime : Z)
    (s : State) : option State :=
  match peek (timerQueue s) with
  | None => None
  | Some timer =>
    let t := taskAt (tasks s) timer in
    if isNull (callback t) then
      Some (popTimerQueue s)
    else if startTime t <=? currentTime then
      let s := popTimerQueue s in
      let s := updateTask timer (set_sortIndex (expirationTime t)) s in
      let s := pushTaskQueue timer s in
      let s := if enableProfiling fl
               then updateTask timer (set_isQueued true) s else s in
      Some s
    else None
  end.

Fixpoint advanceTimers_loop (fuel : nat) (fl : FeatureFlags)
    (currentTime : Z) (s : State) : State :=
  match fuel with
  | O => s
  | S fuel' =>
    match advanceTimers_step fl currentTime s with
    | Some s' => advanceTimers_loop fuel' fl currentTime s'
    | None => s
    end
  end.

(** Every turn that goes round again pops one timer, so as many turns as
    there are timers, and one more to see the queue empty, are enough. *)
Definition advanceTimers (fl : FeatureFlags) (currentTime : Z)
    (s : State) : State :=
  advanceTimers_loop (S (length (timerQueue s))) fl currentTime s.

(** ** unstable_scheduleCallback and unstable_cancelCallback *)

(** The number nearest to an integer: an integer below [2^53] in magnitude
    is a number itself; a larger one keeps the 53 leading bits of its
    magnitude, rounded to the nearest, a tie going to the even one.  No
    integer is too large: the model has no infinite number. *)
Definition roundToDouble (x : Z) : Z :=
  let m := Z.abs x in
  let e := Z.log2 m - 52 in
  if e <=? 0 then x
  else
    let ulp := 2 ^ e in
    let q := m / ulp in
    let r := m mod ulp in
    let q :=
      if (ulp <? 2 * r) || ((2 * r =? ulp) && Z.odd q) then q + 1 else q in
    Z.sgn x * (q * ulp).

(** [a + b] on numbers: the exact sum, rounded. *)
Definition numberAdd (a b : Z) : Z := roundToDouble (a + b).

(** The [startTime] of a new task.  The sum is the one of the numbers, so
    a delay lost in its rounding gives [currentTime] back. *)
Definition computeStartTime (currentTime : Z) (options : Options) : Z :=
  match options with
  | OptionsObject delay =>
    match delay with
    | DelayNumber d => if 0 <? d then numberAdd currentTime d else currentTime
    | DelayNotNumber => currentTime
    end
  | OptionsAbsent => currentTime
  end.

(** Returns the address of the new task, which is what the caller holds as
    the task handle. *)
Definition unstable_scheduleCallback (fl : FeatureFlags)
    (priorityLevel : PriorityLevel) (callback : Value) (options : Options)
    (s : State) : nat * State :=
  let currentTime := getCurrentTime s in
  let startTime := computeStartTime currentTime options in
  let timeout := timeoutForPriority priorityLevel in
  let expirationTime := startTime + timeout in
  let newTask := length (tasks s) in
  let s := with_tasks
    (fun ts => ts ++ [mkTask (taskIdCounter s) callback priorityLevel
                        startTime expirationTime (-1) false]) s in
  let s := with_taskIdCounter (taskIdCounter s + 1) s in
  if currentTime <? startTime then
    let s := updateTask newTask (set_sortIndex startTime) s in
    let s := pushTimerQueue newTask s in
    if decide (peek (taskQueue s) = None
               /\ peek (timerQueue s) = Some newTask) then
      let s := if isHostTimeoutScheduled s
               then with_host cancelHostTimeout s
               else with_isHostTimeoutScheduled true s in
      (newTask, with_host (requestHostTimeout (startTime - currentTime)) s)
    else (newTask, s)
  else
    let s := updateTask newTask (set_sortIndex expirationTime) s in
    let s := pushTaskQueue newTask s in
    let s := if enableProfiling fl
             then updateTask newTask (set_isQueued true) s else s in
    if negb (isHostCallbackScheduled s) && negb (isPerformingWork s) then
      let s := with_isHostCallbackScheduled true s in
      (newTask, with_host requestHostCallback s)
    else (newTask, s).

Definition unstable_cancelCallback (fl : FeatureFlags) (task : nat)
    (s : State) : State :=
  let s := if enableProfiling fl then
             if isQueued (taskAt (tasks s) task)
             then updateTask task (set_isQueued false) s
             else s
           else s in
  updateTask task (set_callback VNull) s.

Definition unstable_pauseExecution (s : State) : State :=
  with_isSchedulerPaused true s.

Definition unstable_continueExecution (s : State) : State :=
  let s := with_isSchedulerPaused false s in
  if negb (isHostCallbackScheduled s) && negb (isPerformingWork s) then
    with_host requestHostCallback (with_isHostCallbackScheduled true s)
  else s.

(** ** The work loop *)

(** What a running callback does to the scheduler before it completes. *)
Definition runOp (fl : FeatureFlags) (s : State) (op : Op) : State :=
  match op with
  | OpSchedule priorityLevel callback options =>
    (unstable_scheduleCallback fl priorityLevel callback options s).2
  | OpCancel task => unstable_cancelCallback fl task s
  | OpElapse dt => with_host (elapse dt) s
  end.

Definition runOps (fl : FeatureFlags) (ops : list Op) (s : State) : State :=
  foldl (runOp fl) s ops.

(** The body of [if (typeof callback === 'function')], lines 237 to 261 of
    the source, in its three steps.  [task] is the current task.

    Before the call: the callback is cleared, the priority level set and
    the argument computed; the call is recorded. *)
Definition beginCallback (currentTime : Z) (task : nat) (s : State)
    : bool * State :=
  let s := updateTask task (set_callback VNull) s in
  let s := with_currentPriorityLevel
             (priorityLevel (taskAt (tasks s) task)) s in
  let didUserCallbackTimeout :=
    expirationTime (taskAt (tasks s) task) <=? currentTime in
  (didUserCallbackTimeout,
   with_host (recordCall task didUserCallbackTimeout) s).

(** After the call returned [continuationCallback]. *)
Definition settleCallback (fl : FeatureFlags) (task : nat)
    (continuationCallback : Value) (s : State) : State :=
  match continuationCallback with
  | VFunction _ => updateTask task (set_callback continuationCallback) s
  | _ =>
    let s := if enableProfiling fl
             then updateTask task (set_isQueued false) s else s in
    if decide (peek (taskQueue s) = Some task)
    then popTaskQueue s
    else s
  end.

(** The boolean is [false] when the callback throws; the state is then the
    one the exception leaves behind. *)
Definition invokeCallback (fl : FeatureFlags) (currentTime : Z) (task : nat)
    (run : bool -> Behaviour) (s : State) : bool * State :=
  let '(didUserCallbackTimeout, s) := beginCallback currentTime task s in
  match run didUserCallbackTimeout with
  | Behave ops result =>
    let s := runOps fl ops s in
    match result with
    | Throw => (false, s)
    | Return continuationCallback =>
      (true, settleCallback fl task continuationCallback s)
    end
  end.

Inductive WorkResult : Type :=
  | Finished (hasMoreWork : bool)
  | Raised.

(** After the loop: report whether ready work remains, and arm a timer for
    the first delayed task if not. *)
Definition workLoop_finish (currentTime : Z) (s : State)
    : WorkResult * State :=
  match currentTask s with
  | Some _ => (Finished true, s)
  | None =>
    match peek (timerQueue s) with
    | Some firstTimer =>
      (Finished false,
       with_host (requestHostTimeout
                    (startTime (taskAt (tasks s) firstTimer) - currentTime)) s)
    | None => (Finished false, s)
    end
  end.

(** The [while] loop, entered with [currentTask] already read.  A turn of
    the loop that runs its body uses one unit of fuel; [None] is a loop
    that did not finish within the fuel given. *)
Fixpoint workLoop_loop (fuel : nat) (fl : FeatureFlags) (kind : HostKind)
    (hasTimeRemaining : bool) (currentTime : Z) (s : State)
    : option (WorkResult * State) :=
  match currentTask s with
  | None => Some (workLoop_finish currentTime s)
  | Some task =>
    if enableSchedulerDebugging fl && isSchedulerPaused s
    then Some (workLoop_finish currentTime s)
    else if (currentTime <? expirationTime (taskAt (tasks s) task))
            && (negb hasTimeRemaining || shouldYieldToHost kind (host s))
    then Some (workLoop_finish currentTime s)
    else
      match fuel with
      | O => None
      | S fuel' =>
        match callback (taskAt (tasks s) task) with
        | VFunction run =>
          match invokeCallback fl currentTime task run s with
          | (false, s) => Some (Raised, s)
          | (true, s) =>
            let currentTime := getCurrentTime s in
            let s := advanceTimers fl currentTime s in
            let s := with_currentTask (peek (taskQueue s)) s in
            workLoop_loop fuel' fl kind hasTimeRemaining currentTime s
          end
        | _ =>
          let s := popTaskQueue s in
          let s := with_currentTask (peek (taskQueue s)) s in
          workLoop_loop fuel' fl kind hasTimeRemaining currentTime s
        end
      end
  end.

Definition workLoop (fuel : nat) (fl : FeatureFlags) (kind : HostKind)
    (hasTimeRemaining : bool) (initialTime : Z) (s : State)
    : option (WorkResult * State) :=
  let currentTime := initialTime in
  let s := advanceTimers fl currentTime s in
  let s := with_currentTask (peek (taskQueue s)) s in
  workLoop_loop fuel fl kind hasTimeRemaining currentTime s.

(** [flushWork]: the [finally] block runs whether the loop returned or
    threw. *)
Definition flushWork (fuel : nat) (fl : FeatureFlags) (kind : HostKind)
    (hasTimeRemaining : bool) (initialTime : Z) (s : State)
    : option (WorkResult * State) :=
  let s := with_isHostCallbackScheduled false s in
  let s := if isHostTimeoutScheduled s
           then with_host cancelHostTimeout
                  (with_isHostTimeoutScheduled false s)
           else s in
  let s := with_isPerformingWork true s in
  let previousPriorityLevel := currentPriorityLevel s in
  match workLoop fuel fl kind hasTimeRemaining initialTime s with
  | None => None
  | Some (r, s) =>
    let s := if enableProfiling fl then
               match r, currentTask s with
               | Raised, Some task => updateTask task (set_isQueued false) s
               | _, _ => s
               end
             else s in
    let s := with_currentTask None s in
    let s := with_currentPriorityLevel previousPriorityLevel s in
    let s := with_isPerformingWork false s in
    Some (r, s)
  end.

Definition handleTimeout (fl : FeatureFlags) (currentTime : Z) (s : State)
    : State :=
  let s := with_isHostTimeoutScheduled false s in
  let s := advanceTimers fl currentTime s in
  if negb (isHostCallbackScheduled s) then
    match peek (taskQueue s) with
    | Some _ =>
      with_host requestHostCallback (with_isHostCallbackScheduled true s)
    | None =>
      match peek (timerQueue s) with
      | Some firstTimer =>
        with_host (requestHostTimeout
                     (startTime (taskAt (tasks s) firstTimer) - currentTime)) s
      | None => s
      end
    end
  else s.

(** ** The module as loaded, and a host at time [now] *)

Definition hostAt (now deadlineAt : Z) : Host :=
  mkHost now deadlineAt false false false None [].

Definition initialState (now deadlineAt : Z) : State :=
  mkState [] [] [] 1 false None NormalPriority false false false
    (hostAt now deadlineAt).

Definition productionFlags : FeatureFlags := mkFlags false false.

(** The state in which the work loop looks at the root of the ready
    queue: [currentTask = peek(taskQueue)]. *)
Definition atQueueHead (s : State) : State :=
  with_currentTask (peek (taskQueue s)) s.

(** The options for which the source takes [startTime = currentTime]. *)
Definition notDelayed (opts : Options) : Prop :=
  opts = OptionsAbsent
  \/ opts = OptionsObject DelayNotNumber
  \/ exists d, opts = OptionsObject (DelayNumber d) /\ d <= 0.

(** ** Vocabulary for the statements below *)

Definition isSchedule (op : Op) : bool :=
  match op with OpSchedule _ _ _ => true | _ => false end.

(** The part of a task no entry point changes once the task exists and
    sits on the ready queue. *)
Definition frozen (t : Task) : Z * PriorityLevel * Z * Z * Z :=
  (id t, priorityLevel t, startTime t, expirationTime t, sortIndex t).

(** ** Two example callbacks and a ready queue holding one task *)

(** Completes at once and touches nothing. *)
Definition completesAtOnce : Value :=
  VFunction (fun _ => Behave [] (Return VNull)).

(** Schedules a task of Immediate priority while it runs, then completes
    with a value that is not a function. *)
Definition schedulesUrgentWork : Value :=
  VFunction (fun _ =>
    Behave [OpSchedule ImmediatePriority completesAtOnce OptionsAbsent]
      (Return VNull)).

(** The module just after [unstable_scheduleCallback(NormalPriority, cb)]
    at time 0, the work loop looking at the root of the ready queue. *)
Definition oneReadyTask (cb : Value) : State :=
  atQueueHead
    (unstable_scheduleCallback productionFlags NormalPriority cb
       OptionsAbsent (initialState 0 5)).2.

End Scheduler.

(* ===================================================================== *)
(** * Part II: the child reconciler, definitions *)
(* ===================================================================== *)

Module ChildFiber.

Local Open Scope nat_scope.

(** ** Descriptions of children *)

(** Modelled from the spec: [ReactWorkTags.js] is not among the sources.
    These are the tags [ReactChildFiber.old.js] imports, and the two a
    fresh fiber made from a host or a not yet classified component type
    gets; the spec lists the variants text, element of a type, list
    fragment, portal and lazy wrapper. *)
Inductive WorkTag : Type :=
  | FunctionComponent
  | ClassComponent
  | IndeterminateComponent
  | HostComponent
  | HostText
  | HostPortal
  | ForwardRef
  | Fragment
  | SimpleMemoComponent
  | Block.

Global Instance WorkTag_eq_dec : EqDecision WorkTag.
Proof. solve_decision. Defined.

(** The [type] of an element: the fragment symbol, or a concrete type,
    which knows the tag of the fibers made from it and has a name (for a
    host type the tag name, such as ["textarea"]). *)
Inductive ElementType : Type :=
  | REACT_FRAGMENT_TYPE
  | ConcreteType (tag : WorkTag) (name : string).

Global Instance ElementType_eq_dec : EqDecision ElementType.
Proof. solve_decision. Defined.

(** [element.ref] as [coerceRef] tells its values apart: null, a function
    or object, or anything else (a string ref). *)
Inductive ElementRef : Type :=
  | ERefNull
  | ERefObject (id : nat)
  | ERefString (stringRef : string).

#[local] Set Warnings "-register-all".

(** What a child description can be.  An array and any other iterable are
    both [NArray]; a number is the text it prints as. *)
Inductive ReactNode : Type :=
  | NText (textContent : string)
  | NElement (key : option string) (type : ElementType) (ref : ElementRef)
      (owner : option nat) (props : nat) (children : ReactNode)
  | NPortal (key : option string) (containerInfo implementation : nat)
      (children : ReactNode)
  | NLazy (init : option ReactNode)   (* what init(payload) returns, if it does *)
  | NArray (items : list ReactNode)
  | NNull                             (* null or a boolean *)
  | NUndefined
  | NFunction
  | NObject.                          (* any other object *)

(** ** Fibers *)

(** [PortalChildrenProps children] is [portal.children || []], what an
    existing portal fiber is given: the children, or an empty array in
    their place when they are a falsy value. *)
Inductive PendingProps : Type :=
  | NoProps
  | ElementProps (props : nat) (children : ReactNode)
  | ChildrenProps (children : ReactNode)
  | PortalChildrenProps (children : ReactNode)
  | TextProps (textContent : string).

Inductive StateNode : Type :=
  | NoStateNode
  | Instance (id : nat)
  | PortalState (containerInfo implementation : nat).

Global Instance StateNode_eq_dec : EqDecision StateNode.
Proof. solve_decision. Defined.

Inductive FiberRef : Type :=
  | RefNull
  | RefObject (id : nat)
  | RefStringFunction (stringRef : string) (inst : nat).

(** Modelled from the spec: [ReactFiberFlags.js] is not among the sources.
    The spec has [flags] a bitset of pending side effects with Placement
    and Deletion among them; each is given a bit of its own. *)
Definition NoFlags : N := 0.
Definition Placement : N := 2.
Definition Deletion : N := 8.

Definition hasFlag (flags flag : N) : bool :=
  negb (N.eqb (N.land flags flag) 0).

Record Fiber : Type := mkFiber {
  tag : WorkTag;
  key : option string;
  elementType : option ElementType;
  type : option ElementType;
  stateNode : StateNode;
  return_ : option nat;
  child : option nat;
  sibling : option nat;
  index : nat;
  ref : FiberRef;
  pendingProps : PendingProps;
  mode : nat;
  flags : N;
  nextEffect : option nat;
  firstEffect : option nat;
  lastEffect : option nat;
  lanes : nat;
  alternate : option nat
}.

Definition set_return (v : option nat) (f : Fiber) : Fiber :=
  mkFiber (tag f) (key f) (elementType f) (type f) (stateNode f) v
    (child f) (sibling f) (index f) (ref f) (pendingProps f) (mode f)
    (flags f) (nextEffect f) (firstEffect f) (lastEffect f) (lanes f)
    (alternate f).

Definition set_sibling (v : option nat) (f : Fiber) : Fiber :=
  mkFiber (tag f) (key f) (elementType f) (type f) (stateNode f) (return_ f)
    (child f) v (index f) (ref f) (pendingProps f) (mode f)
    (flags f) (nextEffect f) (firstEffect f) (lastEffect f) (lanes f)
    (alternate f).

Definition set_index (v : nat) (f : Fiber) : Fiber :=
  mkFiber (tag f) (key f) (elementType f) (type f) (stateNode f) (return_ f)
    (child f) (sibling f) v (ref f) (pendingProps f) (mode f)
    (flags f) (nextEffect f) (firstEffect f) (lastEffect f) (lanes f)
    (alternate f).

Definition set_ref (v : FiberRef) (f : Fiber) : Fiber :=
  mkFiber (tag f) (key f) (elementType f) (type f) (stateNode f) (return_ f)
    (child f) (sibling f) (index f) v (pendingProps f) (mode f)
    (flags f) (nextEffect f) (firstEffect f) (lastEffect f) (lanes f)
    (alternate f).

Definition set_flags (v : N) (f : Fiber) : Fiber :=
  mkFiber (tag f) (key f) (elementType f) (type f) (stateNode f) (return_ f)
    (child f) (sibling f) (index f) (ref f) (pendingProps f) (mode f)
    v (nextEffect f) (firstEffect f) (lastEffect f) (lanes f)
    (alternate f).

Definition set_nextEffect (v : option nat) (f : Fiber) : Fiber :=
  mkFiber (tag f) (key f) (elementType f) (type f) (stateNode f) (return_ f)
    (child f) (sibling f) (index f) (ref f) (pendingProps f) (mode f)
    (flags f) v (firstEffect f) (lastEffect f) (lanes f)
    (alternate f).

Definition set_firstEffect (v : option nat) (f : Fiber) : Fiber :=
  mkFiber (tag f) (key f) (elementType f) (type f) (stateNode f) (return_ f)
    (child f) (sibling f) (index f) (ref f) (pendingProps f) (mode f)
    (flags f) (nextEffect f) v (lastEffect f) (lanes f)
    (alternate f).

Definition set_lastEffect (v : option nat) (f : Fiber) : Fiber :=
  mkFiber (tag f) (key f) (elementType f) (type f) (stateNode f) (return_ f)
    (child f) (sibling f) (index f) (ref f) (pendingProps f) (mode f)
    (flags f) (nextEffect f) (firstEffect f) v (lanes f)
    (alternate f).

(** Modelled from the spec: [ReactFiber.old.js] is not among the sources.
    A fresh work node has no alternate, no links, index 0 and no pending
    side effects. *)
Definition createFiber (tag : WorkTag) (pendingProps : PendingProps)
    (key : option string) (mode : nat) : Fiber :=
  mkFiber tag key None None NoStateNode None None None 0 RefNull
    pendingProps mode NoFlags None None None 0 None.

(** ** The store of fibers, and computations over it *)

Abbreviation Store := (list Fiber).

Definition noFiber : Fiber := createFiber HostText NoProps None 0.

(** The fiber at an address; links only ever hold allocated addresses. *)
Definition fiberAt (st : Store) (a : nat) : Fiber :=
  default noFiber (st !! a).

Inductive Error : Type :=
  | InvalidChildObject            (* Objects are not valid as a React child *)
  | StringRefOwnerNotClass        (* Function components cannot have string refs *)
  | StringRefMissingInstance      (* Missing owner for string ref *)
  | StringRefWithoutOwner         (* Element ref was specified as a string but no owner was set *)
  | NothingReturnedFromRender
  | LazyInitThrew.

(** A computation returns a value and a store, throws, or, when a loop
    over a chain of links does not come to an end, diverges. *)
Inductive Result (A : Type) : Type :=
  | Ok (a : A) (st : Store)
  | Throw (e : Error)
  | Diverge.
Arguments Ok {A} a st.
Arguments Throw {A} e.
Arguments Diverge {A}.

Definition M (A : Type) : Type := Store -> Result A.

Definition ret {A} (a : A) : M A := fun st => Ok a st.

Definition bind {A B} (m : M A) (k : A -> M B) : M B :=
  fun st =>
    match m st with
    | Ok a st' => k a st'
    | Throw e => Throw e
    | Diverge => Diverge
    end.

Notation "'let*' x ':=' m 'in' k" := (bind m (fun x => k))
  (at level 10, x name, m at level 100, k at level 200).
Notation "m ';;' k" := (bind m (fun _ => k))
  (at level 100, k at level 200, right associativity).

Definition throw {A} (e : Error) : M A := fun _ => Throw e.

Definition diverge {A} : M A := fun _ => Diverge.

(** Reading a fiber, writing one field of it, allocating a new one. *)
Definition get (a : nat) : M Fiber := fun st => Ok (fiberAt st a) st.

Definition update (a : nat) (f : Fiber -> Fiber) : M unit :=
  fun st => Ok tt (alter f a st).

Definition alloc (f : Fiber) : M nat :=
  fun st => Ok (length st) (st ++ [f]).

Definition storeSize : M nat := fun st => Ok (length st) st.

(** ** The functions of [ReactFiber.old.js] the reconciler calls *)

(** Modelled from the spec: [createWorkInProgress] is in
    [ReactFiber.old.js], not among the sources.  The spec has a reused
    node cloned from the old one, its [alternate] the old node, with no
    pending side effects of its own yet. *)
Definition createWorkInProgress (current : nat) (pendingProps : PendingProps)
    : M nat :=
  let* c := get current in
  alloc (mkFiber (tag c) (key c) (elementType c) (type c) (stateNode c)
           None (child c) (sibling c) (index c) (ref c) pendingProps (mode c)
           NoFlags None None None (lanes c) (Some current)).

(** Modelled from the spec: [createFiberFromFragment] is in
    [ReactFiber.old.js].  A fresh list-fragment node. *)
Definition createFiberFromFragment (elements : ReactNode) (mode lanes : nat)
    (key : option string) : M nat :=
  let f := createFiber Fragment (ChildrenProps elements) key mode in
  alloc (mkFiber (tag f) (ChildFiber.key f) (elementType f) (type f)
           (stateNode f) (return_ f) (child f) (sibling f) (index f) (ref f)
           (pendingProps f) (ChildFiber.mode f) (flags f) (nextEffect f)
           (firstEffect f) (lastEffect f) lanes (alternate f)).

(** Modelled from the spec: [createFiberFromElement] is in
    [ReactFiber.old.js].  A fresh node of the element's type and key; a
    fragment element gives a list-fragment node. *)
Definition createFiberFromElement (key : option string) (ty : ElementType)
    (props : nat) (children : ReactNode) (mode lanes : nat) : M nat :=
  match ty with
  | REACT_FRAGMENT_TYPE => createFiberFromFragment children mode lanes key
  | ConcreteType tag _ =>
    let f := createFiber tag (ElementProps props children) key mode in
    alloc (mkFiber (ChildFiber.tag f) (ChildFiber.key f) (Some ty) (Some ty)
             (stateNode f) (return_ f) (child f) (sibling f) (index f) (ref f)
             (pendingProps f) (ChildFiber.mode f) (flags f) (nextEffect f)
             (firstEffect f) (lastEffect f) lanes (alternate f))
  end.

(** Modelled from the spec: [createFiberFromText] is in
    [ReactFiber.old.js].  A fresh text node. *)
Definition createFiberFromText (content : string) (mode lanes : nat) : M nat :=
  let f := createFiber HostText (TextProps content) None mode in
  alloc (mkFiber (tag f) (key f) (elementType f) (type f)
           (stateNode f) (return_ f) (child f) (sibling f) (index f) (ref f)
           (pendingProps f) (ChildFiber.mode f) (flags f) (nextEffect f)
           (firstEffect f) (lastEffect f) lanes (alternate f)).

(** Modelled from the spec: [createFiberFromPortal] is in
    [ReactFiber.old.js].  A fresh portal node, holding its container and
    implementation. *)
Definition createFiberFromPortal (key : option string)
    (containerInfo implementation : nat) (children : ReactNode)
    (mode lanes : nat) : M nat :=
  let f := createFiber HostPortal (ChildrenProps children) key mode in
  alloc (mkFiber (tag f) (ChildFiber.key f) (elementType f) (type f)
           (PortalState containerInfo implementation)
           (return_ f) (child f) (sibling f) (index f) (ref f)
           (pendingProps f) (ChildFiber.mode f) (flags f) (nextEffect f)
           (firstEffect f) (lastEffect f) lanes (alternate f)).

(** ** coerceRef and throwOnInvalidObjectType *)

(** Production build: the warnings under [__DEV__] are not there. *)
Definition coerceRef (returnFiber : nat) (current : option nat)
    (mixedRef : ElementRef) (owner : option nat) : M FiberRef :=
  match mixedRef with
  | ERefNull => ret RefNull
  | ERefObject id => ret (RefObject id)
  | ERefString stringRef =>
    match owner with
    | Some ownerFiber =>
      let* o := get ownerFiber in
      if decide (tag o = ClassComponent) then
        match stateNode o with
        | Instance inst =>
          let fresh := RefStringFunction stringRef inst in
          match current with
          | Some current =>
            let* c := get current in
            match ref c with
            | RefStringFunction stringRef' _ =>
              if decide (stringRef' = stringRef) then ret (ref c)
              else ret fresh
            | _ => ret fresh
            end
          | None => ret fresh
          end
        | _ => throw StringRefMissingInstance
        end
      else throw StringRefOwnerNotClass
    | None => throw StringRefWithoutOwner
    end
  end.

Definition throwOnInvalidObjectType (returnFiber : nat) : M unit :=
  let* r := get returnFiber in
  if decide (type r = Some (ConcreteType HostComponent "textarea"))
  then ret tt
  else throw InvalidChildObject.

(** ** The existing-children map *)

(** A JavaScript [Map] from keys (strings) and indices (numbers) to fibers;
    it keeps its entries in insertion order, which [forEach] follows. *)
Inductive MapKey : Type :=
  | KeyString (s : string)
  | KeyIndex (i : nat).

Global Instance MapKey_eq_dec : EqDecision MapKey.
Proof. solve_decision. Defined.

Abbreviation ChildMap := (list (MapKey * nat)).

Fixpoint map_get (m : ChildMap) (k : MapKey) : option nat :=
  match m with
  | [] => None
  | (k', v) :: m' => if decide (k' = k) then Some v else map_get m' k
  end.

Fixpoint map_set (m : ChildMap) (k : MapKey) (v : nat) : ChildMap :=
  match m with
  | [] => [(k, v)]
  | (k', v') :: m' =>
    if decide (k' = k) then (k, v) :: m' else (k', v') :: map_set m' k v
  end.

Definition map_delete (m : ChildMap) (k : MapKey) : ChildMap :=
  filter (fun kv => kv.1 <> k) m.

(** [key === null ? index : key] *)
Definition keyOrIndex (key : option string) (idx : nat) : MapKey :=
  match key with
  | Some k => KeyString k
  | None => KeyIndex idx
  end.

(** ** ChildReconciler *)

(** A production build is embedded: what the source does under [__DEV__]
    (the warnings, the hot reloading test beside the comparison of types)
    is not there.  [ReactFeatureFlags.js] is not among the sources.
    [enableLazyElements] is a parameter.  Modelled from the spec: its
    variants of a work node have no block among them, so [enableBlocksAPI]
    is off, and a fiber tagged [Block] is treated by the [default]
    branches.  [reconcileChildrenIterator] is the algorithm of
    [reconcileChildrenArray] run over an iterator; both are
    [reconcileChildrenArray] here, over the list of the children. *)

Section ChildReconciler.

Variable shouldTrackSideEffects : bool.
Variable enableLazyElements : bool.

Definition deleteChild (returnFiber childToDelete : nat) : M unit :=
  if negb shouldTrackSideEffects then ret tt
  else
    let* r := get returnFiber in
    match lastEffect r with
    | Some last =>
      update last (set_nextEffect (Some childToDelete)) ;;
      update returnFiber (set_lastEffect (Some childToDelete))
    | None =>
      update returnFiber (set_lastEffect (Some childToDelete)) ;;
      update returnFiber (set_firstEffect (Some childToDelete))
    end ;;
    update childToDelete (set_nextEffect None) ;;
    update childToDelete (set_flags Deletion).

(** The [while (childToDelete !== null)] loop.  It follows [sibling]
    links; on a chain that closes on itself it does not end. *)
Fixpoint deleteRemainingChildren_loop (fuel : nat) (returnFiber : nat)
    (childToDelete : option nat) : M unit :=
  match childToDelete with
  | None => ret tt
  | Some c =>
    match fuel with
    | O => diverge
    | S fuel' =>
      deleteChild returnFiber c ;;
      let* f := get c in
      deleteRemainingChildren_loop fuel' returnFiber (sibling f)
    end
  end.

(** A chain without a cycle has at most as many nodes as the store. *)
Definition deleteRemainingChildren (returnFiber : nat)
    (currentFirstChild : option nat) : M (option nat) :=
  if negb shouldTrackSideEffects then ret None
  else
    let* n := storeSize in
    deleteRemainingChildren_loop n returnFiber currentFirstChild ;;
    ret None.

Fixpoint mapRemainingChildren_loop (fuel : nat) (existingChildren : ChildMap)
    (existingChild : option nat) : M ChildMap :=
  match existingChild with
  | None => ret existingChildren
  | Some c =>
    match fuel with
    | O => diverge
    | S fuel' =>
      let* f := get c in
      let existingChildren :=
        match key f with
        | Some k => map_set existingChildren (KeyString k) c
        | None => map_set existingChildren (KeyIndex (index f)) c
        end in
      mapRemainingChildren_loop fuel' existingChildren (sibling f)
    end
  end.

Definition mapRemainingChildren (returnFiber : nat) (currentFirstChild : nat)
    : M ChildMap :=
  let* n := storeSize in
  mapRemainingChildren_loop n [] (Some currentFirstChild).

Definition useFiber (fiber : nat) (pendingProps : PendingProps) : M nat :=
  let* clone := createWorkInProgress fiber pendingProps in
  update clone (set_index 0) ;;
  update clone (set_sibling None) ;;
  ret clone.

Definition placeChild (newFiber : nat) (lastPlacedIndex newIndex : nat)
    : M nat :=
  update newFiber (set_index newIndex) ;;
  if negb shouldTrackSideEffects then ret lastPlacedIndex
  else
    let* f := get newFiber in
    match alternate f with
    | Some current =>
      let* c := get current in
      let oldIndex := index c in
      if oldIndex <? lastPlacedIndex then
        update newFiber (set_flags Placement) ;;
        ret lastPlacedIndex
      else ret oldIndex
    | None =>
      update newFiber (set_flags Placement) ;;
      ret lastPlacedIndex
    end.

Definition placeSingleChild (newFiber : nat) : M nat :=
  let* f := get newFiber in
  (if shouldTrackSideEffects && bool_decide (alternate f = None)
   then update newFiber (set_flags Placement)
   else ret tt) ;;
  ret newFiber.

Definition updateTextNode (returnFiber : nat) (current : option nat)
    (textContent : string) (lanes : nat) : M nat :=
  let insert :=
    let* r := get returnFiber in
    let* created := createFiberFromText textContent (mode r) lanes in
    update created (set_return (Some returnFiber)) ;;
    ret created in
  match current with
  | None => insert
  | Some current =>
    let* c := get current in
    if decide (tag c = HostText) then
      let* existing := useFiber current (TextProps textContent) in
      update existing (set_return (Some returnFiber)) ;;
      ret existing
    else insert
  end.

(** [element] is given by its fields.  With [enableBlocksAPI] off and in a
    production build, only the comparison of [elementType] with the
    element's type decides. *)
Definition updateElement (returnFiber : nat) (current : option nat)
    (key : option string) (ty : ElementType) (mixedRef : ElementRef)
    (owner : option nat) (props : nat) (children : ReactNode) (lanes : nat)
    : M nat :=
  let insert :=
    let* r := get returnFiber in
    let* created :=
      createFiberFromElement key ty props children (mode r) lanes in
    let* coerced := coerceRef returnFiber current mixedRef owner in
    update created (set_ref coerced) ;;
    update created (set_return (Some returnFiber)) ;;
    ret created in
  match current with
  | None => insert
  | Some cur =>
    let* c := get cur in
    if decide (elementType c = Some ty) then
      let* existing := useFiber cur (ElementProps props children) in
      let* coerced := coerceRef returnFiber current mixedRef owner in
      update existing (set_ref coerced) ;;
      update existing (set_return (Some returnFiber)) ;;
      ret existing
    else insert
  end.

Definition updatePortal (returnFiber : nat) (current : option nat)
    (key : option string) (containerInfo implementation : nat)
    (children : ReactNode) (lanes : nat) : M nat :=
  let insert :=
    let* r := get returnFiber in
    let* created :=
      createFiberFromPortal key containerInfo implementation children
        (mode r) lanes in
    update created (set_return (Some returnFiber)) ;;
    ret created in
  match current with
  | None => insert
  | Some current =>
    let* c := get current in
    if decide (tag c = HostPortal
               /\ stateNode c = PortalState containerInfo implementation)
    then
      let* existing := useFiber current (PortalChildrenProps children) in
      update existing (set_return (Some returnFiber)) ;;
      ret existing
    else insert
  end.

Definition updateFragment (returnFiber : nat) (current : option nat)
    (fragment : ReactNode) (lanes : nat) (key : option string) : M nat :=
  let insert :=
    let* r := get returnFiber in
    let* created := createFiberFromFragment fragment (mode r) lanes key in
    update created (set_return (Some returnFiber)) ;;
    ret created in
  match current with
  | None => insert
  | Some current =>
    let* c := get current in
    if decide (tag c = Fragment) then
      let* existing := useFiber current (ChildrenProps fragment) in
      update existing (set_return (Some returnFiber)) ;;
      ret existing
    else insert
  end.

(** The three functions below dispatch on the shape of [newChild] in the
    same way.  An object that is neither element, portal, lazy (with the
    flag on), array nor iterable reaches [throwOnInvalidObjectType], and,
    where that returns, the final [return null]. *)
Fixpoint createChild (returnFiber : nat) (newChild : ReactNode) (lanes : nat)
    : M (option nat) :=
  match newChild with
  | NText textContent =>
    let* r := get returnFiber in
    let* created := createFiberFromText textContent (mode r) lanes in
    update created (set_return (Some returnFiber)) ;;
    ret (Some created)
  | NElement key ty mixedRef owner props children =>
    let* r := get returnFiber in
    let* created :=
      createFiberFromElement key ty props children (mode r) lanes in
    let* coerced := coerceRef returnFiber None mixedRef owner in
    update created (set_ref coerced) ;;
    update created (set_return (Some returnFiber)) ;;
    ret (Some created)
  | NPortal key containerInfo implementation children =>
    let* r := get returnFiber in
    let* created :=
      createFiberFromPortal key containerInfo implementation children
        (mode r) lanes in
    update created (set_return (Some returnFiber)) ;;
    ret (Some created)
  | NLazy init =>
    if enableLazyElements then
      match init with
      | Some resolved => createChild returnFiber resolved lanes
      | None => throw LazyInitThrew
      end
    else
      throwOnInvalidObjectType returnFiber ;;
      ret None
  | NArray _ =>
    let* r := get returnFiber in
    let* created := createFiberFromFragment newChild (mode r) lanes None in
    update created (set_return (Some returnFiber)) ;;
    ret (Some created)
  | NObject =>
    throwOnInvalidObjectType returnFiber ;;
    ret None
  | NNull | NUndefined | NFunction => ret None
  end.

Fixpoint updateSlot (returnFiber : nat) (oldFiber : option nat)
    (newChild : ReactNode) (lanes : nat) : M (option nat) :=
  let* key :=
    match oldFiber with
    | Some old => let* o := get old in ret (key o)
    | None => ret None
    end in
  match newChild with
  | NText textContent =>
    if decide (key <> None) then ret None
    else
      let* updated := updateTextNode returnFiber oldFiber textContent lanes in
      ret (Some updated)
  | NElement newKey ty mixedRef owner props children =>
    if decide (newKey = key) then
      if decide (ty = REACT_FRAGMENT_TYPE) then
        let* updated := updateFragment returnFiber oldFiber children lanes key in
        ret (Some updated)
      else
        let* updated :=
          updateElement returnFiber oldFiber newKey ty mixedRef owner props
            children lanes in
        ret (Some updated)
    else ret None
  | NPortal newKey containerInfo implementation children =>
    if decide (newKey = key) then
      let* updated :=
        updatePortal returnFiber oldFiber newKey containerInfo implementation
          children lanes in
      ret (Some updated)
    else ret None
  | NLazy init =>
    if enableLazyElements then
      match init with
      | Some resolved => updateSlot returnFiber oldFiber resolved lanes
      | None => throw LazyInitThrew
      end
    else
      throwOnInvalidObjectType returnFiber ;;
      ret None
  | NArray _ =>
    if decide (key <> None) then ret None
    else
      let* updated := updateFragment returnFiber oldFiber newChild lanes None in
      ret (Some updated)
  | NObject =>
    throwOnInvalidObjectType returnFiber ;;
    ret None
  | NNull | NUndefined | NFunction => ret None
  end.

Fixpoint updateFromMap (existingChildren : ChildMap) (returnFiber : nat)
    (newIdx : nat) (newChild : ReactNode) (lanes : nat) : M (option nat) :=
  match newChild with
  | NText textContent =>
    let matchedFiber := map_get existingChildren (KeyIndex newIdx) in
    let* updated := updateTextNode returnFiber matchedFiber textContent lanes in
    ret (Some updated)
  | NElement newKey ty mixedRef owner props children =>
    let matchedFiber := map_get existingChildren (keyOrIndex newKey newIdx) in
    if decide (ty = REACT_FRAGMENT_TYPE) then
      let* updated :=
        updateFragment returnFiber matchedFiber children lanes newKey in
      ret (Some updated)
    else
      let* updated :=
        updateElement returnFiber matchedFiber newKey ty mixedRef owner props
          children lanes in
      ret (Some updated)
  | NPortal newKey containerInfo implementation children =>
    let matchedFiber := map_get existingChildren (keyOrIndex newKey newIdx) in
    let* updated :=
      updatePortal returnFiber matchedFiber newKey containerInfo implementation
        children lanes in
    ret (Some updated)
  | NLazy init =>
    if enableLazyElements then
      match init with
      | Some resolved =>
        updateFromMap existingChildren returnFiber newIdx resolved lanes
      | None => throw LazyInitThrew
      end
    else
      throwOnInvalidObjectType returnFiber ;;
      ret None
  | NArray _ =>
    let matchedFiber := map_get existingChildren (KeyIndex newIdx) in
    let* updated :=
      updateFragment returnFiber matchedFiber newChild lanes None in
    ret (Some updated)
  | NObject =>
    throwOnInvalidObjectType returnFiber ;;
    ret None
  | NNull | NUndefined | NFunction => ret None
  end.

(** ** reconcileChildrenArray *)

(** The variables the loops of [reconcileChildrenArray] share. *)
Record ArrayLoop : Type := mkArrayLoop {
  resultingFirstChild : option nat;
  previousNewFiber : option nat;
  oldFiber : option nat;
  lastPlacedIndex : nat;
  newIdx : nat
}.

(** [if (previousNewFiber === null) resultingFirstChild = newFiber;
     else previousNewFiber.sibling = newFiber;
     previousNewFiber = newFiber;], then the loop's [newIdx++]. *)
Definition appendNewFiber (newFiber : nat) (lastPlaced : nat)
    (nextOldFiber : option nat) (l : ArrayLoop) : M ArrayLoop :=
  match previousNewFiber l with
  | None =>
    ret (mkArrayLoop (Some newFiber) (Some newFiber) nextOldFiber lastPlaced
           (S (newIdx l)))
  | Some previous =>
    update previous (set_sibling (Some newFiber)) ;;
    ret (mkArrayLoop (resultingFirstChild l) (Some newFiber) nextOldFiber
           lastPlaced (S (newIdx l)))
  end.

(** The first loop, over the new children not yet looked at.  It returns
    the loop variables and the new children left, the first of them the
    one at [newIdx]. *)
Fixpoint firstPass (returnFiber : nat) (lanes : nat)
    (newChildren : list ReactNode) (l : ArrayLoop)
    : M (ArrayLoop * list ReactNode) :=
  match oldFiber l, newChildren with
  | Some old, newChild :: rest =>
    let* o := get old in
    let '(oldFiber, nextOldFiber) :=
      if newIdx l <? index o then (None, Some old)
      else (Some old, sibling o) in
    let* newFiber := updateSlot returnFiber oldFiber newChild lanes in
    match newFiber with
    | None =>
      let oldFiber :=
        match oldFiber with
        | None => nextOldFiber
        | Some _ => oldFiber
        end in
      ret (mkArrayLoop (resultingFirstChild l) (previousNewFiber l) oldFiber
             (lastPlacedIndex l) (newIdx l),
           newChildren)
    | Some newFiber =>
      (if shouldTrackSideEffects then
         match oldFiber with
         | Some old =>
           let* n := get newFiber in
           match alternate n with
           | None => deleteChild returnFiber old
           | Some _ => ret tt
           end
         | None => ret tt
         end
       else ret tt) ;;
      let* lastPlaced := placeChild newFiber (lastPlacedIndex l) (newIdx l) in
      let* l := appendNewFiber newFiber lastPlaced nextOldFiber l in
      firstPass returnFiber lanes rest l
    end
  | _, _ => ret (l, newChildren)
  end.

(** The loop taken when the old fibers ran out first: every child left is
    an insertion. *)
Fixpoint insertRest (returnFiber : nat) (lanes : nat)
    (newChildren : list ReactNode) (l : ArrayLoop) : M ArrayLoop :=
  match newChildren with
  | [] => ret l
  | newChild :: rest =>
    let* newFiber := createChild returnFiber newChild lanes in
    match newFiber with
    | None =>
      insertRest returnFiber lanes rest
        (mkArrayLoop (resultingFirstChild l) (previousNewFiber l) (oldFiber l)
           (lastPlacedIndex l) (S (newIdx l)))
    | Some newFiber =>
      let* lastPlaced := placeChild newFiber (lastPlacedIndex l) (newIdx l) in
      let* l := appendNewFiber newFiber lastPlaced (oldFiber l) l in
      insertRest returnFiber lanes rest l
    end
  end.

(** The loop over the map of the old fibers left. *)
Fixpoint mapPass (returnFiber : nat) (lanes : nat)
    (newChildren : list ReactNode) (existingChildren : ChildMap)
    (l : ArrayLoop) : M (ArrayLoop * ChildMap) :=
  match newChildren with
  | [] => ret (l, existingChildren)
  | newChild :: rest =>
    let* newFiber :=
      updateFromMap existingChildren returnFiber (newIdx l) newChild lanes in
    match newFiber with
    | None =>
      mapPass returnFiber lanes rest existingChildren
        (mkArrayLoop (resultingFirstChild l) (previousNewFiber l) (oldFiber l)
           (lastPlacedIndex l) (S (newIdx l)))
    | Some newFiber =>
      let* n := get newFiber in
      let existingChildren :=
        if shouldTrackSideEffects then
          match alternate n with
          | Some _ =>
            map_delete existingChildren (keyOrIndex (key n) (newIdx l))
          | None => existingChildren
          end
        else existingChildren in
      let* lastPlaced := placeChild newFiber (lastPlacedIndex l) (newIdx l) in
      let* l := appendNewFiber newFiber lastPlaced (oldFiber l) l in
      mapPass returnFiber lanes rest existingChildren l
    end
  end.

(** [existingChildren.forEach(child => deleteChild(returnFiber, child))] *)
Fixpoint deleteEach (returnFiber : nat) (children : list nat) : M unit :=
  match children with
  | [] => ret tt
  | c :: rest => deleteChild returnFiber c ;; deleteEach returnFiber rest
  end.

Definition reconcileChildrenArray (returnFiber : nat)
    (currentFirstChild : option nat) (newChildren : list ReactNode)
    (lanes : nat) : M (option nat) :=
  let* r := firstPass returnFiber lanes newChildren
              (mkArrayLoop None None currentFirstChild 0 0) in
  let '(l, rest) := r in
  match rest with
  | [] =>
    deleteRemainingChildren returnFiber (oldFiber l) ;;
    ret (resultingFirstChild l)
  | _ :: _ =>
    match oldFiber l with
    | None =>
      let* l := insertRest returnFiber lanes rest l in
      ret (resultingFirstChild l)
    | Some old =>
      let* existingChildren := mapRemainingChildren returnFiber old in
      let* r := mapPass returnFiber lanes rest existingChildren l in
      let '(l, existingChildren) := r in
      (if shouldTrackSideEffects
       then deleteEach returnFiber (existingChildren.*2)
       else ret tt) ;;
      ret (resultingFirstChild l)
    end
  end.

(** ** Single children *)

Definition reconcileSingleTextNode (returnFiber : nat)
    (currentFirstChild : option nat) (textContent : string) (lanes : nat)
    : M nat :=
  let insert :=
    deleteRemainingChildren returnFiber currentFirstChild ;;
    let* r := get returnFiber in
    let* created := createFiberFromText textContent (mode r) lanes in
    update created (set_return (Some returnFiber)) ;;
    ret created in
  match currentFirstChild with
  | None => insert
  | Some first =>
    let* f := get first in
    if decide (tag f = HostText) then
      deleteRemainingChildren returnFiber (sibling f) ;;
      let* existing := useFiber first (TextProps textContent) in
      update existing (set_return (Some returnFiber)) ;;
      ret existing
    else insert
  end.

(** Whether the [switch (child.tag)] of [reconcileSingleElement] finds the
    child and the element of one type. *)
Definition sameElementType (child : Fiber) (ty : ElementType) : bool :=
  match tag child with
  | Fragment => bool_decide (ty = REACT_FRAGMENT_TYPE)
  | _ => bool_decide (elementType child = Some ty)
  end.

(** The [while (child !== null)] loop of [reconcileSingleElement]:
    [Some existing] when it returns the reused fiber, [None] when it is
    left, by [break] or at the end of the chain. *)
Fixpoint reconcileSingleElement_loop (fuel : nat) (returnFiber : nat)
    (child : option nat) (key : option string) (ty : ElementType)
    (mixedRef : ElementRef) (owner : option nat) (props : nat)
    (children : ReactNode) : M (option nat) :=
  match child with
  | None => ret None
  | Some c =>
    match fuel with
    | O => diverge
    | S fuel' =>
      let* cf := get c in
      if decide (ChildFiber.key cf = key) then
        if sameElementType cf ty then
          deleteRemainingChildren returnFiber (sibling cf) ;;
          match tag cf with
          | Fragment =>
            let* existing := useFiber c (ChildrenProps children) in
            update existing (set_return (Some returnFiber)) ;;
            ret (Some existing)
          | _ =>
            let* existing := useFiber c (ElementProps props children) in
            let* coerced := coerceRef returnFiber (Some c) mixedRef owner in
            update existing (set_ref coerced) ;;
            update existing (set_return (Some returnFiber)) ;;
            ret (Some existing)
          end
        else
          deleteRemainingChildren returnFiber (Some c) ;;
          ret None
      else
        deleteChild returnFiber c ;;
        let* cf := get c in
        reconcileSingleElement_loop fuel' returnFiber (sibling cf) key ty
          mixedRef owner props children
    end
  end.

Definition reconcileSingleElement (returnFiber : nat)
    (currentFirstChild : option nat) (key : option string) (ty : ElementType)
    (mixedRef : ElementRef) (owner : option nat) (props : nat)
    (children : ReactNode) (lanes : nat) : M nat :=
  let* n := storeSize in
  let* reused :=
    reconcileSingleElement_loop n returnFiber currentFirstChild key ty
      mixedRef owner props children in
  match reused with
  | Some existing => ret existing
  | None =>
    let* r := get returnFiber in
    if decide (ty = REACT_FRAGMENT_TYPE) then
      let* created := createFiberFromFragment children (mode r) lanes key in
      update created (set_return (Some returnFiber)) ;;
      ret created
    else
      let* created :=
        createFiberFromElement key ty props children (mode r) lanes in
      let* coerced := coerceRef returnFiber currentFirstChild mixedRef owner in
      update created (set_ref coerced) ;;
      update created (set_return (Some returnFiber)) ;;
      ret created
  end.

Fixpoint reconcileSinglePortal_loop (fuel : nat) (returnFiber : nat)
    (child : option nat) (key : option string)
    (containerInfo implementation : nat) (children : ReactNode)
    : M (option nat) :=
  match child with
  | None => ret None
  | Some c =>
    match fuel with
    | O => diverge
    | S fuel' =>
      let* cf := get c in
      if decide (ChildFiber.key cf = key) then
        if decide (tag cf = HostPortal
                   /\ stateNode cf = PortalState containerInfo implementation)
        then
          deleteRemainingChildren returnFiber (sibling cf) ;;
          let* existing := useFiber c (PortalChildrenProps children) in
          update existing (set_return (Some returnFiber)) ;;
          ret (Some existing)
        else
          deleteRemainingChildren returnFiber (Some c) ;;
          ret None
      else
        deleteChild returnFiber c ;;
        let* cf := get c in
        reconcileSinglePortal_loop fuel' returnFiber (sibling cf) key
          containerInfo implementation children
    end
  end.

Definition reconcileSinglePortal (returnFiber : nat)
    (currentFirstChild : option nat) (key : option string)
    (containerInfo implementation : nat) (children : ReactNode) (lanes : nat)
    : M nat :=
  let* n := storeSize in
  let* reused :=
    reconcileSinglePortal_loop n returnFiber currentFirstChild key
      containerInfo implementation children in
  match reused with
  | Some existing => ret existing
  | None =>
    let* r := get returnFiber in
    let* created :=
      createFiberFromPortal key containerInfo implementation children
        (mode r) lanes in
    update created (set_return (Some returnFiber)) ;;
    ret created
  end.

(** ** reconcileChildFibers *)

(** What [reconcileChildFibers] does once a top-level fragment without key
    has been replaced by its children; [isUnkeyedTopLevelFragment] says
    whether that happened. *)
Fixpoint reconcileChildFibers_body (isUnkeyedTopLevelFragment : bool)
    (returnFiber : nat) (currentFirstChild : option nat)
    (newChild : ReactNode) (lanes : nat) : M (option nat) :=
  let treatAsEmpty := deleteRemainingChildren returnFiber currentFirstChild in
  match newChild with
  | NElement key ty mixedRef owner props children =>
    let* placed :=
      (let* single :=
         reconcileSingleElement returnFiber currentFirstChild key ty mixedRef
           owner props children lanes in
       placeSingleChild single) in
    ret (Some placed)
  | NPortal key containerInfo implementation children =>
    let* placed :=
      (let* single :=
         reconcileSinglePortal returnFiber currentFirstChild key containerInfo
           implementation children lanes in
       placeSingleChild single) in
    ret (Some placed)
  | NLazy init =>
    if enableLazyElements then
      match init with
      | Some resolved =>
        match resolved with
        | NElement None REACT_FRAGMENT_TYPE _ _ _ children =>
          reconcileChildFibers_body true returnFiber currentFirstChild
            children lanes
        | _ =>
          reconcileChildFibers_body false returnFiber currentFirstChild
            resolved lanes
        end
      | None => throw LazyInitThrew
      end
    else
      throwOnInvalidObjectType returnFiber ;;
      treatAsEmpty
  | NText textContent =>
    let* placed :=
      (let* single :=
         reconcileSingleTextNode returnFiber currentFirstChild textContent
           lanes in
       placeSingleChild single) in
    ret (Some placed)
  | NArray items =>
    reconcileChildrenArray returnFiber currentFirstChild items lanes
  | NObject =>
    throwOnInvalidObjectType returnFiber ;;
    treatAsEmpty
  | NUndefined =>
    let* r := get returnFiber in
    if negb isUnkeyedTopLevelFragment
       && bool_decide (tag r ∈ [ClassComponent; Block; FunctionComponent;
                                 ForwardRef; SimpleMemoComponent])
    then throw NothingReturnedFromRender
    else treatAsEmpty
  | NNull | NFunction => treatAsEmpty
  end.

Definition reconcileChildFibers (returnFiber : nat)
    (currentFirstChild : option nat) (newChild : ReactNode) (lanes : nat)
    : M (option nat) :=
  match newChild with
  | NElement None REACT_FRAGMENT_TYPE _ _ _ children =>
    reconcileChildFibers_body true returnFiber currentFirstChild children lanes
  | _ =>
    reconcileChildFibers_body false returnFiber currentFirstChild newChild
      lanes
  end.

End ChildReconciler.

(** ** Reading lists out of the store *)

(** The addresses met from [first] along [sibling] links, at most [fuel]
    of them. *)
Fixpoint siblingsFrom (fuel : nat) (st : Store) (first : option nat)
    : list nat :=
  match fuel, first with
  | S fuel', Some a => a :: siblingsFrom fuel' st (sibling (fiberAt st a))
  | _, _ => []
  end.

(** The same along [nextEffect] links. *)
Fixpoint effectsFrom (fuel : nat) (st : Store) (first : option nat)
    : list nat :=
  match fuel, first with
  | S fuel', Some a => a :: effectsFrom fuel' st (nextEffect (fiberAt st a))
  | _, _ => []
  end.

(** [l] is the chain that starts at [first], follows the link [next] and
    ends where that link is null; every fiber on it is allocated. *)
Inductive linked (next : Fiber -> option nat) (st : Store)
    : option nat -> list nat -> Prop :=
  | linked_nil : linked next st None []
  | linked_cons a f l :
      st !! a = Some f ->
      linked next st (next f) l ->
      linked next st (Some a) (a :: l).

Definition siblingChain : Store -> option nat -> list nat -> Prop :=
  linked sibling.

Definition effectChain : Store -> option nat -> list nat -> Prop :=
  linked nextEffect.

(** [l] is the side-effect list of the parent at [returnFiber]: the chain
    along [nextEffect] from its [firstEffect], and its [lastEffect] is the
    last fiber of that chain. *)
Definition effectList (st : Store) (returnFiber : nat) (l : list nat) : Prop :=
  effectChain st (firstEffect (fiberAt st returnFiber)) l
  /\ lastEffect (fiberAt st returnFiber) = last l.

(** What of a fiber the bookkeeping of deletions never writes: everything
    but [flags], [nextEffect], [firstEffect] and [lastEffect]. *)
Definition identityOf (f : Fiber) : Fiber :=
  set_flags NoFlags
    (set_nextEffect None (set_firstEffect None (set_lastEffect None f))).

(** [st'] holds every fiber of [st], changed at most in those four
    fields. *)
Definition preserved (st st' : Store) : Prop :=
  forall a f, st !! a = Some f ->
    exists f', st' !! a = Some f' /\ identityOf f' = identityOf f.

(** The ref of the element is one [coerceRef] accepts: not a string ref,
    or a string ref whose owner is a class component with an instance. *)
Definition refResolves (st : Store) (mixedRef : ElementRef)
    (owner : option nat) : Prop :=
  match mixedRef with
  | ERefString _ =>
    exists o inst,
      owner = Some o
      /\ tag (fiberAt st o) = ClassComponent
      /\ stateNode (fiberAt st o) = Instance inst
  | _ => True
  end.

(** The type a child has for the purposes of matching: a fragment for a
    fiber tagged [Fragment], its [elementType] otherwise. *)
Definition concreteType (f : Fiber) : option ElementType :=
  match tag f with
  | Fragment => Some REACT_FRAGMENT_TYPE
  | _ => elementType f
  end.

(** The old fiber [old] and the new child at position [i] are the same
    child: the new child is an element with the key of the old fiber and
    of its type, and the old fiber sits at index [i].  The fragment symbol
    is never the [elementType] of a fiber, and the element's ref is one
    [coerceRef] accepts. *)
Definition slotMatches (st : Store) (i : nat) (old : nat) (newChild : ReactNode)
    : Prop :=
  match newChild with
  | NElement k ty mixedRef owner _ _ =>
    let f := fiberAt st old in
    key f = k
    /\ index f = i
    /\ concreteType f = Some ty
    /\ elementType f <> Some REACT_FRAGMENT_TYPE
    /\ refResolves st mixedRef owner
  | _ => False
  end.

Definition keyOf (newChild : ReactNode) : option string :=
  match newChild with
  | NElement k _ _ _ _ _ => k
  | NPortal k _ _ _ => k
  | _ => None
  end.

(** Where the first loop of [reconcileChildrenArray] stands after [i]
    slots that all matched, started on the store [st0] with the old
    fibers [olds]: the store holds [st0] untouched and, after it, a clone
    for each of the first [i] old fibers, numbered, flagless and linked in
    order; the loop variables point at the first and the last clone and at
    the next old fiber. *)
Definition reusedUpTo (st0 : Store) (returnFiber : nat) (olds : list nat)
    (newChildren : list ReactNode) (i : nat) (st : Store) (l : ArrayLoop)
    : Prop :=
  let base := length st0 in
  length st = base + i
  /\ (forall a, a < base -> st !! a = st0 !! a)
  /\ (forall j, j < i ->
        exists f,
          st !! (base + j) = Some f
          /\ alternate f = olds !! j
          /\ Some (key f) = keyOf <$> newChildren !! j
          /\ index f = j
          /\ flags f = NoFlags
          /\ return_ f = Some returnFiber
          /\ sibling f = (if S j <? i then Some (base + S j) else None))
  /\ resultingFirstChild l = (if i is O then None else Some base)
  /\ previousNewFiber l = (if i is O then None else Some (base + i - 1))
  /\ oldFiber l = olds !! i
  /\ newIdx l = i
  /\ lastPlacedIndex l <= i.

(** ** Example: three keyed children of one parent *)

Definition li : ElementType := ConcreteType HostComponent "li".

Definition keyed (k : string) : ReactNode :=
  NElement (Some k) li ERefNull None 0 NNull.

(** A committed child of the parent at address 0. *)
Definition committedChild (k : string) (i : nat) (next : option nat) : Fiber :=
  mkFiber HostComponent (Some k) (Some li) (Some li) NoStateNode (Some 0)
    None next i RefNull (ElementProps 0 NNull) 0 NoFlags None None None 0 None.

(** The parent at 0 and its children a, b, c at 1, 2, 3. *)
Definition committedABC : Store :=
  [ mkFiber HostComponent None (Some (ConcreteType HostComponent "ul"))
      (Some (ConcreteType HostComponent "ul")) NoStateNode None (Some 1) None
      0 RefNull (ElementProps 0 NNull) 0 NoFlags None None None 0 None;
    committedChild "a" 0 (Some 2);
    committedChild "b" 1 (Some 3);
    committedChild "c" 2 None ].

(** What a test looks at in a produced fiber: key, index, flags and
    alternate. *)
Definition summary (st : Store) (a : nat)
    : option string * nat * N * option nat :=
  let f := fiberAt st a in (key f, index f, flags f, alternate f).

(** [committedABC] with a work-in-progress clone of "a", at address 4. *)
Definition committedABC_cloneOfA : Store :=
  match useFiber 1 (ElementProps 0 NNull) committedABC with
  | Ok _ st => st
  | _ => committedABC
  end.

(** The fibers of a produced sibling list that carry the Placement flag. *)
Definition placed (st : Store) (first : option nat) : list nat :=
  filter (fun a => hasFlag (flags (fiberAt st a)) Placement = true)
    (siblingsFrom (length st) st first).

End ChildFiber.

(* ===================================================================== *)
(** * The scheduler's other entry points, definitions *)
(* ===================================================================== *)

Module SchedulerApi.
Import Scheduler.

(** ** Handlers *)

(** How a call of a JavaScript function ends. *)
Inductive Outcome (A : Type) : Type :=
  | Returned (a : A)
  | Threw.
Arguments Returned {A} a.
Arguments Threw {A}.

Section Handlers.

(** [E] is what a handler can reach besides the scheduler's own state. *)
Context {E : Type}.

(** An event handler is a function without arguments: it runs on the
    scheduler's state and on [E], and returns or throws. *)
Definition Handler (A : Type) : Type := State * E -> Outcome A * (State * E).

(** The [finally] block runs whether the handler returned or threw. *)
Definition unstable_runWithPriority {A} (priorityLevel : PriorityLevel)
    (eventHandler : Handler A) (w : State * E) : Outcome A * (State * E) :=
  let priorityLevel :=
    match priorityLevel with
    | ImmediatePriority | UserBlockingPriority | NormalPriority
    | LowPriority | IdlePriority => priorityLevel
    | OtherPriority _ => NormalPriority
    end in
  let previousPriorityLevel := currentPriorityLevel w.1 in
  let w := (with_currentPriorityLevel priorityLevel w.1, w.2) in
  let '(result, w) := eventHandler w in
  (result, (with_currentPriorityLevel previousPriorityLevel w.1, w.2)).

Definition unstable_next {A} (eventHandler : Handler A) (w : State * E)
    : Outcome A * (State * E) :=
  let priorityLevel :=
    match currentPriorityLevel w.1 with
    | ImmediatePriority | UserBlockingPriority | NormalPriority =>
      NormalPriority
    | _ => currentPriorityLevel w.1
    end in
  let previousPriorityLevel := currentPriorityLevel w.1 in
  let w := (with_currentPriorityLevel priorityLevel w.1, w.2) in
  let '(result, w) := eventHandler w in
  (result, (with_currentPriorityLevel previousPriorityLevel w.1, w.2)).

(** The function [unstable_wrapCallback] returns is a closure over the
    callback and over the level read when it was made. *)
Record Wrapped (A : Type) : Type := mkWrapped {
  parentPriorityLevel : PriorityLevel;
  wrappedCallback : Handler A
}.
Arguments mkWrapped {A} _ _.
Arguments parentPriorityLevel {A} _.
Arguments wrappedCallback {A} _.

Definition unstable_wrapCallback {A} (callback : Handler A) (w : State * E)
    : Wrapped A :=
  mkWrapped (currentPriorityLevel w.1) callback.

(** A call of the function [unstable_wrapCallback] returned.  The source
    hands [this] and the arguments on to the callback; handlers take
    none. *)
Definition callWrapped {A} (f : Wrapped A) : Handler A :=
  fun w =>
    let previousPriorityLevel := currentPriorityLevel w.1 in
    let w := (with_currentPriorityLevel (parentPriorityLevel f) w.1, w.2) in
    let '(result, w) := wrappedCallback f w in
    (result, (with_currentPriorityLevel previousPriorityLevel w.1, w.2)).

End Handlers.

Arguments mkWrapped {E A} _ _.
Arguments parentPriorityLevel {E A} _.
Arguments wrappedCallback {E A} _.

Definition unstable_getCurrentPriorityLevel (s : State) : PriorityLevel :=
  currentPriorityLevel s.

Definition unstable_getFirstCallbackNode (s : State) : option nat :=
  peek (taskQueue s).

(** ** Programs that call the scheduler *)

(** The code of a handler, as far as the scheduler is concerned: the entry
    points it calls, in order, some of them with handlers of their own,
    and whether it returns or throws at its end.  An exception a call
    throws is not caught: it ends the handler. *)
Inductive Call : Type :=
  | CallScheduleCallback (priorityLevel : PriorityLevel) (callback : Value)
      (options : Options)
  | CallCancelCallback (task : nat)
  | CallPauseExecution
  | CallContinueExecution
  | CallGetCurrentPriorityLevel
  | CallRunWithPriority (priorityLevel : PriorityLevel) (eventHandler : Program)
  | CallNext (eventHandler : Program)
  | CallWrapped (parentPriorityLevel : PriorityLevel) (callback : Program)
with Program : Type :=
  | Body (calls : list Call) (returns : bool).

(** What the program read with [unstable_getCurrentPriorityLevel()], each
    reading with the depth of the handler that did it: 0 for the code that
    is no handler, 1 for a handler it passed, and so on. *)
Abbreviation Readings := (list (nat * PriorityLevel)).

Section Programs.

Variable fl : FeatureFlags.

Fixpoint runProgram (depth : nat) (p : Program) (w : State * Readings)
    {struct p} : Outcome unit * (State * Readings) :=
  match p with
  | Body calls returns =>
    (fix runCalls (calls : list Call) (w : State * Readings) {struct calls}
        : Outcome unit * (State * Readings) :=
       match calls with
       | [] => (if returns then Returned tt else Threw, w)
       | c :: rest =>
         match runCall depth c w with
         | (Returned _, w) => runCalls rest w
         | (Threw, w) => (Threw, w)
         end
       end) calls w
  end
with runCall (depth : nat) (c : Call) (w : State * Readings) {struct c}
    : Outcome unit * (State * Readings) :=
  match c with
  | CallScheduleCallback priorityLevel callback options =>
    (Returned tt,
     ((unstable_scheduleCallback fl priorityLevel callback options w.1).2, w.2))
  | CallCancelCallback task =>
    (Returned tt, (unstable_cancelCallback fl task w.1, w.2))
  | CallPauseExecution => (Returned tt, (unstable_pauseExecution w.1, w.2))
  | CallContinueExecution =>
    (Returned tt, (unstable_continueExecution w.1, w.2))
  | CallGetCurrentPriorityLevel =>
    (Returned tt, (w.1, w.2 ++ [(depth, unstable_getCurrentPriorityLevel w.1)]))
  | CallRunWithPriority priorityLevel eventHandler =>
    unstable_runWithPriority priorityLevel (runProgram (S depth) eventHandler) w
  | CallNext eventHandler =>
    unstable_next (runProgram (S depth) eventHandler) w
  | CallWrapped parentPriorityLevel callback =>
    callWrapped (mkWrapped parentPriorityLevel (runProgram (S depth) callback)) w
  end.

(** The calls of a body, one after the other. *)
Fixpoint runCalls (depth : nat) (calls : list Call) (returns : bool)
    (w : State * Readings) : Outcome unit * (State * Readings) :=
  match calls with
  | [] => (if returns then Returned tt else Threw, w)
  | c :: rest =>
    match runCall depth c w with
    | (Returned _, w) => runCalls depth rest returns w
    | (Threw, w) => (Threw, w)
    end
  end.

End Programs.

(** ** Vocabulary for the statements below *)


(** The level a handler of [unstable_next] runs at. *)
Definition nextPriority (p : PriorityLevel) : PriorityLevel :=
  match p with
  | ImmediatePriority | UserBlockingPriority | NormalPriority => NormalPriority
  | _ => p
  end.

(** Every one of the [readings] made at depth [d] is [p]. *)
Definition readAt (d : nat) (p : PriorityLevel) (readings : Readings) : Prop :=
  Forall (fun r => r.1 = d -> r.2 = p) readings.

(** No delayed task is due: the root of the delayed queue, if there is
    one, has a callback and starts after [currentTime]. *)
Definition timersSettled (currentTime : Z) (s : State) : Prop :=
  forall timer,
    peek (timerQueue s) = Some timer ->
    callback (taskAt (tasks s) timer) <> VNull
    /\ currentTime < startTime (taskAt (tasks s) timer).


(** What of a task [advanceTimers] never writes. *)
Definition settled (t : Task) : Z * Value * PriorityLevel * Z * Z :=
  (id t, callback t, priorityLevel t, startTime t, expirationTime t).

(** What of the scheduler's state [advanceTimers] never writes. *)
Definition control (s : State)
    : Z * bool * option nat * PriorityLevel * bool * bool * bool * Host :=
  (taskIdCounter s, isSchedulerPaused s, currentTask s,
   currentPriorityLevel s, isPerformingWork s, isHostCallbackScheduled s,
   isHostTimeoutScheduled s, host s).

(** Two states that differ at most in [isSchedulerPaused]. *)
Definition samePausedApart (s1 s2 : State) : Prop :=
  with_isSchedulerPaused false s1 = with_isSchedulerPaused false s2.

(** A ready task and a delayed one, scheduled at time 0. *)
Definition readyAndDelayed : State :=
  (unstable_scheduleCallback productionFlags NormalPriority completesAtOnce
     (OptionsObject (DelayNumber 10))
     (unstable_scheduleCallback productionFlags NormalPriority completesAtOnce
        OptionsAbsent (initialState 0 5)).2).2.

End SchedulerApi.

(* ===================================================================== *)
(** * The host configuration in a browser, definitions *)
(* ===================================================================== *)

Module HostConfig.

(** The branch of [SchedulerHostConfig.default.js] taken where [window]
    and [MessageChannel] exist (lines 77 to 262 of the source).  Times,
    delays and frame rates are integers. *)

(** ** What the code around the host configuration does *)

(** The calls a piece of code makes, and the time it lets pass.  The
    callback handed to [requestHostCallback] is called with
    [hasTimeRemaining] and the current time and returns whether work is
    left, or throws ([None]); the callback handed to [requestHostTimeout]
    is called with the current time. *)
Inductive HostCall : Type :=
  | CallRequestHostCallback (callback : HostCallback)
  | CallCancelHostCallback
  | CallRequestHostTimeout (callback : TimeoutCallback) (ms : Z)
  | CallCancelHostTimeout
  | CallRequestPaint
  | CallForceFrameRate (fps : Z)
  | CallElapse (dt : N)
with HostCallback : Type :=
  | HostFunction (run : bool -> Z -> list HostCall * option bool)
with TimeoutCallback : Type :=
  | TimeoutFunction (run : Z -> list HostCall).

(** ** The variables of the module, and the environment *)

Record HostState : Type := mkHostState {
  isMessageLoopRunning : bool;
  scheduledHostCallback : option HostCallback;
  taskTimeoutID : Z;
  yieldInterval : Z;
  deadline : Z;
  needsPaint : bool;
  now : Z;
  posted : nat;
  timeouts : list (Z * Z * TimeoutCallback);
  nextTimeoutID : Z;
  entered : list (bool * Z * Z)
}.

Definition set_isMessageLoopRunning (v : bool) (m : HostState)
    : HostState :=
  mkHostState v (scheduledHostCallback m) (taskTimeoutID m)
    (yieldInterval m) (deadline m) (needsPaint m) (now m) (posted m)
    (timeouts m) (nextTimeoutID m) (entered m).

Definition set_scheduledHostCallback (v : option HostCallback) (m : HostState)
    : HostState :=
  mkHostState (isMessageLoopRunning m) v (taskTimeoutID m) (yieldInterval m)
    (deadline m) (needsPaint m) (now m) (posted m) (timeouts m)
    (nextTimeoutID m) (entered m).

Definition set_taskTimeoutID (v : Z) (m : HostState)
    : HostState :=
  mkHostState (isMessageLoopRunning m) (scheduledHostCallback m) v
    (yieldInterval m) (deadline m) (needsPaint m) (now m) (posted m)
    (timeouts m) (nextTimeoutID m) (entered m).

Definition set_yieldInterval (v : Z) (m : HostState)
    : HostState :=
  mkHostState (isMessageLoopRunning m) (scheduledHostCallback m)
    (taskTimeoutID m) v (deadline m) (needsPaint m) (now m) (posted m)
    (timeouts m) (nextTimeoutID m) (entered m).

Definition set_deadline (v : Z) (m : HostState)
    : HostState :=
  mkHostState (isMessageLoopRunning m) (scheduledHostCallback m)
    (taskTimeoutID m) (yieldInterval m) v (needsPaint m) (now m) (posted m)
    (timeouts m) (nextTimeoutID m) (entered m).

Definition set_needsPaint (v : bool) (m : HostState)
    : HostState :=
  mkHostState (isMessageLoopRunning m) (scheduledHostCallback m)
    (taskTimeoutID m) (yieldInterval m) (deadline m) v (now m) (posted m)
    (timeouts m) (nextTimeoutID m) (entered m).

Definition set_now (v : Z) (m : HostState)
    : HostState :=
  mkHostState (isMessageLoopRunning m) (scheduledHostCallback m)
    (taskTimeoutID m) (yieldInterval m) (deadline m) (needsPaint m) v
    (posted m) (timeouts m) (nextTimeoutID m) (entered m).

Definition set_posted (v : nat) (m : HostState)
    : HostState :=
  mkHostState (isMessageLoopRunning m) (scheduledHostCallback m)
    (taskTimeoutID m) (yieldInterval m) (deadline m) (needsPaint m) (now m)
    v (timeouts m) (nextTimeoutID m) (entered m).

Definition set_timeouts (v : list (Z * Z * TimeoutCallback)) (m : HostState)
    : HostState :=
  mkHostState (isMessageLoopRunning m) (scheduledHostCallback m)
    (taskTimeoutID m) (yieldInterval m) (deadline m) (needsPaint m) (now m)
    (posted m) v (nextTimeoutID m) (entered m).

Definition set_nextTimeoutID (v : Z) (m : HostState)
    : HostState :=
  mkHostState (isMessageLoopRunning m) (scheduledHostCallback m)
    (taskTimeoutID m) (yieldInterval m) (deadline m) (needsPaint m) (now m)
    (posted m) (timeouts m) v (entered m).

Definition set_entered (v : list (bool * Z * Z)) (m : HostState)
    : HostState :=
  mkHostState (isMessageLoopRunning m) (scheduledHostCallback m)
    (taskTimeoutID m) (yieldInterval m) (deadline m) (needsPaint m) (now m)
    (posted m) (timeouts m) (nextTimeoutID m) v.

(** The module as loaded, at time [t]. *)
Definition initialHost (t : Z) : HostState :=
  mkHostState false None (-1) 5 0 false t 0 [] 1 [].

Definition getCurrentTime (m : HostState) : Z := now m.

(** [port.postMessage(null)] *)
Definition postMessage (m : HostState) : HostState :=
  set_posted (S (posted m)) m.

(** [setTimeout(callback, ms)] and [clearTimeout(id)] *)
Definition setTimeout (callback : TimeoutCallback) (ms : Z) (m : HostState)
    : Z * HostState :=
  let id := nextTimeoutID m in
  (id, set_nextTimeoutID (id + 1)
         (set_timeouts (timeouts m ++ [(id, ms, callback)]) m)).

Definition clearTimeout (id : Z) (m : HostState) : HostState :=
  set_timeouts (filter (fun t => t.1.1 <> id) (timeouts m)) m.

(** ** The functions of the module *)

Section Browser.

(** Whether [isInputPending] is there and enabled: with it,
    [requestPaint] marks a paint as needed; without it, it does
    nothing. *)
Variable inputPending : bool.

Definition requestPaint (m : HostState) : HostState :=
  if inputPending then set_needsPaint true m else m.

(** Out of range, the source logs an error and returns. *)
Definition forceFrameRate (fps : Z) (m : HostState) : HostState :=
  if (fps <? 0) || (125 <? fps) then m
  else if 0 <? fps then set_yieldInterval (1000 / fps) m
  else set_yieldInterval 5 m.

Definition requestHostCallback (callback : HostCallback) (m : HostState)
    : HostState :=
  let m := set_scheduledHostCallback (Some callback) m in
  if negb (isMessageLoopRunning m)
  then postMessage (set_isMessageLoopRunning true m)
  else m.

Definition cancelHostCallback (m : HostState) : HostState :=
  set_scheduledHostCallback None m.

Definition requestHostTimeout (callback : TimeoutCallback) (ms : Z)
    (m : HostState) : HostState :=
  let '(id, m) := setTimeout callback ms m in
  set_taskTimeoutID id m.

Definition cancelHostTimeout (m : HostState) : HostState :=
  set_taskTimeoutID (-1) (clearTimeout (taskTimeoutID m) m).

Definition runHostCall (m : HostState) (c : HostCall) : HostState :=
  match c with
  | CallRequestHostCallback callback => requestHostCallback callback m
  | CallCancelHostCallback => cancelHostCallback m
  | CallRequestHostTimeout callback ms => requestHostTimeout callback ms m
  | CallCancelHostTimeout => cancelHostTimeout m
  | CallRequestPaint => requestPaint m
  | CallForceFrameRate fps => forceFrameRate fps m
  | CallElapse dt => set_now (now m + Z.of_N dt) m
  end.

Definition runHostCalls (calls : list HostCall) (m : HostState) : HostState :=
  foldl runHostCall m calls.

(** The handler of the port's messages.  The boolean is [false] when the
    scheduled callback threw: the source posts a message and throws the
    error on, and the statement after the [try] is not reached. *)
Definition performWorkUntilDeadline (m : HostState) : bool * HostState :=
  match scheduledHostCallback m with
  | Some (HostFunction run) =>
    let currentTime := getCurrentTime m in
    let m := set_deadline (currentTime + yieldInterval m) m in
    let hasTimeRemaining := true in
    let m :=
      set_entered
        (entered m ++ [(hasTimeRemaining, currentTime, deadline m)]) m in
    match run hasTimeRemaining currentTime with
    | (calls, Some hasMoreWork) =>
      let m := runHostCalls calls m in
      let m :=
        if negb hasMoreWork
        then set_scheduledHostCallback None (set_isMessageLoopRunning false m)
        else postMessage m in
      (true, set_needsPaint false m)
    | (calls, None) =>
      let m := runHostCalls calls m in
      (false, postMessage m)
    end
  | None => (true, set_needsPaint false (set_isMessageLoopRunning false m))
  end.

(** ** The browser's event loop *)

(** What happens next: code outside the loop calls the module or lets
    time pass, the port delivers a message, or a timer fires. *)
Inductive Event : Type :=
  | EvCall (c : HostCall)
  | EvMessage
  | EvTimeout (id : Z).

Definition step (m : HostState) (e : Event) : HostState :=
  match e with
  | EvCall c => runHostCall m c
  | EvMessage =>
    match posted m with
    | O => m
    | S n => (performWorkUntilDeadline (set_posted n m)).2
    end
  | EvTimeout id =>
    match list_find (fun t => t.1.1 = id) (timeouts m) with
    | Some (_, (_, _, TimeoutFunction run)) =>
      let m := clearTimeout id m in
      runHostCalls (run (getCurrentTime m)) m
    | None => m
    end
  end.

Definition runEvents (events : list Event) (m : HostState) : HostState :=
  foldl step m events.

End Browser.

(** ** Vocabulary for the statements below *)

(** Between two events: a message is in flight exactly when the loop is
    marked as running, and then it is the only one; a scheduled callback
    has the loop running. *)
Definition atRest (m : HostState) : Prop :=
  posted m = (if isMessageLoopRunning m then 1%nat else 0%nat)
  /\ (scheduledHostCallback m <> None -> isMessageLoopRunning m = true).

(** While the scheduled callback runs: the message that started it is
    consumed and the loop is marked as running. *)
Definition insideCallback (m : HostState) : Prop :=
  posted m = 0%nat /\ isMessageLoopRunning m = true.

End HostConfig.

(* ===================================================================== *)
(** * The reconciler's use of the scheduler, definitions *)
(* ===================================================================== *)

Module SchedulerIntegration.
Import SchedulerApi.

(** [packages/react-reconciler/src/SchedulerWithReactIntegration.old.js].
    The names the source gives to what it takes from the scheduler. *)
Abbreviation Scheduler_ImmediatePriority := Scheduler.ImmediatePriority.
Abbreviation Scheduler_UserBlockingPriority := Scheduler.UserBlockingPriority.
Abbreviation Scheduler_NormalPriority := Scheduler.NormalPriority.
Abbreviation Scheduler_LowPriority := Scheduler.LowPriority.
Abbreviation Scheduler_IdlePriority := Scheduler.IdlePriority.

(** ** Priority levels of the reconciler *)

Definition ImmediatePriority : Z := 99.
Definition UserBlockingPriority : Z := 98.
Definition NormalPriority : Z := 97.
Definition LowPriority : Z := 96.
Definition IdlePriority : Z := 95.
Definition NoPriority : Z := 90.

(** [None] is the failed [invariant(false, 'Unknown priority level.')]. *)
Definition getCurrentPriorityLevel (s : Scheduler.State) : option Z :=
  match unstable_getCurrentPriorityLevel s with
  | Scheduler_ImmediatePriority => Some ImmediatePriority
  | Scheduler_UserBlockingPriority => Some UserBlockingPriority
  | Scheduler_NormalPriority => Some NormalPriority
  | Scheduler_LowPriority => Some LowPriority
  | Scheduler_IdlePriority => Some IdlePriority
  | Scheduler.OtherPriority _ => None
  end.

Definition reactPriorityToSchedulerPriority (reactPriorityLevel : Z)
    : option Scheduler.PriorityLevel :=
  if decide (reactPriorityLevel = ImmediatePriority)
  then Some Scheduler_ImmediatePriority
  else if decide (reactPriorityLevel = UserBlockingPriority)
  then Some Scheduler_UserBlockingPriority
  else if decide (reactPriorityLevel = NormalPriority)
  then Some Scheduler_NormalPriority
  else if decide (reactPriorityLevel = LowPriority)
  then Some Scheduler_LowPriority
  else if decide (reactPriorityLevel = IdlePriority)
  then Some Scheduler_IdlePriority
  else None.

(** ** Callbacks of the synchronous queue *)

(** A [SchedulerCallback] is called with [isSync] and returns a callback
    to go on with, or null.  Here it is what such a call does: the
    functions of this module it calls, in order, and how it ends.  The
    [name] tells the callbacks apart in the record of calls. *)
Inductive SchedulerCallback : Type :=
  | Callback (name : nat) (calls : list SyncCall) (result : CallbackResult)
with SyncCall : Type :=
  | CallScheduleSyncCallback (callback : SchedulerCallback)
  | CallFlushSyncCallbackQueue
  | CallGetCurrentPriorityLevel
with CallbackResult : Type :=
  | ReturnsNull
  | ReturnsCallback (next : SchedulerCallback)
  | Throws.

(** What [scheduleSyncCallback] and [scheduleCallback] return: the fake
    node, or a task of the scheduler. *)
Inductive CallbackNode : Type :=
  | FakeCallbackNode
  | SchedulerTask (task : nat).

(** ** The variables of the module *)

(** The queue is an array, shared by reference between [syncQueue] and
    the [queue] of a flush under way: arrays live in a store and the
    variables hold addresses.  [called] and [levelsRead] record what the
    callbacks were called with and what they read. *)
Record Integration : Type := mkIntegration {
  arrays : list (list SchedulerCallback);
  syncQueue : option nat;
  immediateQueueCallbackNode : option nat;
  isFlushingSyncQueue : bool;
  called : list (nat * bool);
  levelsRead : list Z
}.

Definition set_arrays (v : list (list SchedulerCallback)) (m : Integration)
    : Integration :=
  mkIntegration v (syncQueue m) (immediateQueueCallbackNode m)
    (isFlushingSyncQueue m) (called m) (levelsRead m).

Definition set_syncQueue (v : option nat) (m : Integration) : Integration :=
  mkIntegration (arrays m) v (immediateQueueCallbackNode m)
    (isFlushingSyncQueue m) (called m) (levelsRead m).

Definition set_immediateQueueCallbackNode (v : option nat) (m : Integration)
    : Integration :=
  mkIntegration (arrays m) (syncQueue m) v (isFlushingSyncQueue m) (called m)
    (levelsRead m).

Definition set_isFlushingSyncQueue (v : bool) (m : Integration) : Integration :=
  mkIntegration (arrays m) (syncQueue m) (immediateQueueCallbackNode m) v
    (called m) (levelsRead m).

Definition set_called (v : list (nat * bool)) (m : Integration) : Integration :=
  mkIntegration (arrays m) (syncQueue m) (immediateQueueCallbackNode m)
    (isFlushingSyncQueue m) v (levelsRead m).

Definition set_levelsRead (v : list Z) (m : Integration) : Integration :=
  mkIntegration (arrays m) (syncQueue m) (immediateQueueCallbackNode m)
    (isFlushingSyncQueue m) (called m) v.

(** The module as loaded. *)
Definition initialIntegration : Integration :=
  mkIntegration [] None None false [] [].

Definition arrayAt (m : Integration) (a : nat) : list SchedulerCallback :=
  default [] (arrays m !! a).

(** The scheduler's state and the module's. *)
Abbreviation World := (Scheduler.State * Integration)%type.

(** ** The functions of the module *)

Section Integration.

Variable fl : Scheduler.FeatureFlags.

(** The two functions of this module that are handed to the scheduler as
    task callbacks, as the values the scheduler stores. *)
Variable flushSyncCallbackQueueImpl_value : Scheduler.Value.
Variable flushSyncCallbackQueue_value : Scheduler.Value.

Definition runWithPriority {E A} (reactPriorityLevel : Z)
    (fn : @Handler E A) (w : Scheduler.State * E)
    : Outcome A * (Scheduler.State * E) :=
  match reactPriorityToSchedulerPriority reactPriorityLevel with
  | Some priorityLevel => unstable_runWithPriority priorityLevel fn w
  | None => (Threw, w)
  end.

Definition scheduleCallback (reactPriorityLevel : Z)
    (callback : Scheduler.Value) (options : Scheduler.Options) (w : World)
    : Outcome CallbackNode * World :=
  match reactPriorityToSchedulerPriority reactPriorityLevel with
  | Some priorityLevel =>
    let '(task, s) :=
      Scheduler.unstable_scheduleCallback fl priorityLevel callback options
        w.1 in
    (Returned (SchedulerTask task), (s, w.2))
  | None => (Threw, w)
  end.

Definition scheduleSyncCallback (callback : SchedulerCallback) (w : World)
    : CallbackNode * World :=
  match syncQueue w.2 with
  | None =>
    let m := w.2 in
    let m := set_syncQueue (Some (length (arrays m)))
               (set_arrays (arrays m ++ [[callback]]) m) in
    let '(task, s) :=
      Scheduler.unstable_scheduleCallback fl Scheduler_ImmediatePriority
        flushSyncCallbackQueueImpl_value Scheduler.OptionsAbsent w.1 in
    (FakeCallbackNode, (s, set_immediateQueueCallbackNode (Some task) m))
  | Some queue =>
    (FakeCallbackNode,
     (w.1, set_arrays (alter (fun a => a ++ [callback]) queue (arrays w.2))
             w.2))
  end.

Definition cancelCallback (callbackNode : CallbackNode) (w : World) : World :=
  match callbackNode with
  | FakeCallbackNode => w
  | SchedulerTask task => (Scheduler.unstable_cancelCallback fl task w.1, w.2)
  end.

(** *** Flushing the queue *)

Section Flush.

(** What a call of [flushSyncCallbackQueue] from inside a callback does;
    [None] is a call that does not return. *)
Variable flushSyncCallbackQueue_inside : World -> option (Outcome unit * World).

Definition runSyncCall (c : SyncCall) (w : World)
    : option (Outcome unit * World) :=
  match c with
  | CallScheduleSyncCallback callback =>
    Some (Returned tt, (scheduleSyncCallback callback w).2)
  | CallFlushSyncCallbackQueue => flushSyncCallbackQueue_inside w
  | CallGetCurrentPriorityLevel =>
    match getCurrentPriorityLevel w.1 with
    | Some level =>
      Some (Returned tt, (w.1, set_levelsRead (levelsRead w.2 ++ [level]) w.2))
    | None => Some (Threw, w)
    end
  end.

Fixpoint runSyncCalls (calls : list SyncCall) (w : World)
    : option (Outcome unit * World) :=
  match calls with
  | [] => Some (Returned tt, w)
  | c :: rest =>
    match runSyncCall c w with
    | Some (Returned _, w) => runSyncCalls rest w
    | other => other
    end
  end.

(** [do { callback = callback(isSync); } while (callback !== null);] *)
Fixpoint callUntilNull (isSync : bool) (callback : SchedulerCallback)
    (w : World) : option (Outcome unit * World) :=
  match callback with
  | Callback name calls result =>
    let w := (w.1, set_called (called w.2 ++ [(name, isSync)]) w.2) in
    match runSyncCalls calls w with
    | Some (Returned _, w) =>
      match result with
      | ReturnsNull => Some (Returned tt, w)
      | ReturnsCallback next => callUntilNull isSync next w
      | Throws => Some (Threw, w)
      end
    | other => other
    end
  end.

(** The [for] loop over [queue], which is the array at the address
    [queue]; the index [i] is a variable the [catch] block reads, so it
    is part of what the loop leaves behind.  A turn of the loop that runs
    its body uses one unit of fuel; the result [Returned false] is a loop
    that did not finish within the fuel given. *)
Fixpoint flushLoop (fuel : nat) (queue : nat) (w : World * nat)
    : Outcome bool * (World * nat) :=
  let i := w.2 in
  match arrayAt w.1.2 queue !! i with
  | None => (Returned true, w)
  | Some callback =>
    match fuel with
    | O => (Returned false, w)
    | S fuel' =>
      match callUntilNull true callback w.1 with
      | Some (Returned _, w1) => flushLoop fuel' queue (w1, S i)
      | Some (Threw, w1) => (Threw, (w1, i))
      | None => (Returned false, w)
      end
    end
  end.

(** The number of callbacks a callback stands for: itself, those it goes
    on with and those they schedule. *)
Fixpoint callbackSize (callback : SchedulerCallback) : nat :=
  match callback with
  | Callback _ calls result =>
    S ((fix callsSize (calls : list SyncCall) : nat :=
          match calls with
          | [] => 0
          | CallScheduleSyncCallback scheduled :: rest =>
            callbackSize scheduled + callsSize rest
          | _ :: rest => callsSize rest
          end) calls
       + match result with
         | ReturnsCallback next => callbackSize next
         | _ => 0
         end)%nat
  end.

Definition queueSize (queue : list SchedulerCallback) : nat :=
  foldr (fun callback n => (callbackSize callback + n)%nat) 0%nat queue.

(** The branch for [decoupleUpdatePriorityFromScheduler] off (lines 223
    to 257 of the source); the other branch saves and restores the lane
    priority of [ReactFiberLane.js], which is not among the sources.
    Every callback in the queue and every callback scheduled while the
    loop runs takes one turn of the loop, so the size of the queue is
    fuel enough. *)
Definition flushSyncCallbackQueueImpl (w : World)
    : option (Outcome unit * World) :=
  match syncQueue w.2 with
  | Some queue =>
    if negb (isFlushingSyncQueue w.2) then
      let w := (w.1, set_isFlushingSyncQueue true w.2) in
      let i := 0%nat in
      let isSync := true in
      let fuel := queueSize (arrayAt w.2 queue) in
      let '(result, (s, (m, i))) :=
        runWithPriority (E := Integration * nat) ImmediatePriority
          (fun w => let '(r, ((s, m), i)) := flushLoop fuel queue ((w.1, w.2.1), w.2.2) in
                    (r, (s, (m, i))))
          (w.1, (w.2, i)) in
      match result with
      | Returned true =>
        let m := set_syncQueue None m in
        Some (Returned tt, (s, set_isFlushingSyncQueue false m))
      | Returned false => None
      | Threw =>
        let m :=
          match syncQueue m with
          | Some a =>
            set_syncQueue (Some (length (arrays m)))
              (set_arrays (arrays m ++ [drop (S i) (arrayAt m a)]) m)
          | None => m
          end in
        let '(_, s) :=
          Scheduler.unstable_scheduleCallback fl Scheduler_ImmediatePriority
            flushSyncCallbackQueue_value Scheduler.OptionsAbsent s in
        Some (Threw, (s, set_isFlushingSyncQueue false m))
      end
    else Some (Returned tt, w)
  | None => Some (Returned tt, w)
  end.

Definition flushSyncCallbackQueue_body (w : World)
    : option (Outcome unit * World) :=
  let w :=
    match immediateQueueCallbackNode w.2 with
    | Some node =>
      (Scheduler.unstable_cancelCallback fl node w.1,
       set_immediateQueueCallbackNode None w.2)
    | None => w
    end in
  flushSyncCallbackQueueImpl w.

End Flush.

(** A callback is called from the loop of a flush, where a further flush
    stops at the test of [isFlushingSyncQueue]; should it come to run
    callbacks of its own, their flushes are not followed. *)
Definition flushSyncCallbackQueue (w : World)
    : option (Outcome unit * World) :=
  flushSyncCallbackQueue_body
    (flushSyncCallbackQueue_body (fun _ => None)) w.

End Integration.

(** ** Vocabulary for the statements below *)









End SchedulerIntegration.

(* ===================================================================== *)
(** * The child reconciler, further vocabulary *)
(* ===================================================================== *)

Module ChildFiberTerms.
Import ChildFiber.

Local Open Scope nat_scope.

(** The key under which [mapRemainingChildren] files the child at [c]:
    its [key], or its [index] when the key is null. *)
Definition mapKeyOf (st : Store) (c : nat) : MapKey :=
  keyOrIndex (key (fiberAt st c)) (index (fiberAt st c)).

End ChildFiberTerms.

(* ===================================================================== *)
(** * Part III: the scheduler, properties *)
(* ===================================================================== *)

Module SchedulerFacts.
Import Scheduler.

(** ** The heap only rearranges its items *)

Lemma siftUp_Permutation fuel ts heap node index :
  heap !! index = Some node ->
  siftUp fuel ts heap node index ≡ₚ heap.
Proof.
  revert heap index.
  induction fuel as [|fuel IH]; intros heap index Hnode; [done|].
  destruct index as [|index]; [done|].
  cbn [siftUp]. set (parentIndex := ((S index - 1) / 2)%nat).
  destruct (heap !! parentIndex) as [parent|] eqn:Hparent; [|done].
  destruct (0 <? _); [|done].
  assert (parentIndex < length heap)%nat as Hlt
    by (by eapply lookup_lt_Some).
  assert (parentIndex ≠ S index) as Hne.
  { subst parentIndex. replace (S index - 1)%nat with index by lia.
    pose proof (Nat.Div0.div_le_upper_bound index 2 index). lia. }
  rewrite IH.
  - by apply Permutation_insert_swap.
  - rewrite list_lookup_insert_ne by done.
    by rewrite list_lookup_insert_eq.
Qed.

Lemma push_Permutation ts heap node :
  push ts heap node ≡ₚ node :: heap.
Proof.
  unfold push. rewrite siftUp_Permutation.
  - by rewrite Permutation_app_comm.
  - by rewrite list_lookup_middle.
Qed.

Lemma siftDown_Permutation fuel ts heap node index :
  heap !! index = Some node ->
  siftDown fuel ts heap node index ≡ₚ heap.
Proof.
  revert heap index.
  induction fuel as [|fuel IH]; intros heap index Hnode; [done|].
  assert (forall i child, heap !! i = Some child ->
            siftDown fuel ts (<[i := node]> (<[index := child]> heap)) node i
            ≡ₚ heap) as Hswap.
  { intros i child Hchild. rewrite IH.
    - by apply Permutation_insert_swap.
    - rewrite list_lookup_insert_eq; [done|].
      rewrite length_insert. by eapply lookup_lt_Some. }
  cbn [siftDown]. set (leftIndex := ((index + 1) * 2 - 1)%nat).
  destruct (_ <? _)%nat; [|done].
  destruct (heap !! leftIndex) as [l|] eqn:Hl,
           (heap !! (leftIndex + 1)%nat) as [r|] eqn:Hr;
    repeat (destruct (_ <? 0)); auto.
Qed.

Lemma pop_empty ts : pop ts [] = (None, []).
Proof. done. Qed.

Lemma pop_fst ts heap : (pop ts heap).1 = peek heap.
Proof.
  destruct heap as [|first rest]; [done|].
  unfold pop. by destruct (decide _).
Qed.

Lemma pop_snoc ts front last first :
  peek (front ++ [last]) = Some first ->
  pop ts (front ++ [last]) =
    if decide (last = first) then (Some first, front)
    else (Some first, siftDown (length front) ts (<[0%nat := last]> front) last 0%nat).
Proof.
  intros Hpeek. unfold pop.
  destruct (front ++ [last]) as [|x rest] eqn:Heq; [done|].
  simpl in Hpeek. simplify_eq. rewrite <-Heq.
  by rewrite removelast_last, last_last.
Qed.

Lemma pop_Permutation ts heap first :
  peek heap = Some first ->
  heap ≡ₚ first :: (pop ts heap).2.
Proof.
  intros Hpeek.
  destruct heap as [|last front _] using rev_ind; [done|].
  rewrite (pop_snoc _ _ _ first) by done.
  destruct (decide (last = first)) as [->|Hne]; cbn [snd].
  - by rewrite <-Permutation_cons_append.
  - destruct front as [|x front]; simpl in Hpeek; simplify_eq.
    rewrite siftDown_Permutation by done. simpl.
    by rewrite <-Permutation_cons_append.
Qed.

Lemma pop_length ts heap :
  length (pop ts heap).2 = pred (length heap).
Proof.
  destruct heap as [|first rest]; [done|].
  by rewrite (pop_Permutation ts (first :: rest) first) at 2.
Qed.
(** ** What each entry point leaves alone *)

Lemma alter_snoc {A} (f : A -> A) (l : list A) (x : A) :
  alter f (length l) (l ++ [x]) = l ++ [f x].
Proof.
  replace (length l) with (length l + 0)%nat by lia.
  by rewrite alter_app_r.
Qed.

Lemma taskAt_alter_ne f ts a b :
  a ≠ b -> taskAt (alter f a ts) b = taskAt ts b.
Proof. intros. unfold taskAt. by rewrite list_lookup_alter_ne. Qed.

Lemma taskAt_alter_eq f ts a :
  (a < length ts)%nat -> taskAt (alter f a ts) a = f (taskAt ts a).
Proof.
  intros Hlt. unfold taskAt. rewrite list_lookup_alter_eq.
  destruct (lookup_lt_is_Some_2 ts a Hlt) as [t ->]. done.
Qed.

Lemma taskAt_app_l ts ts' a :
  (a < length ts)%nat -> taskAt (ts ++ ts') a = taskAt ts a.
Proof. intros. unfold taskAt. by rewrite lookup_app_l. Qed.

Lemma taskAt_lookup ts a t : ts !! a = Some t -> taskAt ts a = t.
Proof. intros H. unfold taskAt. by rewrite H. Qed.

(** The task store after [unstable_scheduleCallback]: one new task, at the
    first free address, and no other task touched. *)
Lemma scheduleCallback_tasks fl P cb opts s :
  let now := getCurrentTime s in
  let start := computeStartTime now opts in
  let expiry := start + timeoutForPriority P in
  tasks (unstable_scheduleCallback fl P cb opts s).2 =
    tasks s ++ [mkTask (taskIdCounter s) cb P start expiry
                  (if now <? start then start else expiry)
                  (if now <? start then false else enableProfiling fl)].
Proof.
  intros now start expiry. unfold unstable_scheduleCallback.
  fold now. fold start. fold expiry.
  destruct (now <? start).
  - repeat case_match; simpl; by rewrite alter_snoc.
  - destruct fl as [dbg prof].
    destruct prof; simpl; repeat case_match; simpl; rewrite alter_snoc; simpl;
      rewrite ?alter_snoc; done.
Qed.
Lemma scheduleCallback_fst fl P cb opts s :
  (unstable_scheduleCallback fl P cb opts s).1 = length (tasks s).
Proof. unfold unstable_scheduleCallback. by repeat case_match. Qed.

(** The queues after [unstable_scheduleCallback]: the new task goes on one
    of them and nothing leaves either. *)
Lemma scheduleCallback_queues fl P cb opts s :
  let now := getCurrentTime s in
  let start := computeStartTime now opts in
  let s' := (unstable_scheduleCallback fl P cb opts s).2 in
  if now <? start
  then taskQueue s' = taskQueue s
       /\ timerQueue s' ≡ₚ length (tasks s) :: timerQueue s
  else timerQueue s' = timerQueue s
       /\ taskQueue s' ≡ₚ length (tasks s) :: taskQueue s.
Proof.
  intros now start. unfold unstable_scheduleCallback.
  fold now. fold start.
  destruct (now <? start).
  - repeat case_match; simpl; split; try done; apply push_Permutation.
  - destruct fl as [dbg prof].
    destruct prof; simpl; repeat case_match; simpl; split; try done;
      apply push_Permutation.
Qed.

Lemma scheduleCallback_calls fl P cb opts s :
  calls (host (unstable_scheduleCallback fl P cb opts s).2) = calls (host s).
Proof.
  unfold unstable_scheduleCallback.
  destruct fl as [dbg prof]. destruct prof; by repeat case_match.
Qed.

Lemma cancelCallback_unfold fl task s :
  unstable_cancelCallback fl task s =
    updateTask task
      (fun t => mkTask (id t) VNull (priorityLevel t) (startTime t)
                  (expirationTime t) (sortIndex t)
                  (if enableProfiling fl then false else isQueued t)) s.
Proof.
  unfold unstable_cancelCallback, updateTask, with_tasks, taskAt.
  destruct s as [ts tq mq n p c l w hc ht h]; simpl.
  destruct (enableProfiling fl).
  - destruct (isQueued (default noTask (ts !! task))) eqn:Hq; simpl; f_equal.
    + rewrite list_alter_alter_eq. by apply list_alter_ext.
    + apply list_alter_ext; [|done]. intros t Ht.
      rewrite Ht in Hq. simpl in Hq. unfold set_callback. by rewrite Hq.
  - f_equal.
Qed.

(** ** Expiration times (claim C5) *)


(** ** Ready or delayed (claim C10) *)

Lemma roundToDouble_exact x : Z.abs x < 2 ^ 53 -> roundToDouble x = x.
Proof.
  intros Hx. unfold roundToDouble.
  assert (Z.log2 (Z.abs x) <= 52) as Hlog.
  { destruct (decide (Z.abs x = 0)) as [->|Hnz]; [done|].
    assert (Z.log2 (Z.abs x) < 53); [|lia].
    apply Z.log2_lt_pow2; lia. }
  destruct (Z.log2 (Z.abs x) - 52 <=? 0) eqn:E; [done|lia].
Qed.

(** Below [2^53] the sum of two numbers is the sum of the integers they
    are. *)
Lemma numberAdd_exact a b : Z.abs (a + b) < 2 ^ 53 -> numberAdd a b = a + b.
Proof. apply roundToDouble_exact. Qed.

(** The start time is the current time unless the options hold a numeric
    delay above zero. *)
Lemma computeStartTime_delayed now opts :
  computeStartTime now opts <> now ->
  exists d, opts = OptionsObject (DelayNumber d) /\ 0 < d.
Proof.
  destruct opts as [[d|]|]; simpl; try done.
  destruct (0 <? d) eqn:E; [|done]. intros _. exists d. split; [done|lia].
Qed.

(** C10.  Without an options object, with a delay that is not a number, or
    with a delay [<= 0], the new task starts at the current time and goes
    on the ready queue with [sortIndex = expirationTime], the delayed queue
    untouched.  With a numeric delay [d > 0] it starts at the sum of the
    current time and [d], as the numbers add up; it then goes on the
    delayed queue with [sortIndex = startTime], the ready queue untouched,
    when that start time is greater than the current time, and on the
    ready queue as before when it is not.  No other options give a start
    time greater than the current time. *)
Theorem scheduleCallback_ready_or_delayed fl P cb opts s :
  let '(task, s') := unstable_scheduleCallback fl P cb opts s in
  exists t, tasks s' !! task = Some t
  /\ (notDelayed opts ->
        startTime t = getCurrentTime s
        /\ sortIndex t = expirationTime t
        /\ taskQueue s' ≡ₚ task :: taskQueue s
        /\ timerQueue s' = timerQueue s)
  /\ (forall d, opts = OptionsObject (DelayNumber d) -> 0 < d ->
        startTime t = numberAdd (getCurrentTime s) d
        /\ (getCurrentTime s < startTime t ->
              sortIndex t = startTime t
              /\ timerQueue s' ≡ₚ task :: timerQueue s
              /\ taskQueue s' = taskQueue s)
        /\ (startTime t <= getCurrentTime s ->
              sortIndex t = expirationTime t
              /\ taskQueue s' ≡ₚ task :: taskQueue s
              /\ timerQueue s' = timerQueue s))
  /\ (getCurrentTime s < startTime t ->
        exists d, opts = OptionsObject (DelayNumber d) /\ 0 < d).
Proof.
  pose proof (scheduleCallback_tasks fl P cb opts s) as Hts.
  pose proof (scheduleCallback_fst fl P cb opts s) as Hfst.
  pose proof (scheduleCallback_queues fl P cb opts s) as Hq.
  destruct (unstable_scheduleCallback fl P cb opts s) as [task s'].
  simpl in Hts, Hfst, Hq. subst task.
  eexists. split; [rewrite Hts; by apply list_lookup_middle|].
  split; [|split].
  - intros Hnd.
    assert (computeStartTime (getCurrentTime s) opts = getCurrentTime s) as Hst.
    { destruct Hnd as [->|[->|(d & -> & Hd)]]; simpl; try done.
      destruct (0 <? d) eqn:E; [lia|done]. }
    rewrite Hst in Hq |- *. rewrite Z.ltb_irrefl in Hq |- *.
    simpl. by destruct Hq.
  - intros d -> Hd. cbn [computeStartTime] in Hq |- *.
    destruct (0 <? d) eqn:E; [|lia]. cbn [startTime sortIndex expirationTime].
    split; [done|].
    destruct (getCurrentTime s <? numberAdd (getCurrentTime s) d) eqn:E'.
    + split; [intros _; by destruct Hq|]. lia.
    + split; [lia|]. intros _. by destruct Hq.
  - cbn [startTime]. intros Hlt. apply (computeStartTime_delayed (getCurrentTime s)).
    lia.
Qed.

Lemma scheduleCallback_ready_or_delayed_witness :
  (let '(task, s') :=
     unstable_scheduleCallback productionFlags NormalPriority VOther
       (OptionsObject (DelayNumber 7)) (initialState 100 105) in
   exists t, tasks s' !! task = Some t
     /\ startTime t = 107 /\ sortIndex t = 107
     /\ timerQueue s' ≡ₚ [task] /\ taskQueue s' = [])
  /\ (let '(task, s') :=
        unstable_scheduleCallback productionFlags NormalPriority VOther
          (OptionsObject (DelayNumber 0)) (initialState 100 105) in
      exists t, tasks s' !! task = Some t
        /\ startTime t = 100 /\ sortIndex t = 5100
        /\ taskQueue s' ≡ₚ [task] /\ timerQueue s' = [])
  /\ (let '(task, s') :=
        unstable_scheduleCallback productionFlags NormalPriority VOther
          (OptionsObject (DelayNumber 1)) (initialState (2 ^ 53) (2 ^ 53)) in
      exists t, tasks s' !! task = Some t
        /\ startTime t = 2 ^ 53 /\ sortIndex t = 2 ^ 53 + 5000
        /\ taskQueue s' ≡ₚ [task] /\ timerQueue s' = []).
Proof.
  split; [|split].
  - pose proof (scheduleCallback_ready_or_delayed productionFlags
                  NormalPriority VOther (OptionsObject (DelayNumber 7))
                  (initialState 100 105)) as H.
    destruct (unstable_scheduleCallback _ _ _ _ _) as [task s'].
    destruct H as (t & Ht & _ & Hd & _). exists t. split; [done|].
    destruct (Hd 7 eq_refl ltac:(lia)) as (H1 & Hlater & _).
    destruct Hlater as (H2 & H3 & H4); [by rewrite H1|].
    rewrite H2, H1. by repeat split.
  - pose proof (scheduleCallback_ready_or_delayed productionFlags
                  NormalPriority VOther (OptionsObject (DelayNumber 0))
                  (initialState 100 105)) as H.
    destruct (unstable_scheduleCallback _ _ _ _ _) as [task s'] eqn:E.
    destruct H as (t & Ht & Hr & _). exists t. split; [done|].
    destruct Hr as (H1 & H2 & H3 & H4).
    { right; right. exists 0. split; [done|lia]. }
    vm_compute in E. simplify_eq. vm_compute in Ht. simplify_eq.
    by repeat split.
  - pose proof (scheduleCallback_ready_or_delayed productionFlags
                  NormalPriority VOther (OptionsObject (DelayNumber 1))
                  (initialState (2 ^ 53) (2 ^ 53))) as H.
    destruct (unstable_scheduleCallback _ _ _ _ _) as [task s'] eqn:E.
    destruct H as (t & Ht & _ & Hd & _). exists t. split; [done|].
    destruct (Hd 1 eq_refl ltac:(lia)) as (H1 & _ & Hready).
    destruct Hready as (H2 & H3 & H4); [by rewrite H1|].
    vm_compute in E. simplify_eq. vm_compute in Ht. simplify_eq.
    by repeat split.
Defined.

(** C10 as the claim words it does not hold for every delay above zero: at
    the time [2^53] a delay of 1 is lost in the sum, the start time is the
    current time, and the task goes on the ready queue. *)
Lemma scheduleCallback_positive_delay_not_always_delayed :
  ~ (forall fl P cb d s,
       0 < d ->
       let '(task, s') :=
         unstable_scheduleCallback fl P cb (OptionsObject (DelayNumber d)) s in
       exists t, tasks s' !! task = Some t
         /\ sortIndex t = startTime t
         /\ timerQueue s' ≡ₚ task :: timerQueue s).
Proof.
  intros H.
  specialize (H productionFlags NormalPriority VOther 1
                (initialState (2 ^ 53) (2 ^ 53)) ltac:(lia)).
  vm_compute in H. destruct H as (t & _ & _ & Hperm).
  by apply Permutation_nil_cons in Hperm.
Qed.

(** ** Cancellation (claim C6) *)

Lemma popTaskQueue_Permutation s task :
  peek (taskQueue s) = Some task ->
  taskQueue s ≡ₚ task :: taskQueue (popTaskQueue s).
Proof. intros H. simpl. by apply pop_Permutation. Qed.

Lemma workLoop_loop_unfold fuel fl kind htr ct s task :
  currentTask s = Some task ->
  enableSchedulerDebugging fl && isSchedulerPaused s = false ->
  (ct <? expirationTime (taskAt (tasks s) task))
    && (negb htr || shouldYieldToHost kind (host s)) = false ->
  workLoop_loop (S fuel) fl kind htr ct s =
    match callback (taskAt (tasks s) task) with
    | VFunction run =>
      match invokeCallback fl ct task run s with
      | (false, s1) => Some (Raised, s1)
      | (true, s1) =>
        workLoop_loop fuel fl kind htr (getCurrentTime s1)
          (atQueueHead (advanceTimers fl (getCurrentTime s1) s1))
      end
    | _ =>
      workLoop_loop fuel fl kind htr ct (atQueueHead (popTaskQueue s))
    end.
Proof.
  intros Hcur Hpause Hyield. cbn [workLoop_loop].
  rewrite Hcur, Hpause, Hyield. done.
Qed.

(** C6.  [unstable_cancelCallback] clears the callback of the task it is
    given and removes nothing: both queues, every other task and every
    other part of the scheduler state are as before, and of the task only
    the callback changes (in a profiling build its [isQueued] mark is
    cleared with it).  On a task whose callback is already null, as it is
    once the task completed or was cancelled, the call changes nothing at
    all.  And when the work loop gets to a ready task whose callback is
    null, it pops that task and invokes no callback. *)
Theorem cancelCallback_spec fl task s :
  let s' := unstable_cancelCallback fl task s in
  (taskQueue s' = taskQueue s /\ timerQueue s' = timerQueue s
   /\ taskIdCounter s' = taskIdCounter s
   /\ isSchedulerPaused s' = isSchedulerPaused s
   /\ currentTask s' = currentTask s
   /\ currentPriorityLevel s' = currentPriorityLevel s
   /\ isPerformingWork s' = isPerformingWork s
   /\ isHostCallbackScheduled s' = isHostCallbackScheduled s
   /\ isHostTimeoutScheduled s' = isHostTimeoutScheduled s
   /\ host s' = host s
   /\ length (tasks s') = length (tasks s)
   /\ (forall a, a ≠ task -> tasks s' !! a = tasks s !! a)
   /\ (forall t, tasks s !! task = Some t ->
         tasks s' !! task =
           Some (mkTask (id t) VNull (priorityLevel t) (startTime t)
                   (expirationTime t) (sortIndex t)
                   (if enableProfiling fl then false else isQueued t))))
  /\ (forall t, tasks s !! task = Some t -> callback t = VNull ->
        (enableProfiling fl = true -> isQueued t = false) -> s' = s)
  /\ (forall kind htr ct fuel (s2 : State) (task2 : nat),
        peek (taskQueue s2) = Some task2 ->
        callback (taskAt (tasks s2) task2) = VNull ->
        enableSchedulerDebugging fl && isSchedulerPaused s2 = false ->
        (ct <? expirationTime (taskAt (tasks s2) task2))
          && (negb htr || shouldYieldToHost kind (host s2)) = false ->
        workLoop_loop (S fuel) fl kind htr ct (atQueueHead s2)
          = workLoop_loop fuel fl kind htr ct
              (atQueueHead (popTaskQueue s2))
        /\ taskQueue s2 ≡ₚ task2 :: taskQueue (popTaskQueue s2)
        /\ calls (host (popTaskQueue s2)) = calls (host s2)).
Proof.
  intros s'. subst s'. rewrite cancelCallback_unfold.
  split; [|split].
  - repeat (split; [done|]).
    split; [apply length_alter|].
    split.
    + intros a Hne. simpl. by rewrite list_lookup_alter_ne.
    + intros t Ht. simpl. rewrite list_lookup_alter_eq, Ht. done.
  - intros t Ht Hnull Hq.
    destruct s as [ts tq mq n p c l w hc ht h].
    unfold updateTask, with_tasks; simpl in *. f_equal.
    apply list_eq. intros a.
    destruct (decide (a = task)) as [->|Hne].
    + rewrite list_lookup_alter_eq, Ht. simpl. f_equal.
      destruct t as [i cb pl st et si q]; simpl in *. subst cb.
      destruct (enableProfiling fl); [by rewrite Hq|done].
    + by rewrite list_lookup_alter_ne.
  - intros kind htr ct fuel s2 task2 Hpeek Hnull Hpause Hyield.
    split; [|split].
    + rewrite (workLoop_loop_unfold fuel fl kind htr ct (atQueueHead s2) task2);
        try done.
      simpl. rewrite Hnull. done.
    + by apply popTaskQueue_Permutation.
    + done.
Qed.

Lemma cancelCallback_spec_witness :
  let fl := productionFlags in
  let s := (unstable_scheduleCallback fl NormalPriority
              (VFunction (fun _ => Behave [] (Return VNull))) OptionsAbsent
              (initialState 0 5)).2 in
  let s2 := unstable_cancelCallback fl 0%nat s in
  unstable_cancelCallback fl 0%nat s2 = s2
  /\ workLoop_loop 1 fl HostWithMessageChannel true 0 (atQueueHead s2)
     = workLoop_loop 0 fl HostWithMessageChannel true 0
         (atQueueHead (popTaskQueue s2))
  /\ taskQueue (popTaskQueue s2) = []
  /\ calls (host (popTaskQueue s2)) = [].
Proof.
  intros fl s s2.
  destruct (cancelCallback_spec fl 0%nat s2) as (_ & Hnoop & Hloop).
  split.
  - eapply Hnoop; [reflexivity|reflexivity|discriminate].
  - destruct (Hloop HostWithMessageChannel true 0 0%nat s2 0%nat)
      as (H1 & H2 & H3); try reflexivity.
    split; [exact H1|]. split; reflexivity.
Defined.

(** ** What a running callback can and cannot change *)

Lemma runOp_calls fl s op : calls (host (runOp fl s op)) = calls (host s).
Proof.
  destruct op as [P cb opts|task|dt]; cbn [runOp].
  - apply scheduleCallback_calls.
  - by rewrite cancelCallback_unfold.
  - done.
Qed.

Lemma runOps_cons fl op ops s :
  runOps fl (op :: ops) s = runOps fl ops (runOp fl s op).
Proof. done. Qed.

Lemma runOps_calls fl ops s : calls (host (runOps fl ops s)) = calls (host s).
Proof.
  revert s. induction ops as [|op ops IH]; intros s; [done|].
  by rewrite runOps_cons, IH, runOp_calls.
Qed.

Lemma runOp_taskQueue fl s op : taskQueue s ⊆+ taskQueue (runOp fl s op).
Proof.
  destruct op as [P cb opts|task|dt]; cbn [runOp].
  - pose proof (scheduleCallback_queues fl P cb opts s) as H. simpl in H.
    destruct (_ <? _); destruct H as [H1 H2].
    + by rewrite H1.
    + rewrite H2. by apply submseteq_cons.
  - by rewrite cancelCallback_unfold.
  - done.
Qed.

Lemma runOps_taskQueue fl ops s : taskQueue s ⊆+ taskQueue (runOps fl ops s).
Proof.
  revert s. induction ops as [|op ops IH]; intros s; [done|].
  rewrite runOps_cons. etrans; [apply (runOp_taskQueue fl s op)|apply IH].
Qed.

Lemma runOps_taskQueue_eq fl ops s :
  forallb (fun op => negb (isSchedule op)) ops = true ->
  taskQueue (runOps fl ops s) = taskQueue s.
Proof.
  revert s. induction ops as [|op ops IH]; intros s Hops; [done|].
  simpl in Hops. apply andb_prop in Hops as [Hop Hops].
  rewrite runOps_cons, IH by done.
  destruct op as [P cb opts|task|dt]; [done| |done].
  cbn [runOp]. by rewrite cancelCallback_unfold.
Qed.

Lemma frozen_set_callback v t : frozen (set_callback v t) = frozen t.
Proof. done. Qed.
Lemma frozen_set_isQueued b t : frozen (set_isQueued b t) = frozen t.
Proof. done. Qed.

Lemma taskAt_alter_frozen (f : Task -> Task) ts a b :
  (forall t, frozen (f t) = frozen t) ->
  frozen (taskAt (alter f a ts) b) = frozen (taskAt ts b).
Proof.
  intros Hf. unfold taskAt.
  destruct (decide (a = b)) as [->|Hne].
  - rewrite list_lookup_alter_eq. destruct (ts !! b); simpl; [apply Hf|done].
  - by rewrite list_lookup_alter_ne.
Qed.

Lemma runOp_frozen fl s op a :
  (a < length (tasks s))%nat ->
  (a < length (tasks (runOp fl s op)))%nat
  /\ frozen (taskAt (tasks (runOp fl s op)) a) = frozen (taskAt (tasks s) a)
  /\ (callback (taskAt (tasks s) a) = VNull ->
      callback (taskAt (tasks (runOp fl s op)) a) = VNull).
Proof.
  intros Hlt. destruct op as [P cb opts|task|dt]; cbn [runOp].
  - rewrite scheduleCallback_tasks. rewrite length_app.
    rewrite taskAt_app_l by done. split; [lia|done].
  - rewrite cancelCallback_unfold. simpl. rewrite length_alter.
    split; [done|]. split; [by apply taskAt_alter_frozen|].
    unfold taskAt. destruct (decide (task = a)) as [->|Hne].
    + rewrite list_lookup_alter_eq. by destruct (tasks s !! a).
    + by rewrite list_lookup_alter_ne.
  - done.
Qed.

Lemma runOps_frozen fl ops s a :
  (a < length (tasks s))%nat ->
  (a < length (tasks (runOps fl ops s)))%nat
  /\ frozen (taskAt (tasks (runOps fl ops s)) a) = frozen (taskAt (tasks s) a)
  /\ (callback (taskAt (tasks s) a) = VNull ->
      callback (taskAt (tasks (runOps fl ops s)) a) = VNull).
Proof.
  revert s. induction ops as [|op ops IH]; intros s Hlt; [done|].
  destruct (runOp_frozen fl s op a Hlt) as (H1 & H2 & H3).
  destruct (IH (runOp fl s op) H1) as (H4 & H5 & H6).
  rewrite runOps_cons. split; [done|]. split; [congruence|auto].
Qed.

Lemma beginCallback_fst ct task s :
  (beginCallback ct task s).1
  = (expirationTime (taskAt (tasks s) task) <=? ct).
Proof.
  unfold beginCallback. cbn [fst]. simpl.
  pose proof (taskAt_alter_frozen (set_callback VNull) (tasks s) task task
                (frozen_set_callback VNull)) as H.
  unfold frozen in H. injection H as _ _ _ He _. by rewrite He.
Qed.

Lemma beginCallback_snd ct task s :
  let s1 := (beginCallback ct task s).2 in
  tasks s1 = alter (set_callback VNull) task (tasks s)
  /\ taskQueue s1 = taskQueue s
  /\ timerQueue s1 = timerQueue s
  /\ calls (host s1)
     = calls (host s) ++ [(task, expirationTime (taskAt (tasks s) task) <=? ct)].
Proof.
  pose proof (beginCallback_fst ct task s) as H.
  unfold beginCallback in *. cbn [fst snd] in *. simpl in *.
  by rewrite H.
Qed.

Lemma settleCallback_calls fl task v s :
  calls (host (settleCallback fl task v s)) = calls (host s).
Proof.
  unfold settleCallback.
  destruct v; destruct (enableProfiling fl); repeat case_decide; done.
Qed.

Lemma invokeCallback_calls fl ct task run s :
  calls (host (invokeCallback fl ct task run s).2)
  = calls (host s) ++ [(task, expirationTime (taskAt (tasks s) task) <=? ct)].
Proof.
  unfold invokeCallback.
  pose proof (beginCallback_snd ct task s) as (_ & _ & _ & Hc).
  destruct (beginCallback ct task s) as [b s1]. cbn [snd] in Hc.
  destruct (run b) as [ops [v|]]; cbn [snd].
  - by rewrite settleCallback_calls, runOps_calls.
  - by rewrite runOps_calls.
Qed.

Lemma advanceTimers_step_host fl ct s s' :
  advanceTimers_step fl ct s = Some s' -> host s' = host s.
Proof.
  unfold advanceTimers_step. intros H.
  destruct (enableProfiling fl); repeat case_match; by simplify_eq.
Qed.

Lemma advanceTimers_host fl ct s : host (advanceTimers fl ct s) = host s.
Proof.
  unfold advanceTimers. generalize (S (length (timerQueue s))) as fuel.
  intros fuel. revert s. induction fuel as [|fuel IH]; intros s; [done|].
  simpl. destruct (advanceTimers_step fl ct s) as [s'|] eqn:Hstep; [|done].
  rewrite IH. by eapply advanceTimers_step_host.
Qed.

Lemma advanceTimers_step_timerQueue fl ct s s' :
  advanceTimers_step fl ct s = Some s' ->
  (length (timerQueue s') < length (timerQueue s))%nat.
Proof.
  unfold advanceTimers_step. intros H.
  destruct (peek (timerQueue s)) as [timer|] eqn:Hpeek; [|done].
  assert (length (timerQueue (popTimerQueue s)) < length (timerQueue s))%nat
    as Hpop.
  { simpl. rewrite pop_length.
    destruct (timerQueue s); [done|simpl; lia]. }
  destruct (enableProfiling fl); repeat case_match; by simplify_eq.
Qed.

(** The fuel [advanceTimers] gives its loop is enough: the loop stops
    because its condition fails, not because the fuel ran out. *)
Lemma advanceTimers_complete fl ct s :
  advanceTimers_step fl ct (advanceTimers fl ct s) = None.
Proof.
  unfold advanceTimers.
  assert (forall fuel s, (length (timerQueue s) < fuel)%nat ->
            advanceTimers_step fl ct (advanceTimers_loop fuel fl ct s) = None)
    as Hgen.
  { clear s. intros fuel. induction fuel as [|fuel IH]; intros s Hlt; [lia|].
    simpl. destruct (advanceTimers_step fl ct s) as [s'|] eqn:Hstep; [|done].
    apply IH. apply advanceTimers_step_timerQueue in Hstep. lia. }
  apply Hgen. lia.
Qed.

Lemma workLoop_finish_calls ct s :
  calls (host (workLoop_finish ct s).2) = calls (host s).
Proof. unfold workLoop_finish. by repeat case_match. Qed.

Lemma workLoop_finish_prefix ct s r s' :
  Some (workLoop_finish ct s) = Some (r, s') ->
  calls (host s) `prefix_of` calls (host s').
Proof.
  intros H. injection H as H.
  pose proof (workLoop_finish_calls ct s) as Hf.
  rewrite H in Hf. simpl in Hf. by rewrite Hf.
Qed.

(** Across the whole loop the record of calls only grows. *)
Lemma workLoop_loop_calls fuel fl kind htr ct s r s' :
  workLoop_loop fuel fl kind htr ct s = Some (r, s') ->
  calls (host s) `prefix_of` calls (host s').
Proof.
  revert ct s.
  induction fuel as [|fuel IH]; intros ct s Hloop.
  - simpl in Hloop.
    repeat case_match; try discriminate; by eapply workLoop_finish_prefix.
  - cbn [workLoop_loop] in Hloop.
    destruct (currentTask s) as [task|];
      [|by eapply workLoop_finish_prefix].
    destruct (_ && isSchedulerPaused s);
      [by eapply workLoop_finish_prefix|].
    destruct (_ && (_ || _));
      [by eapply workLoop_finish_prefix|].
    destruct (callback (taskAt (tasks s) task)) as [| |run] eqn:Hcb.
    1,2: apply IH in Hloop; by simpl in Hloop.
    pose proof (invokeCallback_calls fl ct task run s) as Hc.
    destruct (invokeCallback fl ct task run s) as [[|] s1]; cbn [snd] in Hc.
    + apply IH in Hloop. simpl in Hloop.
      rewrite advanceTimers_host in Hloop.
      etrans; [|exact Hloop]. rewrite Hc. by apply prefix_app_r.
    + simplify_eq. rewrite Hc. by apply prefix_app_r.
Qed.

(** ** Expired tasks run, unexpired ones give way (claim C3) *)

(** C3.  Whatever the ready queue holds, if the task at its root has a
    callback and has expired ([expirationTime <= currentTime]), the work
    loop invokes that callback (with [true]), whether or not
    [hasTimeRemaining] holds and whatever [shouldYieldToHost()] answers;
    and if the task at the root has not expired while [hasTimeRemaining]
    is false or [shouldYieldToHost()] answers true, the loop stops there:
    it reports that work remains and leaves the state, and so the record
    of calls, as it found it. *)
Theorem workLoop_expired_runs_unexpired_yields fl kind htr ct fuel s task :
  peek (taskQueue s) = Some task ->
  (forall run,
     callback (taskAt (tasks s) task) = VFunction run ->
     enableSchedulerDebugging fl && isSchedulerPaused s = false ->
     expirationTime (taskAt (tasks s) task) <= ct ->
     exists ok s1,
       invokeCallback fl ct task run (atQueueHead s) = (ok, s1)
       /\ calls (host s1) = calls (host s) ++ [(task, true)]
       /\ workLoop_loop (S fuel) fl kind htr ct (atQueueHead s)
          = (if ok
             then workLoop_loop fuel fl kind htr (getCurrentTime s1)
                    (atQueueHead (advanceTimers fl (getCurrentTime s1) s1))
             else Some (Raised, s1))
       /\ (forall r s',
             workLoop_loop (S fuel) fl kind htr ct (atQueueHead s)
               = Some (r, s') ->
             (calls (host s) ++ [(task, true)]) `prefix_of` calls (host s')))
  /\ (ct < expirationTime (taskAt (tasks s) task) ->
      htr = false \/ shouldYieldToHost kind (host s) = true ->
      workLoop_loop fuel fl kind htr ct (atQueueHead s)
        = Some (Finished true, atQueueHead s)).
Proof.
  intros Hpeek. split.
  - intros run Hcb Hpause Hexp.
    pose proof (invokeCallback_calls fl ct task run (atQueueHead s)) as Hc.
    simpl in Hc.
    assert ((expirationTime (taskAt (tasks s) task) <=? ct) = true) as Hb
      by lia.
    rewrite Hb in Hc.
    assert (workLoop_loop (S fuel) fl kind htr ct (atQueueHead s)
            = match invokeCallback fl ct task run (atQueueHead s) with
              | (false, s1) => Some (Raised, s1)
              | (true, s1) =>
                workLoop_loop fuel fl kind htr (getCurrentTime s1)
                  (atQueueHead (advanceTimers fl (getCurrentTime s1) s1))
              end) as Hstep.
    { rewrite (workLoop_loop_unfold fuel fl kind htr ct (atQueueHead s) task);
        simpl; try done.
      - by rewrite Hcb.
      - assert ((ct <? expirationTime (taskAt (tasks s) task)) = false) as ->
          by lia. done. }
    destruct (invokeCallback fl ct task run (atQueueHead s)) as [ok s1].
    exists ok, s1. cbn [snd] in Hc.
    split; [done|]. split; [done|].
    split; [by destruct ok|].
    intros r s' Hloop. rewrite Hstep in Hloop. rewrite <-Hc.
    destruct ok.
    + apply workLoop_loop_calls in Hloop. simpl in Hloop.
      by rewrite advanceTimers_host in Hloop.
    + by simplify_eq.
  - intros Hexp Hyield.
    assert ((ct <? expirationTime (taskAt (tasks s) task))
            && (negb htr || shouldYieldToHost kind (host s)) = true) as Hy.
    { assert ((ct <? expirationTime (taskAt (tasks s) task)) = true) as ->
        by lia.
      destruct Hyield as [->| ->]; [done|]. by rewrite orb_true_r. }
    destruct fuel; simpl; rewrite Hpeek; simpl; rewrite Hy;
      destruct (_ && isSchedulerPaused s);
      unfold workLoop_finish; simpl; by rewrite Hpeek.
Qed.

Lemma workLoop_expired_runs_unexpired_yields_witness :
  (* time 6000: the Normal task (expiring at 5000) has expired and the
     host wants the thread back *)
  (exists s1,
     workLoop_loop 1 productionFlags HostWithMessageChannel false 6000
       (oneReadyTask completesAtOnce) = Some (Finished false, s1)
     /\ calls (host s1) = [(0%nat, true)])
  (* time 10: not expired, no time remaining *)
  /\ workLoop_loop 0 productionFlags HostWithMessageChannel false 10
       (oneReadyTask completesAtOnce)
     = Some (Finished true, oneReadyTask completesAtOnce).
Proof.
  destruct (workLoop_expired_runs_unexpired_yields productionFlags
              HostWithMessageChannel false 6000 0
              (oneReadyTask completesAtOnce) 0%nat eq_refl) as [Hrun _].
  destruct (workLoop_expired_runs_unexpired_yields productionFlags
              HostWithMessageChannel false 10 0
              (oneReadyTask completesAtOnce) 0%nat eq_refl) as [_ Hstop].
  split.
  - destruct (Hrun _ eq_refl eq_refl) as (ok & s1 & Hinv & Hcalls & Hloop & _).
    { vm_compute. discriminate. }
    vm_compute in Hinv. simplify_eq.
    eexists. split; [exact Hloop|exact Hcalls].
  - apply Hstop; [vm_compute; reflexivity|by left].
Defined.

(** ** Continuations and completion (claim C4) *)

Lemma settleCallback_tasks_frame fl task v s a :
  frozen (taskAt (tasks (settleCallback fl task v s)) a)
  = frozen (taskAt (tasks s) a).
Proof.
  unfold settleCallback.
  destruct v; destruct (enableProfiling fl); repeat case_decide; simpl;
    try done; by rewrite ?taskAt_alter_frozen.
Qed.

(** C4, as the code has it.  The work loop invokes the callback of the
    current task with the boolean [expirationTime <= currentTime].  If the
    call returns a function, that function becomes the task's callback,
    nothing leaves the ready queue and the task's [sortIndex] and
    [expirationTime] are as before.  If it returns anything else, the task
    is popped when it is still the root of the ready queue at that point,
    which it is whenever it was the root before and the callback scheduled
    nothing; when the call has put a task before it, the task stays in
    the queue, its callback null. *)
Theorem invokeCallback_spec fl ct s task t run ops v :
  tasks s !! task = Some t ->
  run (expirationTime t <=? ct) = Behave ops (Return v) ->
  let s1 := runOps fl ops (beginCallback ct task s).2 in
  let s' := (invokeCallback fl ct task run s).2 in
  calls (host s') = calls (host s) ++ [(task, expirationTime t <=? ct)]
  /\ (forall g, v = VFunction g ->
        callback (taskAt (tasks s') task) = VFunction g
        /\ frozen (taskAt (tasks s') task) = frozen t
        /\ taskQueue s ⊆+ taskQueue s')
  /\ (isFunction v = false ->
        callback (taskAt (tasks s') task) = VNull
        /\ (peek (taskQueue s1) = Some task ->
              taskQueue s1 ≡ₚ task :: taskQueue s'
              /\ (NoDup (taskQueue s1) -> task ∉ taskQueue s'))
        /\ (peek (taskQueue s1) <> Some task -> taskQueue s' = taskQueue s1)
        /\ (peek (taskQueue s) = Some task ->
            forallb (fun op => negb (isSchedule op)) ops = true ->
            taskQueue s ≡ₚ task :: taskQueue s')).
Proof.
  intros Ht Hrun s1 s'.
  assert (task < length (tasks s))%nat as Hlt by (by eapply lookup_lt_Some).
  pose proof (taskAt_lookup _ _ _ Ht) as Hat.
  pose proof (invokeCallback_calls fl ct task run s) as Hcalls.
  rewrite Hat in Hcalls.
  pose proof (beginCallback_fst ct task s) as Hb. rewrite Hat in Hb.
  pose proof (beginCallback_snd ct task s) as (Hbt & Hbq & _ & _).
  assert (s' = settleCallback fl task v s1) as Hs'.
  { subst s' s1. unfold invokeCallback.
    destruct (beginCallback ct task s) as [b s0]. cbn [fst snd] in *.
    subst b. by rewrite Hrun. }
  assert (task < length (tasks (beginCallback ct task s).2))%nat as Hlt0
    by (by rewrite Hbt, length_alter).
  destruct (runOps_frozen fl ops _ task Hlt0) as (Hlt1 & Hfr1 & Hnull1).
  fold s1 in Hlt1, Hfr1, Hnull1.
  rewrite Hbt in Hfr1, Hnull1.
  rewrite taskAt_alter_frozen in Hfr1 by done.
  rewrite taskAt_alter_eq in Hnull1 by done.
  specialize (Hnull1 eq_refl). rewrite Hat in Hfr1.
  split; [done|]. split.
  - intros g ->. rewrite Hs'. simpl.
    split; [by rewrite taskAt_alter_eq|].
    split; [by rewrite taskAt_alter_frozen|].
    rewrite <-Hbq. apply runOps_taskQueue.
  - intros Hnf.
    set (s2 := if enableProfiling fl
               then updateTask task (set_isQueued false) s1 else s1).
    assert (taskQueue s2 = taskQueue s1) as Hq2
      by (subst s2; by destruct (enableProfiling fl)).
    assert (callback (taskAt (tasks s2) task) = VNull) as Hcb2.
    { subst s2. destruct (enableProfiling fl); [|done]. simpl.
      rewrite taskAt_alter_eq by done. done. }
    assert (s' = if decide (peek (taskQueue s2) = Some task)
                 then popTaskQueue s2 else s2) as Hs2.
    { rewrite Hs'. unfold settleCallback. by destruct v. }
    assert (peek (taskQueue s1) = Some task ->
            taskQueue s1 ≡ₚ task :: taskQueue s') as Hpop.
    { intros Hpeek. rewrite Hs2, decide_True by (by rewrite Hq2).
      rewrite <-Hq2. apply popTaskQueue_Permutation. by rewrite Hq2. }
    split; [|split; [|split]].
    + rewrite Hs2. by destruct (decide _).
    + intros Hpeek. split; [by apply Hpop|].
      intros Hnd Hin. rewrite (Hpop Hpeek) in Hnd.
      by apply NoDup_cons in Hnd as [? _].
    + intros Hpeek. rewrite Hs2, decide_False by (by rewrite Hq2). done.
    + intros Hpeek Hops.
      assert (taskQueue s1 = taskQueue s) as Hq1.
      { subst s1. by rewrite runOps_taskQueue_eq, Hbq. }
      rewrite <-Hq1. apply Hpop. by rewrite Hq1.
Qed.

Lemma invokeCallback_spec_witness :
  let s := oneReadyTask completesAtOnce in
  let s' := (invokeCallback productionFlags 0 0%nat
               (fun _ => Behave [] (Return VNull)) s).2 in
  calls (host s') = [(0%nat, false)]
  /\ callback (taskAt (tasks s') 0%nat) = VNull
  /\ taskQueue s ≡ₚ [0%nat]
  /\ taskQueue s' = [].
Proof.
  intros s s'.
  destruct (invokeCallback_spec productionFlags 0 s 0%nat
              (taskAt (tasks s) 0%nat) (fun _ => Behave [] (Return VNull))
              [] VNull eq_refl eq_refl) as (Hcalls & _ & Hdone).
  destruct (Hdone eq_refl) as (Hnull & _ & _ & Hpop).
  split; [exact Hcalls|]. split; [exact Hnull|].
  split; reflexivity.
Defined.

(** C4 as the claim words it does not hold: a callback that schedules a
    more urgent task and then returns a non-function leaves its own task
    in the ready queue. *)
Lemma invokeCallback_nonfunction_not_always_popped :
  ~ (forall fl ct s task t run ops v,
       peek (taskQueue s) = Some task ->
       currentTask s = Some task ->
       NoDup (taskQueue s) ->
       tasks s !! task = Some t ->
       callback t = VFunction run ->
       run (expirationTime t <=? ct) = Behave ops (Return v) ->
       isFunction v = false ->
       task ∉ taskQueue (invokeCallback fl ct task run s).2).
Proof.
  intros H.
  set (s := oneReadyTask schedulesUrgentWork).
  assert (0%nat ∉ taskQueue
            (invokeCallback productionFlags 0 0%nat
               (fun _ => Behave
                  [OpSchedule ImmediatePriority completesAtOnce OptionsAbsent]
                  (Return VNull)) s).2) as Hout.
  { eapply (H productionFlags 0 s 0%nat (taskAt (tasks s) 0%nat));
      try reflexivity.
    vm_compute. apply NoDup_singleton. }
  apply Hout. vm_compute. apply list_elem_of_In. right. by left.
Qed.

(** ** A run of the work loop *)

(** Three tasks scheduled at time 0, of Low, Normal and Immediate
    priority in that order, run to completion in the order of their
    expiration times; only the Immediate one is told it timed out. *)
Example workLoop_runs_by_expiration :
  let s := runOps productionFlags
             [OpSchedule LowPriority completesAtOnce OptionsAbsent;
              OpSchedule NormalPriority completesAtOnce OptionsAbsent;
              OpSchedule ImmediatePriority completesAtOnce OptionsAbsent]
             (initialState 0 5) in
  exists s',
    workLoop 3 productionFlags HostWithMessageChannel true 0 s
    = Some (Finished false, s')
    /\ calls (host s') = [(2%nat, true); (1%nat, false); (0%nat, false)]
    /\ taskQueue s' = [].
Proof. eexists. split; [vm_compute; reflexivity|]. by split. Qed.

(** A delayed task is not run before its start time, and is moved to the
    ready queue once that time has come. *)
Example workLoop_delayed_task :
  let s := (unstable_scheduleCallback productionFlags NormalPriority
              completesAtOnce (OptionsObject (DelayNumber 10))
              (initialState 0 5)).2 in
  (exists s',
     workLoop 3 productionFlags HostWithMessageChannel true 9 s
     = Some (Finished false, s')
     /\ calls (host s') = [] /\ timerQueue s' = [0%nat]
     /\ hostTimeout (host s') = Some 1)
  /\ (exists s',
        workLoop 3 productionFlags HostWithMessageChannel true 10 s
        = Some (Finished false, s')
        /\ calls (host s') = [(0%nat, false)] /\ timerQueue s' = []).
Proof.
  split; eexists; (split; [vm_compute; reflexivity|]); by repeat split.
Qed.
End SchedulerFacts.

(* ===================================================================== *)
(** * Part IV: the child reconciler, properties *)
(* ===================================================================== *)

Module ChildFiberFacts.
Import ChildFiber.

Local Open Scope nat_scope.

(** ** Reading the store after a write *)

Lemma fiberAt_lookup (st : Store) a f : st !! a = Some f -> fiberAt st a = f.
Proof. intros H. unfold fiberAt. by rewrite H. Qed.

Lemma fiberAt_alter_ne (g : Fiber -> Fiber) (st : Store) a b :
  a ≠ b -> fiberAt (alter g a st) b = fiberAt st b.
Proof. intros. unfold fiberAt. by rewrite list_lookup_alter_ne. Qed.

Lemma fiberAt_alter_eq (g : Fiber -> Fiber) (st : Store) a :
  a < length st -> fiberAt (alter g a st) a = g (fiberAt st a).
Proof.
  intros Hlt. unfold fiberAt. rewrite list_lookup_alter_eq.
  destruct (lookup_lt_is_Some_2 st a Hlt) as [f ->]. done.
Qed.

Lemma fiberAt_app_l (st st' : Store) a :
  a < length st -> fiberAt (st ++ st') a = fiberAt st a.
Proof. intros. unfold fiberAt. by rewrite lookup_app_l. Qed.

Lemma fiberAt_snoc (st : Store) f : fiberAt (st ++ [f]) (length st) = f.
Proof. unfold fiberAt. by rewrite list_lookup_middle. Qed.

Lemma store_alter_snoc (g : Fiber -> Fiber) (st : Store) f :
  alter g (length st) (st ++ [f]) = st ++ [g f].
Proof.
  replace (length st) with (length st + 0) by lia.
  by rewrite alter_app_r.
Qed.

Lemma alter_app_lt (g : Fiber -> Fiber) (st st' : Store) a :
  a < length st -> alter g a (st ++ st') = alter g a st ++ st'.
Proof. intros. by apply alter_app_l. Qed.

(** ** Movement detection (claim C1) *)

Lemma placeChild_run (st : Store) newFiber f lastPlacedIndex newIndex :
  st !! newFiber = Some f ->
  placeChild true newFiber lastPlacedIndex newIndex st =
    let st1 := alter (set_index newIndex) newFiber st in
    match alternate f with
    | Some current =>
      if index (fiberAt st1 current) <? lastPlacedIndex
      then Ok lastPlacedIndex (alter (set_flags Placement) newFiber st1)
      else Ok (index (fiberAt st1 current)) st1
    | None => Ok lastPlacedIndex (alter (set_flags Placement) newFiber st1)
    end.
Proof.
  intros Hf.
  assert (newFiber < length st) as Hlt by (by eapply lookup_lt_Some).
  unfold placeChild, bind, update, get, ret. simpl.
  rewrite fiberAt_alter_eq by done. rewrite (fiberAt_lookup _ _ _ Hf). simpl.
  destruct (alternate f) as [current|]; [|done].
  by destruct (_ <? _).
Qed.

(** C1.  In the mode that tracks side effects, [placeChild(newFiber,
    lastPlacedIndex, newIndex)] sets [newFiber.index] to [newIndex] and
    touches no other fiber; when [newFiber] has an alternate whose index is
    below [lastPlacedIndex] it flags [newFiber] with Placement and returns
    [lastPlacedIndex]; when the alternate's index is at least
    [lastPlacedIndex] it leaves the flags as they are and returns that
    index; without an alternate it flags [newFiber] with Placement and
    returns [lastPlacedIndex]. *)
Theorem placeChild_spec (st : Store) newFiber f lastPlacedIndex newIndex :
  st !! newFiber = Some f ->
  exists r st',
    placeChild true newFiber lastPlacedIndex newIndex st = Ok r st'
    /\ index (fiberAt st' newFiber) = newIndex
    /\ (forall a, a ≠ newFiber -> st' !! a = st !! a)
    /\ match alternate f with
       | Some current =>
         current ≠ newFiber ->
         let oldIndex := index (fiberAt st current) in
         if oldIndex <? lastPlacedIndex
         then flags (fiberAt st' newFiber) = Placement
              /\ hasFlag (flags (fiberAt st' newFiber)) Placement = true
              /\ r = lastPlacedIndex
         else flags (fiberAt st' newFiber) = flags f
              /\ r = oldIndex
       | None =>
         flags (fiberAt st' newFiber) = Placement
         /\ hasFlag (flags (fiberAt st' newFiber)) Placement = true
         /\ r = lastPlacedIndex
       end.
Proof.
  intros Hf.
  assert (newFiber < length st) as Hlt by (by eapply lookup_lt_Some).
  rewrite (placeChild_run st newFiber f lastPlacedIndex newIndex Hf).
  cbv zeta.
  set (st1 := alter (set_index newIndex) newFiber st).
  assert (length st1 = length st) as Hlen by apply length_alter.
  assert (fiberAt st1 newFiber = set_index newIndex f) as Hat1.
  { subst st1. rewrite fiberAt_alter_eq by done.
    by rewrite (fiberAt_lookup _ _ _ Hf). }
  assert (forall a, a ≠ newFiber -> st1 !! a = st !! a) as Hframe1.
  { intros a Ha. subst st1. by rewrite list_lookup_alter_ne. }
  assert (forall a, a ≠ newFiber ->
            alter (set_flags Placement) newFiber st1 !! a = st !! a) as Hframe2.
  { intros a Ha. rewrite list_lookup_alter_ne by done. by apply Hframe1. }
  assert (fiberAt (alter (set_flags Placement) newFiber st1) newFiber
          = set_flags Placement (set_index newIndex f)) as Hat2.
  { rewrite fiberAt_alter_eq by lia. by rewrite Hat1. }
  destruct (alternate f) as [current|] eqn:Halt.
  - destruct (index (fiberAt st1 current) <? lastPlacedIndex) eqn:Hcmp.
    + eexists _, _. split; [reflexivity|].
      rewrite Hat2. split; [done|]. split; [done|].
      intros Hne. simpl.
      replace (fiberAt st current) with (fiberAt st1 current)
        by (subst st1; by apply fiberAt_alter_ne).
      by rewrite Hcmp.
    + eexists _, _. split; [reflexivity|].
      rewrite Hat1. split; [done|]. split; [done|].
      intros Hne. simpl.
      replace (fiberAt st current) with (fiberAt st1 current)
        by (subst st1; by apply fiberAt_alter_ne).
      by rewrite Hcmp.
  - eexists _, _. split; [reflexivity|].
    rewrite Hat2. done.
Qed.


Lemma placeChild_spec_witness :
  exists st',
    placeChild true 4 2 1 committedABC_cloneOfA = Ok 2 st'
    /\ index (fiberAt st' 4) = 1
    /\ flags (fiberAt st' 4) = Placement.
Proof.
  destruct (placeChild_spec committedABC_cloneOfA 4
              (fiberAt committedABC_cloneOfA 4) 2 1 eq_refl)
    as (r & st' & Hrun & Hidx & _ & Hflags).
  simpl in Hflags. destruct (Hflags ltac:(lia)) as (Hfl & _ & ->).
  by exists st'.
Defined.

(** ** Chains of links *)

Section Linked.

Variable next : Fiber -> option nat.

Lemma linked_lookup (st : Store) first l :
  linked next st first l ->
  first = head l
  /\ forall i a, l !! i = Some a ->
       exists f, st !! a = Some f /\ next f = l !! S i.
Proof.
  induction 1 as [|a f l Hf Hl [IHhead IH]]; [done|].
  split; [done|]. intros [|i] b Hb; simplify_eq/=.
  - exists f. split; [done|]. rewrite IHhead. by destruct l.
  - by apply IH.
Qed.

Lemma linked_intro (st : Store) first l :
  first = head l ->
  (forall i a, l !! i = Some a ->
     exists f, st !! a = Some f /\ next f = l !! S i) ->
  linked next st first l.
Proof.
  revert first. induction l as [|a l IH]; intros first -> Hl.
  - constructor.
  - destruct (Hl 0 a eq_refl) as (f & Hf & Hnext).
    econstructor; [done|]. apply IH.
    + rewrite Hnext. by destruct l.
    + intros i b Hb. by apply (Hl (S i)).
Qed.

Lemma linked_ext (st st' : Store) first l :
  linked next st first l ->
  (forall a, a ∈ l -> next <$> st' !! a = next <$> st !! a) ->
  linked next st' first l.
Proof.
  induction 1 as [|a f l Hf Hl IH]; intros Hsame; [constructor|].
  pose proof (Hsame a ltac:(left)) as Ha. rewrite Hf in Ha. simpl in Ha.
  destruct (st' !! a) as [f'|] eqn:Hf'; [|done].
  simpl in Ha. injection Ha as Ha.
  econstructor; [done|]. rewrite Ha. apply IH.
  intros b Hb. apply Hsame. by right.
Qed.

Lemma linked_allocated (st : Store) first l a :
  linked next st first l -> a ∈ l -> a < length st.
Proof.
  intros Hl [i Hi]%list_elem_of_lookup.
  destruct (linked_lookup _ _ _ Hl) as [_ H].
  destruct (H i a Hi) as (f & Hf & _). by eapply lookup_lt_Some.
Qed.

Lemma linked_functional (st : Store) first l1 l2 :
  linked next st first l1 -> linked next st first l2 -> l1 = l2.
Proof.
  intros H1. revert l2.
  induction H1 as [|a f l Hf Hl IH]; intros l2 H2; inversion H2; subst;
    [done|].
  simplify_eq. f_equal. by apply IH.
Qed.

Lemma linked_suffix (st : Store) first l1 a l2 :
  linked next st first (l1 ++ a :: l2) -> linked next st (Some a) (a :: l2).
Proof.
  revert first. induction l1 as [|b l1 IH]; intros first Hl; simpl in Hl.
  - by inversion Hl; subst.
  - inversion Hl; subst. by eapply IH.
Qed.

Lemma linked_NoDup (st : Store) first l :
  linked next st first l -> NoDup l.
Proof.
  induction 1 as [|a f l Hf Hl IH]; [constructor|].
  constructor; [|done]. intros Hin.
  apply list_elem_of_split in Hin as (l1 & l2 & ->).
  pose proof (linked_suffix _ _ _ _ _ Hl) as Hsuf.
  inversion Hsuf as [|a' f' l' Hf' Hl2]; subst. simplify_eq.
  pose proof (linked_functional _ _ _ _ Hl Hl2) as Heq.
  apply (f_equal length) in Heq. rewrite length_app in Heq. simpl in Heq. lia.
Qed.

Lemma linked_length (st : Store) first l :
  linked next st first l -> length l <= length st.
Proof.
  intros Hl.
  assert (l ⊆+ seq 0 (length st)) as Hsub.
  { apply NoDup_submseteq; [by eapply linked_NoDup|].
    intros a Ha. apply elem_of_seq.
    pose proof (linked_allocated _ _ _ _ Hl Ha). lia. }
  apply submseteq_length in Hsub. by rewrite length_seq in Hsub.
Qed.

End Linked.

(** ** Deletions and the side-effect list (claim C8) *)

Lemma deleteChild_run (st : Store) returnFiber childToDelete :
  deleteChild true returnFiber childToDelete st =
    Ok tt
      (alter (set_flags Deletion) childToDelete
         (alter (set_nextEffect None) childToDelete
            match lastEffect (fiberAt st returnFiber) with
            | Some last =>
              alter (set_lastEffect (Some childToDelete)) returnFiber
                (alter (set_nextEffect (Some childToDelete)) last st)
            | None =>
              alter (set_firstEffect (Some childToDelete)) returnFiber
                (alter (set_lastEffect (Some childToDelete)) returnFiber st)
            end)).
Proof.
  unfold deleteChild, bind, update, get, ret. simpl.
  by destruct (lastEffect (fiberAt st returnFiber)).
Qed.

(** One deletion, seen from any allocated fiber [a]. *)
Lemma deleteChild_lookup (st st' : Store) returnFiber childToDelete a f :
  deleteChild true returnFiber childToDelete st = Ok tt st' ->
  st !! a = Some f ->
  exists f',
    st' !! a = Some f'
    /\ identityOf f' = identityOf f
    /\ nextEffect f' =
         (if decide (a = childToDelete) then None
          else if decide (lastEffect (fiberAt st returnFiber) = Some a)
               then Some childToDelete
               else nextEffect f)
    /\ flags f' = (if decide (a = childToDelete) then Deletion else flags f)
    /\ lastEffect f' =
         (if decide (a = returnFiber) then Some childToDelete
          else lastEffect f)
    /\ firstEffect f' =
         (if decide (a = returnFiber
                     /\ lastEffect (fiberAt st returnFiber) = None)
          then Some childToDelete else firstEffect f).
Proof.
  rewrite deleteChild_run. intros Hrun Hf. simplify_eq.
  destruct (lastEffect (fiberAt st returnFiber)) as [last|] eqn:Hlast.
  - destruct (decide (a = childToDelete)) as [<-|?],
             (decide (a = returnFiber)) as [<-|?],
             (decide (last = a)) as [->|?].
    all: eexists; split;
      [rewrite !list_lookup_alter; repeat case_decide; try congruence;
       rewrite ?Hf; reflexivity|].
    all: repeat (destruct (decide _)); simpl; try done;
      exfalso; intuition congruence.
  - destruct (decide (a = childToDelete)) as [<-|?],
             (decide (a = returnFiber)) as [<-|?].
    all: eexists; split;
      [rewrite !list_lookup_alter; repeat case_decide; try congruence;
       rewrite ?Hf; reflexivity|].
    all: repeat (destruct (decide _)); simpl; try done;
      exfalso; intuition congruence.
Qed.

Lemma deleteChild_length (st st' : Store) returnFiber childToDelete :
  deleteChild true returnFiber childToDelete st = Ok tt st' ->
  length st' = length st.
Proof.
  rewrite deleteChild_run. intros H. simplify_eq.
  destruct (lastEffect _); by rewrite !length_alter.
Qed.

Lemma deleteChild_effectList (st st' : Store) returnFiber childToDelete l :
  deleteChild true returnFiber childToDelete st = Ok tt st' ->
  effectList st returnFiber l ->
  childToDelete ∉ l ->
  childToDelete < length st ->
  returnFiber < length st ->
  effectList st' returnFiber (l ++ [childToDelete]).
Proof.
  intros Hrun [Hchain Hlast] Hnotin Hc Hr.
  destruct (lookup_lt_is_Some_2 st _ Hr) as [rf Hrf].
  destruct (lookup_lt_is_Some_2 st _ Hc) as [cf Hcf].
  rewrite (fiberAt_lookup _ _ _ Hrf) in Hchain, Hlast.
  destruct (deleteChild_lookup _ _ _ _ _ _ Hrun Hrf)
    as (rf' & Hrf' & _ & _ & _ & Hlast' & Hfirst').
  rewrite decide_True in Hlast' by done.
  rewrite (fiberAt_lookup _ _ _ Hrf) in Hfirst'.
  pose proof (linked_NoDup _ _ _ _ Hchain) as Hnd.
  destruct (linked_lookup _ _ _ _ Hchain) as [Hhead Hnext].
  split.
  - rewrite (fiberAt_lookup _ _ _ Hrf').
    apply linked_intro.
    + rewrite Hfirst'. destruct l as [|a l]; simpl in *.
      * rewrite decide_True by done. done.
      * rewrite decide_False; [done|].
        intros [_ Hnone]. rewrite Hlast in Hnone.
        by apply last_None in Hnone.
    + intros i a Hia.
      apply lookup_app_Some in Hia as [Hia|[Hge Hia]].
      * destruct (Hnext i a Hia) as (f & Hf & Hfn).
        destruct (deleteChild_lookup _ _ _ _ _ _ Hrun Hf)
          as (f' & Hf' & _ & Hn' & _).
        exists f'. split; [done|]. rewrite Hn'.
        rewrite decide_False
          by (intros ->; apply Hnotin; by eapply list_elem_of_lookup_2).
        rewrite (fiberAt_lookup _ _ _ Hrf), Hlast.
        pose proof (lookup_lt_Some _ _ _ Hia) as Hlt.
        destruct (decide (last l = Some a)) as [Hla|Hla].
        -- rewrite last_lookup in Hla.
           pose proof (NoDup_lookup _ _ _ _ Hnd Hia Hla) as ->.
           replace (S (pred (length l))) with (length l) by lia.
           by rewrite list_lookup_middle.
        -- assert (S i < length l).
           { destruct (decide (S i < length l)); [done|]. exfalso.
             apply Hla. rewrite last_lookup.
             by replace (pred (length l)) with i by lia. }
           rewrite lookup_app_l by done. done.
      * apply list_lookup_singleton_Some in Hia as [Hi <-].
        destruct (deleteChild_lookup _ _ _ _ _ _ Hrun Hcf)
          as (f' & Hf' & _ & Hn' & _).
        exists f'. split; [done|]. rewrite Hn', decide_True by done.
        symmetry. apply lookup_ge_None. rewrite length_app. simpl. lia.
  - rewrite (fiberAt_lookup _ _ _ Hrf'), Hlast'. by rewrite last_snoc.
Qed.

Lemma identityOf_sibling f f' :
  identityOf f' = identityOf f -> sibling f' = sibling f.
Proof. intros H. by apply (f_equal sibling) in H. Qed.

Lemma deleteChild_ok (st : Store) returnFiber childToDelete :
  exists st', deleteChild true returnFiber childToDelete st = Ok tt st'.
Proof. rewrite deleteChild_run. by eexists. Qed.

Lemma deleteChild_siblingChain (st st' : Store) returnFiber childToDelete
    first l :
  deleteChild true returnFiber childToDelete st = Ok tt st' ->
  siblingChain st first l -> siblingChain st' first l.
Proof.
  intros Hrun Hl. apply (linked_ext sibling st st' first l Hl).
  intros a Ha.
  destruct (lookup_lt_is_Some_2 st a) as [f Hf];
    [by eapply linked_allocated|].
  destruct (deleteChild_lookup _ _ _ _ _ _ Hrun Hf) as (f' & Hf' & Hid & _).
  rewrite Hf, Hf'. simpl. f_equal. by apply identityOf_sibling.
Qed.

(** A run of deletions, one after the other. *)
Lemma deleteEach_spec (returnFiber : nat) (cs : list nat) :
  forall (st : Store) (l : list nat),
    effectList st returnFiber l ->
    NoDup (l ++ cs) ->
    Forall (fun c => c < length st) cs ->
    returnFiber < length st ->
    exists st',
      deleteEach true returnFiber cs st = Ok tt st'
      /\ length st' = length st
      /\ effectList st' returnFiber (l ++ cs)
      /\ (forall a f, st !! a = Some f ->
            exists f', st' !! a = Some f'
              /\ identityOf f' = identityOf f
              /\ flags f' = if decide (a ∈ cs) then Deletion else flags f).
Proof.
  induction cs as [|c cs IH]; intros st l Heff Hnd Hall Hr.
  - exists st. rewrite app_nil_r. do 3 (split; [done|]).
    intros a f Hf. exists f. rewrite decide_False by apply not_elem_of_nil.
    done.
  - apply Forall_cons in Hall as [Hc Hall].
    destruct (deleteChild_ok st returnFiber c) as [st1 Hrun].
    pose proof (deleteChild_length _ _ _ _ Hrun) as Hlen1.
    assert (c ∉ l) as Hcl.
    { apply NoDup_app in Hnd as (_ & Hdisj & _). intros Hin.
      apply (Hdisj c Hin). by left. }
    pose proof (deleteChild_effectList _ _ _ _ _ Hrun Heff Hcl Hc Hr) as Heff1.
    destruct (IH st1 (l ++ [c])) as (st' & Hrun' & Hlen' & Heff' & Hframe').
    + done.
    + by rewrite <-app_assoc.
    + by rewrite Hlen1.
    + by rewrite Hlen1.
    + exists st'. split; [|split; [|split]].
      * simpl. unfold bind. by rewrite Hrun.
      * congruence.
      * by rewrite <-app_assoc in Heff'.
      * intros a f Hf.
        destruct (deleteChild_lookup _ _ _ _ _ _ Hrun Hf)
          as (f1 & Hf1 & Hid1 & _ & Hfl1 & _).
        destruct (Hframe' a f1 Hf1) as (f' & Hf' & Hid' & Hfl').
        exists f'. split; [done|]. split; [congruence|].
        rewrite Hfl', Hfl1.
        destruct (decide (a = c)) as [->|Hne].
        -- rewrite (decide_True (P := c ∈ c :: cs)) by (by left).
           by destruct (decide _).
        -- destruct (decide (a ∈ cs)) as [Hin|Hnin].
           ++ by rewrite decide_True by (by right).
           ++ rewrite decide_False; [done|].
              intros [?|?]%elem_of_cons; done.
Qed.

(** Deleting a chain of siblings is deleting each of them in turn. *)
Lemma deleteRemainingChildren_loop_eq (returnFiber : nat) (cs : list nat) :
  forall (fuel : nat) (st : Store) (first : option nat),
    siblingChain st first cs ->
    length cs <= fuel ->
    deleteRemainingChildren_loop true fuel returnFiber first st
    = deleteEach true returnFiber cs st.
Proof.
  induction cs as [|c cs IH]; intros fuel st first Hchain Hfuel.
  - inversion Hchain; subst. by destruct fuel.
  - inversion Hchain as [|a f l Hf Hrest]; subst.
    destruct fuel as [|fuel]; [simpl in Hfuel; lia|].
    simpl. unfold bind at 1 3.
    destruct (deleteChild_ok st returnFiber c) as [st1 Hrun].
    rewrite Hrun.
    pose proof (deleteChild_siblingChain _ _ _ _ _ _ Hrun Hchain) as Hchain1.
    inversion Hchain1 as [|a f1 l Hf1 Hrest1]; subst.
    unfold bind, get. rewrite (fiberAt_lookup _ _ _ Hf1).
    apply IH; [done|]. simpl in Hfuel. lia.
Qed.

Lemma deleteRemainingChildren_eq (st : Store) returnFiber first cs :
  siblingChain st first cs ->
  deleteRemainingChildren true returnFiber first st
  = match deleteEach true returnFiber cs st with
    | Ok _ st' => Ok None st'
    | Throw e => Throw e
    | Diverge => Diverge
    end.
Proof.
  intros Hchain. unfold deleteRemainingChildren, bind, storeSize, ret. simpl.
  rewrite (deleteRemainingChildren_loop_eq returnFiber cs); [|done|].
  - by destruct (deleteEach _ _ _ _) as [[] ?| |].
  - by eapply linked_length.
Qed.

(** C8.  In the mode that tracks side effects, [deleteChild] appends the
    child to the side-effect list of the parent, and to do so touches the
    parent, the old tail of the list and the child only: on an empty list
    [firstEffect] and [lastEffect] both become the child; otherwise the old
    tail's [nextEffect] is linked to the child, [lastEffect] becomes the
    child and [firstEffect] stays; the child is flagged Deletion.  So the
    children deleted one after the other, or by [deleteRemainingChildren]
    along a chain of siblings, follow what the list held before, in the
    order in which they were deleted, each flagged Deletion; whatever is
    appended later comes after them. *)
Theorem deleteChild_appends (st : Store) returnFiber childToDelete l :
  effectList st returnFiber l ->
  childToDelete ∉ l ->
  childToDelete < length st ->
  returnFiber < length st ->
  exists st',
    deleteChild true returnFiber childToDelete st = Ok tt st'
    /\ (forall a, a ≠ childToDelete -> a ≠ returnFiber -> last l ≠ Some a ->
          st' !! a = st !! a)
    /\ (l = [] ->
          firstEffect (fiberAt st' returnFiber) = Some childToDelete
          /\ lastEffect (fiberAt st' returnFiber) = Some childToDelete)
    /\ (forall tail, last l = Some tail ->
          nextEffect (fiberAt st' tail) = Some childToDelete
          /\ lastEffect (fiberAt st' returnFiber) = Some childToDelete
          /\ firstEffect (fiberAt st' returnFiber)
             = firstEffect (fiberAt st returnFiber))
    /\ flags (fiberAt st' childToDelete) = Deletion
    /\ effectList st' returnFiber (l ++ [childToDelete])
    /\ (forall cs,
          NoDup (l ++ childToDelete :: cs) ->
          Forall (fun c => c < length st) cs ->
          exists st'',
            deleteEach true returnFiber (childToDelete :: cs) st = Ok tt st''
            /\ effectList st'' returnFiber (l ++ childToDelete :: cs)
            /\ Forall (fun c => flags (fiberAt st'' c) = Deletion)
                 (childToDelete :: cs))
    /\ (forall cs,
          siblingChain st (Some childToDelete) cs ->
          (forall c, c ∈ cs -> c ∉ l) ->
          exists st'',
            deleteRemainingChildren true returnFiber (Some childToDelete) st
              = Ok None st''
            /\ effectList st'' returnFiber (l ++ cs)
            /\ Forall (fun c => flags (fiberAt st'' c) = Deletion) cs).
Proof.
  intros Heff Hnotin Hc Hr.
  destruct (deleteChild_ok st returnFiber childToDelete) as [st' Hrun].
  exists st'. split; [done|].
  destruct (lookup_lt_is_Some_2 st _ Hr) as [rf Hrf].
  destruct (lookup_lt_is_Some_2 st _ Hc) as [cf Hcf].
  destruct (deleteChild_lookup _ _ _ _ _ _ Hrun Hrf)
    as (rf' & Hrf' & _ & _ & _ & Hlast' & Hfirst').
  destruct (deleteChild_lookup _ _ _ _ _ _ Hrun Hcf)
    as (cf' & Hcf' & _ & _ & Hflags' & _).
  rewrite decide_True in Hlast' by done.
  rewrite decide_True in Hflags' by done.
  pose proof Heff as [Hchain Hlast].
  assert (forall cs,
            NoDup (l ++ cs) -> Forall (fun c => c < length st) cs ->
            exists st'',
              deleteEach true returnFiber cs st = Ok tt st''
              /\ effectList st'' returnFiber (l ++ cs)
              /\ Forall (fun c => flags (fiberAt st'' c) = Deletion) cs)
    as Hrunall.
  { intros cs Hnd Hall.
    destruct (deleteEach_spec returnFiber cs st l Heff Hnd Hall Hr)
      as (st'' & Hrun'' & _ & Heff'' & Hframe'').
    exists st''. split; [done|]. split; [done|].
    apply Forall_forall. intros c Hin.
    rewrite Forall_forall in Hall.
    destruct (lookup_lt_is_Some_2 st c (Hall c Hin)) as [f Hf].
    destruct (Hframe'' c f Hf) as (f' & Hf' & _ & Hfl).
    rewrite (fiberAt_lookup _ _ _ Hf'), Hfl. by rewrite decide_True. }
  split; [|split; [|split; [|split; [|split; [|split]]]]].
  - intros a Ha Har Hal. rewrite deleteChild_run in Hrun. simplify_eq.
    rewrite Hlast.
    destruct (last l) as [tail|].
    + rewrite !list_lookup_alter_ne; congruence.
    + by rewrite !list_lookup_alter_ne.
  - intros ->. rewrite (fiberAt_lookup _ _ _ Hrf'). split; [|done].
    rewrite Hfirst', decide_True; [done|]. by rewrite Hlast.
  - intros tail Htail.
    assert (tail ∈ l) as Hin by (by apply last_Some_elem_of).
    destruct (lookup_lt_is_Some_2 st tail) as [tf Htf];
      [by eapply linked_allocated|].
    destruct (deleteChild_lookup _ _ _ _ _ _ Hrun Htf)
      as (tf' & Htf' & _ & Hn' & _).
    rewrite decide_False in Hn' by congruence.
    rewrite decide_True in Hn' by congruence.
    rewrite (fiberAt_lookup _ _ _ Htf'), (fiberAt_lookup _ _ _ Hrf').
    rewrite (fiberAt_lookup _ _ _ Hrf). do 2 (split; [done|]).
    rewrite Hfirst', decide_False; [done|].
    intros [_ Hn]. congruence.
  - by rewrite (fiberAt_lookup _ _ _ Hcf').
  - by eapply deleteChild_effectList.
  - intros cs Hnd Hall. apply Hrunall; [done|]. by constructor.
  - intros cs Hsib Hdisj.
    rewrite (deleteRemainingChildren_eq st returnFiber _ cs Hsib).
    destruct (Hrunall cs) as (st'' & Hrun'' & Heff'' & Hfl'').
    + apply NoDup_app. split; [by eapply linked_NoDup|].
      split; [|by eapply linked_NoDup].
      intros a Hal Hacs. by apply (Hdisj a Hacs).
    + apply Forall_forall. intros c Hin. by eapply linked_allocated.
    + exists st''. by rewrite Hrun''.
Qed.

Lemma deleteChild_appends_witness :
  exists st',
    deleteRemainingChildren true 0 (Some 2) committedABC = Ok None st'
    /\ effectList st' 0 [2; 3]
    /\ Forall (fun c => flags (fiberAt st' c) = Deletion) [2; 3].
Proof.
  destruct (deleteChild_appends committedABC 0 2 [])
    as (_ & _ & _ & _ & _ & _ & _ & _ & Hrest).
  - split; [constructor|reflexivity].
  - apply not_elem_of_nil.
  - simpl. lia.
  - simpl. lia.
  - apply (Hrest [2; 3]).
    + econstructor; [reflexivity|]. econstructor; [reflexivity|]. constructor.
    + intros c _. apply not_elem_of_nil.
Defined.

(** ** Reordering three keyed children (claim C2) *)

(** C2, as the code has it.  Reconciling, with side effects tracked, the
    committed children a, b, c (keys "a", "b", "c", indices 0, 1, 2)
    against the new order c, a, b of the same types produces the siblings
    c, a, b at indices 0, 1, 2, each a clone of its old fiber; "c" carries
    no flag, "a" and "b" carry Placement, so two fibers are flagged as
    moved; nothing is deleted. *)
Theorem reconcile_cab_places_a_and_b (enableLazyElements : bool) :
  exists st',
    reconcileChildrenArray true enableLazyElements 0 (Some 1)
      [keyed "c"; keyed "a"; keyed "b"] 0 committedABC = Ok (Some 4) st'
    /\ siblingsFrom (length st') st' (Some 4) = [4; 5; 6]
    /\ summary st' 4 = (Some "c", 0, NoFlags, Some 3)
    /\ summary st' 5 = (Some "a", 1, Placement, Some 1)
    /\ summary st' 6 = (Some "b", 2, Placement, Some 2)
    /\ placed st' (Some 4) = [5; 6]
    /\ effectList st' 0 []
    /\ Forall (fun old => flags (fiberAt st' old) = NoFlags) [1; 2; 3].
Proof.
  destruct enableLazyElements; eexists; (split; [vm_compute; reflexivity|]).
  all: do 5 (split; [vm_compute; reflexivity|]).
  all: split; [split; [constructor|reflexivity]|].
  all: repeat constructor.
Qed.

(** C2 as the claim words it does not hold: not one fiber but two are
    flagged as moved. *)
Lemma reconcile_cab_not_exactly_one_placed :
  ~ (exists first st',
       reconcileChildrenArray true false 0 (Some 1)
         [keyed "c"; keyed "a"; keyed "b"] 0 committedABC = Ok first st'
       /\ length (placed st' first) = 1).
Proof.
  intros (first & st' & Hrun & Hone).
  vm_compute in Hrun. injection Hrun as <- <-.
  vm_compute in Hone. discriminate.
Qed.

(** ** Stores that keep what they held *)

Lemma preserved_refl (st : Store) : preserved st st.
Proof. intros a f Hf. by exists f. Qed.

Lemma preserved_trans (st1 st2 st3 : Store) :
  preserved st1 st2 -> preserved st2 st3 -> preserved st1 st3.
Proof.
  intros H12 H23 a f Hf.
  destruct (H12 a f Hf) as (f2 & Hf2 & Hid2).
  destruct (H23 a f2 Hf2) as (f3 & Hf3 & Hid3).
  exists f3. split; [done|congruence].
Qed.

Lemma preserved_app (st st' : Store) : preserved st (st ++ st').
Proof. intros a f Hf. exists f. split; [by apply lookup_app_l_Some|done]. Qed.

Lemma preserved_fiberAt (st st' : Store) a :
  preserved st st' -> a < length st ->
  identityOf (fiberAt st' a) = identityOf (fiberAt st a).
Proof.
  intros Hp Hlt. destruct (lookup_lt_is_Some_2 st a Hlt) as [f Hf].
  destruct (Hp a f Hf) as (f' & Hf' & Hid).
  by rewrite (fiberAt_lookup _ _ _ Hf), (fiberAt_lookup _ _ _ Hf').
Qed.

Lemma preserved_length (st st' : Store) :
  preserved st st' -> length st <= length st'.
Proof.
  intros Hp. destruct (decide (length st <= length st')); [done|].
  exfalso.
  destruct (lookup_lt_is_Some_2 st (length st')) as [f Hf]; [lia|].
  destruct (Hp _ f Hf) as (f' & Hf' & _).
  apply lookup_lt_Some in Hf'. lia.
Qed.

Lemma preserved_siblingChain (st st' : Store) first l :
  preserved st st' -> siblingChain st first l -> siblingChain st' first l.
Proof.
  intros Hp Hl. apply (linked_ext sibling st st' first l Hl).
  intros a Ha.
  destruct (lookup_lt_is_Some_2 st a) as [f Hf];
    [by eapply linked_allocated|].
  destruct (Hp a f Hf) as (f' & Hf' & Hid).
  rewrite Hf, Hf'. simpl. f_equal. by apply identityOf_sibling.
Qed.

Lemma preserved_refResolves (st st' : Store) mixedRef owner :
  preserved st st' ->
  refResolves st mixedRef owner -> refResolves st' mixedRef owner.
Proof.
  intros Hp. destruct mixedRef as [| |stringRef]; try done.
  intros (o & inst & -> & Htag & Hinst).
  assert (o < length st) as Hlt.
  { destruct (decide (o < length st)); [done|]. exfalso.
    unfold fiberAt in Htag. rewrite lookup_ge_None_2 in Htag by lia.
    done. }
  pose proof (preserved_fiberAt _ _ _ Hp Hlt) as Hid.
  exists o, inst. split; [done|].
  split.
  - apply (f_equal tag) in Hid. simpl in Hid. congruence.
  - apply (f_equal stateNode) in Hid. simpl in Hid. congruence.
Qed.

Lemma coerceRef_ok (st : Store) returnFiber current mixedRef owner :
  refResolves st mixedRef owner ->
  exists r, coerceRef returnFiber current mixedRef owner st = Ok r st.
Proof.
  destruct mixedRef as [|id|stringRef]; simpl; [by eexists..|].
  intros (o & inst & -> & Htag & Hinst).
  unfold bind, get. rewrite decide_True by done. rewrite Hinst.
  destruct current as [current|]; [|by eexists].
  unfold bind. destruct (ref (fiberAt st current)); try by eexists.
  destruct (decide _); by eexists.
Qed.

Lemma deleteChild_preserved (st st' : Store) returnFiber childToDelete :
  deleteChild true returnFiber childToDelete st = Ok tt st' ->
  preserved st st'.
Proof.
  intros Hrun a f Hf.
  destruct (deleteChild_lookup _ _ _ _ _ _ Hrun Hf) as (f' & Hf' & Hid & _).
  by exists f'.
Qed.

(** A run of deletions flags the fibers deleted and no other. *)
Lemma deleteEach_frame (returnFiber : nat) (cs : list nat) (st : Store) :
  exists st',
    deleteEach true returnFiber cs st = Ok tt st'
    /\ length st' = length st
    /\ (forall a f, st !! a = Some f ->
          exists f', st' !! a = Some f'
            /\ identityOf f' = identityOf f
            /\ flags f' = if decide (a ∈ cs) then Deletion else flags f).
Proof.
  revert st. induction cs as [|c cs IH]; intros st.
  - exists st. do 2 (split; [done|]).
    intros a f Hf. exists f. rewrite decide_False by apply not_elem_of_nil.
    done.
  - destruct (deleteChild_ok st returnFiber c) as [st1 Hrun].
    pose proof (deleteChild_length _ _ _ _ Hrun) as Hlen1.
    destruct (IH st1) as (st' & Hrun' & Hlen' & Hframe').
    exists st'. split; [|split].
    + simpl. unfold bind. by rewrite Hrun.
    + congruence.
    + intros a f Hf.
      destruct (deleteChild_lookup _ _ _ _ _ _ Hrun Hf)
        as (f1 & Hf1 & Hid1 & _ & Hfl1 & _).
      destruct (Hframe' a f1 Hf1) as (f' & Hf' & Hid' & Hfl').
      exists f'. split; [done|]. split; [congruence|].
      rewrite Hfl', Hfl1.
      destruct (decide (a = c)) as [->|Hne].
      * rewrite (decide_True (P := c ∈ c :: cs)) by (by left).
        by destruct (decide _).
      * destruct (decide (a ∈ cs)) as [Hin|Hnin].
        -- by rewrite decide_True by (by right).
        -- rewrite decide_False; [done|].
           intros [?|?]%elem_of_cons; done.
Qed.

Lemma useFiber_run (st : Store) fiber props :
  useFiber fiber props st =
    let c := fiberAt st fiber in
    Ok (length st)
      (st ++ [mkFiber (tag c) (key c) (elementType c) (type c) (stateNode c)
                None (child c) None 0 (ref c) props (mode c) NoFlags
                None None None (lanes c) (Some fiber)]).
Proof.
  unfold useFiber, createWorkInProgress, bind, get, alloc, update, ret.
  simpl. by rewrite !store_alter_snoc.
Qed.

(** ** A single element against a list of old children (claim C7) *)

Lemma identityOf_key f f' :
  identityOf f' = identityOf f -> key f' = key f.
Proof. intros H. by apply (f_equal key) in H. Qed.

Lemma identityOf_concreteType f f' :
  identityOf f' = identityOf f -> concreteType f' = concreteType f.
Proof.
  intros H. unfold concreteType.
  pose proof (f_equal tag H) as Ht. pose proof (f_equal elementType H) as He.
  simpl in Ht, He. by rewrite Ht, He.
Qed.

Lemma sameElementType_concreteType f ty :
  sameElementType f ty = bool_decide (concreteType f = Some ty).
Proof.
  unfold sameElementType, concreteType.
  destruct (tag f); try done.
  apply bool_decide_ext. split; [by intros ->|by intros [= ->]].
Qed.

Lemma deleteEach_preserved (returnFiber : nat) cs (st st' : Store) :
  deleteEach true returnFiber cs st = Ok tt st' -> preserved st st'.
Proof.
  intros Hrun a f Hf.
  destruct (deleteEach_frame returnFiber cs st) as (st'' & Hrun'' & _ & Hfr).
  rewrite Hrun in Hrun''. simplify_eq.
  destruct (Hfr a f Hf) as (f' & Hf' & Hid & _). by exists f'.
Qed.

Section SingleElement.

Variables (returnFiber : nat) (key : option string) (ty : ElementType)
  (mixedRef : ElementRef) (owner : option nat) (props : nat)
  (children : ReactNode).

(** The children whose key differs are deleted one by one. *)
Lemma reconcileSingleElement_loop_skip (before rest : list nat) :
  forall (fuel : nat) (st : Store) (first : option nat),
    siblingChain st first (before ++ rest) ->
    Forall (fun b => ChildFiber.key (fiberAt st b) ≠ key) before ->
    length before <= fuel ->
    exists st1,
      deleteEach true returnFiber before st = Ok tt st1
      /\ reconcileSingleElement_loop true fuel returnFiber first key ty
           mixedRef owner props children st
         = reconcileSingleElement_loop true (fuel - length before) returnFiber
             (head rest) key ty mixedRef owner props children st1.
Proof.
  induction before as [|b before IH]; intros fuel st first Hchain Hkeys Hfuel.
  - exists st. split; [done|]. simpl in *.
    destruct (linked_lookup _ _ _ _ Hchain) as [-> _].
    by rewrite Nat.sub_0_r.
  - simpl in Hchain. inversion Hchain as [|a bf l Hbf Hrest]; subst.
    apply Forall_cons in Hkeys as [Hkey Hkeys].
    destruct fuel as [|fuel]; [simpl in Hfuel; lia|].
    destruct (deleteChild_ok st returnFiber b) as [st1 Hrun].
    pose proof (deleteChild_preserved _ _ _ _ Hrun) as Hp.
    pose proof (preserved_siblingChain _ _ _ _ Hp Hchain) as Hchain1.
    inversion Hchain1 as [|a bf1 l Hbf1 Hrest1]; subst.
    destruct (IH fuel st1 (sibling bf1)) as (st2 & Hrun2 & Hloop).
    + done.
    + eapply Forall_impl; [exact Hkeys|]. intros c Hc. simpl in Hc.
      destruct (decide (c < length st)) as [Hlt|Hge].
      * pose proof (preserved_fiberAt _ _ c Hp Hlt) as Hid.
        by rewrite (identityOf_key _ _ Hid).
      * pose proof (deleteChild_length _ _ _ _ Hrun) as Hlen.
        unfold fiberAt in *.
        rewrite lookup_ge_None_2 in Hc |- * by lia. done.
    + simpl in Hfuel. lia.
    + exists st2. split.
      * simpl. unfold bind. by rewrite Hrun.
      * change (S fuel - length (b :: before)) with (fuel - length before).
        rewrite <-Hloop. cbn [reconcileSingleElement_loop].
        unfold bind at 1. unfold get at 1.
        rewrite (fiberAt_lookup _ _ _ Hbf) in Hkey |- *.
        rewrite decide_False by done.
        unfold bind at 1. rewrite Hrun.
        unfold bind at 1. unfold get at 1.
        by rewrite (fiberAt_lookup _ _ _ Hbf1).
Qed.

(** At the first child with the element's key. *)
Lemma reconcileSingleElement_loop_match (st1 : Store) m after fuel :
  siblingChain st1 (Some m) (m :: after) ->
  ChildFiber.key (fiberAt st1 m) = key ->
  refResolves st1 mixedRef owner ->
  if sameElementType (fiberAt st1 m) ty then
    exists st2 clone,
      deleteEach true returnFiber after st1 = Ok tt st2
      /\ reconcileSingleElement_loop true (S fuel) returnFiber (Some m) key ty
           mixedRef owner props children st1
         = Ok (Some (length st1)) (st2 ++ [clone])
      /\ alternate clone = Some m
      /\ return_ clone = Some returnFiber
      /\ flags clone = NoFlags
      /\ ChildFiber.key clone = key
      /\ index clone = 0
      /\ sibling clone = None
  else
    exists st2,
      deleteEach true returnFiber (m :: after) st1 = Ok tt st2
      /\ reconcileSingleElement_loop true (S fuel) returnFiber (Some m) key ty
           mixedRef owner props children st1
         = Ok None st2.
Proof.
  intros Hchain Hkey Href.
  inversion Hchain as [|a mf l Hmf Hrest]; subst.
  rewrite (fiberAt_lookup _ _ _ Hmf) in *.
  destruct (sameElementType mf ty) eqn:Hsame.
  all: cbn [reconcileSingleElement_loop]; unfold bind at 1; unfold get at 1.
  all: rewrite (fiberAt_lookup _ _ _ Hmf), decide_True, Hsame by done.
  - destruct (deleteEach_frame returnFiber after st1)
      as (st2 & Hrun2 & Hlen2 & Hfr2).
    pose proof (deleteEach_preserved _ _ _ _ Hrun2) as Hp2.
    unfold bind at 1.
    rewrite (deleteRemainingChildren_eq st1 returnFiber _ after Hrest), Hrun2.
    assert (forall x, refResolves (st2 ++ [x]) mixedRef owner) as Href2.
    { intros x. eapply preserved_refResolves; [|exact Href].
      eapply preserved_trans; [exact Hp2|apply preserved_app]. }
    assert (ChildFiber.key (fiberAt st2 m) = ChildFiber.key mf) as Hkey2.
    { destruct (Hfr2 m mf Hmf) as (mf2 & Hmf2 & Hid & _).
      rewrite (fiberAt_lookup _ _ _ Hmf2). by apply identityOf_key. }
    exists st2.
    destruct (tag mf) eqn:Htag.
    all: unfold bind at 1; rewrite useFiber_run; cbv zeta.
    all: unfold bind, update, ret.
    all: try match goal with
         | |- context [coerceRef ?r ?c ?mr ?o (?s ++ [?x])] =>
           destruct (coerceRef_ok (s ++ [x]) r c mr o (Href2 x))
             as [coerced Hco];
           rewrite Hco
         end.
    all: rewrite !store_alter_snoc, Hlen2.
    all: eexists; split; [reflexivity|]; split; [reflexivity|].
    all: simpl; rewrite Hkey2; done.
  - destruct (deleteEach_frame returnFiber (m :: after) st1)
      as (st2 & Hrun2 & Hlen2 & Hfr2).
    exists st2. split; [done|].
    unfold bind at 1.
    rewrite (deleteRemainingChildren_eq st1 returnFiber _ (m :: after) Hchain).
    by rewrite Hrun2.
Qed.

End SingleElement.

(** C7.  Reconciling a single element, with side effects tracked, against
    a list of old children of which [m] is the first whose key equals the
    element's key (the children [before] it having other keys): the
    children before [m] and those after it are flagged Deletion; if the
    type of [m] differs from the element's, [m] is flagged Deletion too and
    the result is a fresh fiber, its [alternate] null; if the type matches,
    the result is a clone of [m], its [alternate] being [m], and [m] keeps
    its flags.  Either way the result is a new fiber whose [return] is the
    parent.  The element's ref is assumed to be one [coerceRef] accepts. *)
Theorem reconcileSingleElement_first_key_decides (st : Store)
    returnFiber first before m after k ty mixedRef owner props children
    lanes :
  siblingChain st first (before ++ m :: after) ->
  Forall (fun b => ChildFiber.key (fiberAt st b) ≠ k) before ->
  ChildFiber.key (fiberAt st m) = k ->
  refResolves st mixedRef owner ->
  exists result st',
    reconcileSingleElement true returnFiber first k ty mixedRef owner props
      children lanes st = Ok result st'
    /\ result = length st
    /\ length st' = S (length st)
    /\ preserved st st'
    /\ Forall (fun c => flags (fiberAt st' c) = Deletion) (before ++ after)
    /\ return_ (fiberAt st' result) = Some returnFiber
    /\ ChildFiber.key (fiberAt st' result) = k
    /\ (concreteType (fiberAt st m) ≠ Some ty ->
          flags (fiberAt st' m) = Deletion
          /\ alternate (fiberAt st' result) = None)
    /\ (concreteType (fiberAt st m) = Some ty ->
          alternate (fiberAt st' result) = Some m
          /\ flags (fiberAt st' m) = flags (fiberAt st m)).
Proof.
  intros Hchain Hkeys Hkey Href.
  pose proof (linked_length _ _ _ _ Hchain) as Hlen.
  pose proof (linked_NoDup _ _ _ _ Hchain) as Hnd.
  rewrite length_app in Hlen. simpl in Hlen.
  assert (m < length st) as Hm.
  { eapply linked_allocated; [exact Hchain|].
    apply elem_of_app. right. by left. }
  destruct (reconcileSingleElement_loop_skip returnFiber k ty mixedRef owner
              props children before (m :: after) (length st) st first)
    as (st1 & Hrun1 & Hskip); [done|done|lia|].
  destruct (deleteEach_frame returnFiber before st)
    as (st1' & Hrun1' & Hlen1 & Hfr1).
  rewrite Hrun1 in Hrun1'. injection Hrun1' as ->.
  pose proof (deleteEach_preserved _ _ _ _ Hrun1) as Hp1.
  pose proof (preserved_siblingChain _ _ _ _ Hp1 Hchain) as Hchain1.
  apply linked_suffix in Hchain1.
  pose proof (preserved_fiberAt _ _ m Hp1 Hm) as Hid1.
  pose proof (reconcileSingleElement_loop_match returnFiber k ty mixedRef
                owner props children st1' m after
                (length st - length before - 1) Hchain1) as Hmatch.
  replace (S (length st - length before - 1))
    with (length st - length before) in Hmatch by lia.
  rewrite (identityOf_key _ _ Hid1) in Hmatch.
  specialize (Hmatch Hkey (preserved_refResolves _ _ _ _ Hp1 Href)).
  rewrite sameElementType_concreteType in Hmatch.
  rewrite (identityOf_concreteType _ _ Hid1) in Hmatch.
  apply NoDup_app in Hnd as (Hnd1 & Hdisj & Hnd2).
  apply NoDup_cons in Hnd2 as [Hmafter Hnd2].
  assert (m ∉ before) as Hmbefore
    by (intros Hin; apply (Hdisj m Hin); by left).
  destruct (lookup_lt_is_Some_2 st m Hm) as [mf Hmf].
  unfold reconcileSingleElement, bind at 1, storeSize.
  unfold bind at 1. change (head (m :: after)) with (Some m) in Hskip.
  rewrite Hskip.
  destruct (bool_decide (concreteType (fiberAt st m) = Some ty)) eqn:Hty.
  - apply bool_decide_eq_true in Hty.
    destruct Hmatch as (st2 & clone & Hrun2 & Hloop & Halt & Hret & Hfl
                        & Hk & Hidx & Hsib).
    destruct (deleteEach_frame returnFiber after st1')
      as (st2' & Hrun2' & Hlen2 & Hfr2).
    rewrite Hrun2 in Hrun2'. injection Hrun2' as ->.
    pose proof (deleteEach_preserved _ _ _ _ Hrun2) as Hp2.
    rewrite Hloop. unfold ret.
    exists (length st1'), (st2' ++ [clone]).
    split; [done|]. split; [done|].
    split; [rewrite length_app; simpl; lia|].
    split; [eapply preserved_trans; [exact Hp1|];
            eapply preserved_trans; [exact Hp2|apply preserved_app]|].
    assert (fiberAt (st2' ++ [clone]) (length st1') = clone) as Hclone
      by (rewrite <-Hlen2; apply fiberAt_snoc).
    assert (forall c f, st !! c = Some f ->
              flags (fiberAt (st2' ++ [clone]) c)
              = if decide (c ∈ after) then Deletion
                else if decide (c ∈ before) then Deletion else flags f)
      as Hflags.
    { intros c f Hf.
      destruct (Hfr1 c f Hf) as (f1 & Hf1 & _ & Hfl1).
      destruct (Hfr2 c f1 Hf1) as (f2 & Hf2 & _ & Hfl2).
      rewrite fiberAt_app_l by (by eapply lookup_lt_Some).
      by rewrite (fiberAt_lookup _ _ _ Hf2), Hfl2, Hfl1. }
    split; [|split; [by rewrite Hclone|split; [by rewrite Hclone|split]]].
    + apply Forall_forall. intros c Hc.
      destruct (lookup_lt_is_Some_2 st c) as [f Hf].
      { eapply linked_allocated; [exact Hchain|].
        rewrite elem_of_app in Hc |- *. rewrite elem_of_cons. tauto. }
      rewrite (Hflags c f Hf).
      apply elem_of_app in Hc as [Hc|Hc];
        repeat (destruct (decide _)); done.
    + done.
    + intros _. rewrite Hclone. split; [done|].
      rewrite (Hflags m mf Hmf), (fiberAt_lookup _ _ _ Hmf).
      by rewrite !decide_False.
  - apply bool_decide_eq_false in Hty.
    destruct Hmatch as (st2 & Hrun2 & Hloop).
    destruct (deleteEach_frame returnFiber (m :: after) st1')
      as (st2' & Hrun2' & Hlen2 & Hfr2).
    rewrite Hrun2 in Hrun2'. injection Hrun2' as ->.
    pose proof (deleteEach_preserved _ _ _ _ Hrun2) as Hp2.
    assert (preserved st st2') as Hp
      by (eapply preserved_trans; [exact Hp1|exact Hp2]).
    assert (forall x, refResolves (st2' ++ [x]) mixedRef owner) as Href2.
    { intros x. eapply preserved_refResolves; [|exact Href].
      eapply preserved_trans; [exact Hp|apply preserved_app]. }
    assert (forall c f, st !! c = Some f ->
              flags (fiberAt st2' c)
              = if decide (c ∈ m :: after) then Deletion
                else if decide (c ∈ before) then Deletion else flags f)
      as Hflags.
    { intros c f Hf.
      destruct (Hfr1 c f Hf) as (f1 & Hf1 & _ & Hfl1).
      destruct (Hfr2 c f1 Hf1) as (f2 & Hf2 & _ & Hfl2).
      by rewrite (fiberAt_lookup _ _ _ Hf2), Hfl2, Hfl1. }
    rewrite Hloop.
    assert (exists fresh,
              (let* r := get returnFiber in
               if decide (ty = REACT_FRAGMENT_TYPE)
               then
                 let* created :=
                   createFiberFromFragment children (mode r) lanes k in
                 update created (set_return (Some returnFiber));;
                 ret created
               else
                 let* created :=
                   createFiberFromElement k ty props children (mode r)
                     lanes in
                 let* coerced :=
                   coerceRef returnFiber first mixedRef owner in
                 update created (set_ref coerced);;
                 update created (set_return (Some returnFiber));;
                 ret created) st2'
              = Ok (length st2') (st2' ++ [fresh])
              /\ alternate fresh = None
              /\ return_ fresh = Some returnFiber
              /\ ChildFiber.key fresh = k) as (fresh & Hcreate & Hfa & Hfr & Hfk).
    { unfold bind at 1. unfold get at 1.
      destruct (decide (ty = REACT_FRAGMENT_TYPE)) as [->|Hnf].
      - unfold createFiberFromFragment, bind, alloc, update, ret.
        rewrite store_alter_snoc. by eexists.
      - destruct ty as [|tag name]; [done|].
        unfold createFiberFromElement, bind at 1, alloc.
        unfold bind at 1.
        match goal with
        | |- context [coerceRef ?r ?c ?mr ?o (?s ++ [?x])] =>
          destruct (coerceRef_ok (s ++ [x]) r c mr o (Href2 x))
            as [coerced Hco];
          rewrite Hco
        end.
        unfold bind, update, ret. rewrite !store_alter_snoc. by eexists. }
    rewrite Hcreate.
    exists (length st2'), (st2' ++ [fresh]).
    split; [done|]. split; [congruence|].
    split; [rewrite length_app; simpl; lia|].
    split; [eapply preserved_trans; [exact Hp|apply preserved_app]|].
    rewrite fiberAt_snoc.
    split; [|split; [done|split; [done|split]]].
    + apply Forall_forall. intros c Hc.
      destruct (lookup_lt_is_Some_2 st c) as [f Hf].
      { eapply linked_allocated; [exact Hchain|].
        rewrite elem_of_app in Hc |- *. rewrite elem_of_cons. tauto. }
      rewrite fiberAt_app_l by (apply lookup_lt_Some in Hf; lia).
      rewrite (Hflags c f Hf).
      apply elem_of_app in Hc as [Hc|Hc].
      * by repeat (destruct (decide _)).
      * rewrite decide_True; [done|]. by right.
    + intros _. split; [|done].
      rewrite fiberAt_app_l by lia.
      rewrite (Hflags m mf Hmf). rewrite decide_True; [done|]. by left.
    + done.
Qed.

Lemma reconcileSingleElement_first_key_decides_witness :
  (exists result st',
     reconcileSingleElement true 0 (Some 1) (Some "b")
       (ConcreteType HostComponent "p") ERefNull None 0 NNull 0 committedABC
     = Ok result st'
     /\ Forall (fun c => flags (fiberAt st' c) = Deletion) [1; 2; 3]
     /\ alternate (fiberAt st' result) = None)
  /\ (exists result st',
        reconcileSingleElement true 0 (Some 1) (Some "b") li ERefNull None 0
          NNull 0 committedABC
        = Ok result st'
        /\ Forall (fun c => flags (fiberAt st' c) = Deletion) [1; 3]
        /\ flags (fiberAt st' 2) = NoFlags
        /\ alternate (fiberAt st' result) = Some 2).
Proof.
  assert (siblingChain committedABC (Some 1) ([1] ++ 2 :: [3])) as Hchain.
  { repeat (econstructor; [reflexivity|]). constructor. }
  assert (Forall (fun b => key (fiberAt committedABC b) ≠ Some "b") [1])
    as Hkeys by (by repeat constructor).
  split.
  - destruct (reconcileSingleElement_first_key_decides committedABC 0 (Some 1)
                [1] 2 [3] (Some "b") (ConcreteType HostComponent "p") ERefNull
                None 0 NNull 0 Hchain Hkeys eq_refl I)
      as (result & st' & Hrun & _ & _ & _ & Hdel & _ & _ & Hdiff & _).
    destruct Hdiff as [Hm Halt]; [intros H; vm_compute in H; discriminate|].
    exists result, st'. split; [done|]. split; [|done].
    apply Forall_cons in Hdel as [H1 Hdel].
    apply Forall_cons in Hdel as [H3 _].
    by repeat (apply Forall_cons; split); [..|apply Forall_nil].
  - destruct (reconcileSingleElement_first_key_decides committedABC 0 (Some 1)
                [1] 2 [3] (Some "b") li ERefNull
                None 0 NNull 0 Hchain Hkeys eq_refl I)
      as (result & st' & Hrun & _ & _ & _ & Hdel & _ & _ & _ & Hsame).
    destruct Hsame as [Halt Hm]; [done|].
    by exists result, st'.
Defined.

(** ** An array against the list it was made from (claim C9) *)

(** A slot whose old fiber and new child are the same child is filled with
    a clone of the old fiber. *)
Lemma updateSlot_reuse (enableLazyElements : bool) (st : Store) returnFiber
    old i k ty mixedRef owner props children lanes :
  old < length st ->
  slotMatches st i old (NElement k ty mixedRef owner props children) ->
  exists clone,
    updateSlot enableLazyElements returnFiber (Some old)
      (NElement k ty mixedRef owner props children) lanes st
    = Ok (Some (length st)) (st ++ [clone])
    /\ alternate clone = Some old
    /\ key clone = k
    /\ flags clone = NoFlags
    /\ return_ clone = Some returnFiber
    /\ sibling clone = None.
Proof.
  intros Hold (Hk & Hi & Hty & Hwf & Href).
  assert (forall x, refResolves (st ++ [x]) mixedRef owner) as Href2.
  { intros x. eapply preserved_refResolves; [apply preserved_app|exact Href]. }
  cbn [updateSlot]. unfold bind at 1. unfold bind at 1. unfold get at 1.
  unfold ret at 1. rewrite decide_True by done.
  destruct (decide (ty = REACT_FRAGMENT_TYPE)) as [->|Hnf].
  - assert (tag (fiberAt st old) = Fragment) as Htag.
    { unfold concreteType in Hty.
      destruct (tag (fiberAt st old)); try done; congruence. }
    unfold updateFragment, bind at 1, bind at 1, get at 1.
    rewrite decide_True by done.
    unfold bind at 1. rewrite useFiber_run. cbv zeta.
    unfold bind, update, ret. rewrite store_alter_snoc.
    eexists. split; [reflexivity|]. by rewrite Hk.
  - assert (elementType (fiberAt st old) = Some ty) as Hety.
    { unfold concreteType in Hty.
      destruct (tag (fiberAt st old)); try done; congruence. }
    unfold updateElement, bind at 1, bind at 1, get at 1.
    rewrite decide_True by done.
    unfold bind at 1. rewrite useFiber_run. cbv zeta.
    unfold bind at 1.
    match goal with
    | |- context [coerceRef ?r ?c ?mr ?o (?s ++ [?x])] =>
      destruct (coerceRef_ok (s ++ [x]) r c mr o (Href2 x)) as [coerced Hco];
      rewrite Hco
    end.
    unfold bind, update, ret. rewrite !store_alter_snoc.
    eexists. split; [reflexivity|]. by rewrite Hk.
Qed.

(** One turn of the first loop at such a slot: a clone is appended to the
    store and linked behind the previous new fiber; nothing is deleted and
    nothing is flagged. *)
Lemma firstPass_reuse_step (enableLazyElements : bool) (st : Store)
    returnFiber lanes l old newChild rest :
  oldFiber l = Some old ->
  old < length st ->
  slotMatches st (newIdx l) old newChild ->
  lastPlacedIndex l <= newIdx l ->
  (forall p, previousNewFiber l = Some p -> p < length st) ->
  exists clone,
    firstPass true enableLazyElements returnFiber lanes (newChild :: rest) l st
    = firstPass true enableLazyElements returnFiber lanes rest
        (mkArrayLoop
           (match previousNewFiber l with
            | None => Some (length st)
            | Some _ => resultingFirstChild l
            end)
           (Some (length st)) (sibling (fiberAt st old)) (newIdx l)
           (S (newIdx l)))
        (match previousNewFiber l with
         | None => st
         | Some p => alter (set_sibling (Some (length st))) p st
         end ++ [clone])
    /\ alternate clone = Some old
    /\ key clone = keyOf newChild
    /\ flags clone = NoFlags
    /\ return_ clone = Some returnFiber
    /\ sibling clone = None
    /\ index clone = newIdx l.
Proof.
  intros Hold Hlt Hslot Hlp Hprev.
  destruct newChild as [|k ty mixedRef owner props children| | | | | | |];
    try done.
  destruct (updateSlot_reuse enableLazyElements st returnFiber old (newIdx l)
              k ty mixedRef owner props children lanes Hlt Hslot)
    as (clone & Hrun & Halt & Hkey & Hflags & Hret & Hsib).
  destruct Hslot as (_ & Hidx & _).
  exists (set_index (newIdx l) clone).
  split; [|by destruct clone].
  cbn [firstPass]. rewrite Hold.
  unfold bind at 1. unfold get at 1.
  rewrite Hidx, Nat.ltb_irrefl.
  unfold bind at 1. rewrite Hrun.
  unfold bind at 1. unfold bind at 1. unfold get at 1.
  rewrite fiberAt_snoc, Halt. unfold ret at 1.
  unfold bind at 1.
  rewrite (placeChild_run (st ++ [clone]) (length st) clone)
    by apply list_lookup_middle, eq_refl.
  cbv zeta. rewrite Halt, store_alter_snoc.
  rewrite fiberAt_app_l by done. rewrite Hidx.
  assert ((newIdx l <? lastPlacedIndex l) = false) as ->
    by (apply Nat.ltb_ge; lia).
  unfold bind at 1. unfold appendNewFiber.
  destruct (previousNewFiber l) as [p|] eqn:Hp.
  - unfold bind at 1. unfold update at 1. unfold ret at 1.
    rewrite alter_app_lt by (by apply Hprev). done.
  - done.
Qed.

Lemma slotMatches_transfer (st0 st : Store) i old newChild :
  (forall a, a < length st0 -> st !! a = st0 !! a) ->
  old < length st0 ->
  slotMatches st0 i old newChild -> slotMatches st i old newChild.
Proof.
  intros Hsame Hold.
  destruct newChild as [|k ty mixedRef owner props children| | | | | | |];
    try done.
  assert (fiberAt st old = fiberAt st0 old) as Hat
    by (unfold fiberAt; by rewrite Hsame).
  unfold slotMatches. rewrite Hat.
  intros (? & ? & ? & ? & Href). do 4 (split; [done|]).
  eapply preserved_refResolves; [|exact Href].
  intros a f Hf. exists f. split; [|done].
  rewrite Hsame; [done|]. by eapply lookup_lt_Some.
Qed.

Section SameList.

Variables (enableLazyElements : bool) (st0 : Store) (returnFiber lanes : nat)
  (first : option nat) (olds : list nat) (newChildren : list ReactNode).

Hypothesis Hchain : siblingChain st0 first olds.
Hypothesis Hlength : length olds = length newChildren.
Hypothesis Hslots :
  forall i old newChild,
    olds !! i = Some old -> newChildren !! i = Some newChild ->
    slotMatches st0 i old newChild.

Lemma reusedUpTo_start :
  reusedUpTo st0 returnFiber olds newChildren 0 st0
    (mkArrayLoop None None first 0 0).
Proof.
  unfold reusedUpTo. simpl.
  split; [lia|]. split; [done|]. split; [intros j Hj; lia|].
  do 2 (split; [done|]).
  split; [|done].
  destruct (linked_lookup _ _ _ _ Hchain) as [-> _]. apply head_lookup.
Qed.

Lemma reusedUpTo_step i st l old newChild rest :
  reusedUpTo st0 returnFiber olds newChildren i st l ->
  olds !! i = Some old ->
  newChildren !! i = Some newChild ->
  exists st' l',
    firstPass true enableLazyElements returnFiber lanes (newChild :: rest) l st
    = firstPass true enableLazyElements returnFiber lanes rest l' st'
    /\ reusedUpTo st0 returnFiber olds newChildren (S i) st' l'.
Proof.
  intros (Hlen & Hsame & Hclones & Hfirst & Hprev & Hold & Hidx & Hlp)
    Holdi Hnewi.
  set (base := length st0) in *.
  assert (old < base) as Holdlt.
  { eapply linked_allocated; [exact Hchain|].
    by eapply list_elem_of_lookup_2. }
  destruct (firstPass_reuse_step enableLazyElements st returnFiber lanes l
              old newChild rest)
    as (clone & Hrun & Halt & Hkey & Hflags & Hret & Hsib & Hindex).
  { by rewrite Hold. }
  { lia. }
  { rewrite Hidx. eapply slotMatches_transfer; [done..|]. by eapply Hslots. }
  { lia. }
  { intros p Hp. rewrite Hprev in Hp. destruct i; simplify_eq. lia. }
  eexists _, _. split; [exact Hrun|].
  set (X := match previousNewFiber l with
            | None => st
            | Some p => alter (set_sibling (Some (length st))) p st
            end).
  assert (length X = base + i) as HlenX.
  { subst X. destruct (previousNewFiber l); by rewrite ?length_alter. }
  assert (forall a, a ≠ base + i - 1 \/ i = 0 -> X !! a = st !! a) as HX.
  { intros a Ha. subst X. rewrite Hprev. destruct i; [done|].
    apply list_lookup_alter_ne. lia. }
  unfold reusedUpTo. fold base. cbn [resultingFirstChild previousNewFiber
    oldFiber newIdx lastPlacedIndex].
  split; [rewrite length_app, HlenX; simpl; lia|].
  split.
  { intros a Ha. rewrite lookup_app_l by lia.
    rewrite HX by lia. by apply Hsame. }
  split.
  { intros j Hj. destruct (decide (j = i)) as [->|Hne].
    - exists clone. rewrite <-HlenX, list_lookup_middle by done.
      split; [done|]. split; [congruence|].
      split; [by rewrite Hnewi, Hkey|].
      split; [congruence|]. do 2 (split; [done|]).
      by rewrite Nat.ltb_irrefl.
    - destruct (Hclones j ltac:(lia))
        as (f & Hf & Hfa & Hfk & Hfi & Hff & Hfr & Hfs).
      rewrite lookup_app_l by lia.
      destruct (decide (S j = i)) as [<-|Hne'].
      + exists (set_sibling (Some (length st)) f).
        split.
        { subst X. rewrite Hprev. simpl.
          replace (base + S j - 1) with (base + j) by lia.
          by rewrite list_lookup_alter_eq, Hf. }
        simpl. do 5 (split; [done|]).
        rewrite Hlen. destruct (S j <? S (S j)) eqn:E; [done|].
        apply Nat.ltb_ge in E. lia.
      + exists f. split; [rewrite HX by lia; done|].
        do 5 (split; [done|]). rewrite Hfs.
        assert ((S j <? i) = true) as -> by (apply Nat.ltb_lt; lia).
        assert ((S j <? S i) = true) as -> by (apply Nat.ltb_lt; lia).
        done. }
  split.
  { rewrite Hprev, Hfirst, Hlen. destruct i; [|done].
    by rewrite Nat.add_0_r. }
  split; [f_equal; lia|].
  split.
  { assert (fiberAt st old = fiberAt st0 old) as ->
      by (unfold fiberAt; by rewrite Hsame).
    destruct (linked_lookup _ _ _ _ Hchain) as [_ Hnext].
    destruct (Hnext i old Holdi) as (f & Hf & Hfn).
    by rewrite (fiberAt_lookup _ _ _ Hf). }
  split; [by rewrite Hidx|lia].
Qed.

Lemma firstPass_all_reused (rest : list ReactNode) :
  forall i st l,
    rest = drop i newChildren ->
    i <= length newChildren ->
    reusedUpTo st0 returnFiber olds newChildren i st l ->
    exists st' l',
      firstPass true enableLazyElements returnFiber lanes rest l st
      = Ok (l', []) st'
      /\ reusedUpTo st0 returnFiber olds newChildren (length newChildren)
           st' l'.
Proof.
  induction rest as [|newChild rest IH]; intros i st l Hrest Hi Hinv.
  - assert (i = length newChildren) as ->.
    { apply (f_equal length) in Hrest. rewrite length_drop in Hrest.
      simpl in Hrest. lia. }
    exists st, l. split; [|done].
    simpl. by destruct (oldFiber l).
  - assert (newChildren !! i = Some newChild) as Hnewi.
    { rewrite <-(Nat.add_0_r i), <-lookup_drop, <-Hrest. done. }
    assert (rest = drop (S i) newChildren) as Hrest'.
    { rewrite (drop_S _ _ _ Hnewi) in Hrest. by simplify_eq. }
    pose proof (lookup_lt_Some _ _ _ Hnewi) as Hlt.
    destruct (lookup_lt_is_Some_2 olds i) as [old Holdi]; [lia|].
    destruct (reusedUpTo_step i st l old newChild rest Hinv Holdi Hnewi)
      as (st1 & l1 & Hstep & Hinv1).
    destruct (IH (S i) st1 l1 Hrest' ltac:(lia) Hinv1)
      as (st' & l' & Hrun & Hinv').
    exists st', l'. split; [|done]. by rewrite Hstep.
Qed.

End SameList.

Lemma siblingsFrom_chain (st : Store) first l fuel :
  siblingChain st first l -> length l <= fuel ->
  siblingsFrom fuel st first = l.
Proof.
  intros Hl. revert fuel.
  induction Hl as [|a f l Hf Hl IH]; intros fuel Hfuel.
  - by destruct fuel.
  - destruct fuel as [|fuel]; [simpl in Hfuel; lia|].
    simpl. rewrite (fiberAt_lookup _ _ _ Hf). f_equal.
    apply IH. simpl in Hfuel. lia.
Qed.

(** C9.  Reconciling, with side effects tracked, an array of elements
    against the old sibling list it matches slot by slot (the same keys in
    the same order, the same types, the old fibers at the indices of their
    slots) produces one new fiber per element, in the order of the array:
    each is a clone of the old fiber of its slot, which is its
    [alternate], has the key of its element and the index of its slot, and
    carries no flag, so none is flagged Placement; no old fiber is written
    to, so nothing is flagged Deletion and the side-effect list of the
    parent is what it was.  The elements' refs are assumed to be ones
    [coerceRef] accepts. *)
Theorem reconcileChildrenArray_same_list (enableLazyElements : bool)
    (st : Store) returnFiber first olds newChildren lanes :
  siblingChain st first olds ->
  length olds = length newChildren ->
  (forall i old newChild,
     olds !! i = Some old -> newChildren !! i = Some newChild ->
     slotMatches st i old newChild) ->
  let news := seq (length st) (length newChildren) in
  exists st',
    reconcileChildrenArray true enableLazyElements returnFiber first
      newChildren lanes st = Ok (head news) st'
    /\ length st' = length st + length newChildren
    /\ (forall a, a < length st -> st' !! a = st !! a)
    /\ siblingChain st' (head news) news
    /\ (forall i n, news !! i = Some n ->
          let f := fiberAt st' n in
          alternate f = olds !! i
          /\ is_Some (alternate f)
          /\ Some (key f) = keyOf <$> newChildren !! i
          /\ index f = i
          /\ flags f = NoFlags
          /\ return_ f = Some returnFiber)
    /\ placed st' (head news) = []
    /\ (forall l, effectList st returnFiber l -> returnFiber < length st ->
          effectList st' returnFiber l).
Proof.
  intros Hchain Hlength Hslots news.
  destruct (firstPass_all_reused enableLazyElements st returnFiber lanes first
              olds newChildren Hchain Hlength Hslots newChildren 0 st
              (mkArrayLoop None None first 0 0))
    as (st' & l' & Hrun & Hinv); [done|lia|by apply reusedUpTo_start|].
  destruct Hinv as (Hlen & Hsame & Hclones & Hfirst & _ & Hold & _ & _).
  assert (forall i n, news !! i = Some n ->
            n = length st + i /\ i < length newChildren) as Hnews.
  { intros i n Hn. subst news. apply lookup_seq in Hn. lia. }
  assert (head news = if length newChildren is O then None
                      else Some (length st)) as Hhead.
  { subst news. by destruct (length newChildren). }
  assert (siblingChain st' (head news) news) as Hchain'.
  { apply linked_intro; [done|].
    intros i n Hn. destruct (Hnews i n Hn) as [-> Hi].
    destruct (Hclones i Hi) as (f & Hf & _ & _ & _ & _ & _ & Hsib).
    exists f. split; [done|]. rewrite Hsib. subst news.
    destruct (S i <? length newChildren) eqn:E.
    - apply Nat.ltb_lt in E. symmetry. apply lookup_seq. lia.
    - apply Nat.ltb_ge in E. symmetry. apply lookup_ge_None.
      rewrite length_seq. lia. }
  assert (forall i n, news !! i = Some n ->
            let f := fiberAt st' n in
            alternate f = olds !! i
            /\ is_Some (alternate f)
            /\ Some (key f) = keyOf <$> newChildren !! i
            /\ index f = i
            /\ flags f = NoFlags
            /\ return_ f = Some returnFiber) as Hfibers.
  { intros i n Hn. destruct (Hnews i n Hn) as [-> Hi].
    destruct (Hclones i Hi) as (f & Hf & Ha & Hk & Hidx & Hfl & Hr & _).
    simpl. rewrite (fiberAt_lookup _ _ _ Hf).
    split; [done|]. split; [|done].
    rewrite Ha. apply lookup_lt_is_Some_2. lia. }
  exists st'. split; [|split; [done|split; [done|split; [done|split;
    [done|split]]]]].
  - unfold reconcileChildrenArray. unfold bind at 1. rewrite Hrun.
    unfold bind at 1.
    rewrite Hold, lookup_ge_None_2 by lia.
    unfold deleteRemainingChildren, bind, storeSize, ret. simpl.
    destruct (length st'); simpl; by rewrite Hfirst, Hhead.
  - unfold placed.
    rewrite (siblingsFrom_chain st' (head news) news) by
      (try done; subst news; rewrite length_seq; lia).
    destruct (filter _ news) as [|n ns] eqn:Hfilter; [done|].
    assert (n ∈ filter
              (fun a => hasFlag (flags (fiberAt st' a)) Placement = true) news)
      as Hin by (rewrite Hfilter; by left).
    apply list_elem_of_filter in Hin as [Hflag [i Hn]%list_elem_of_lookup].
    destruct (Hfibers i n Hn) as (_ & _ & _ & _ & Hfl & _).
    simpl in Hfl. by rewrite Hfl in Hflag.
  - intros l [Heff Hlast] Hr.
    assert (fiberAt st' returnFiber = fiberAt st returnFiber) as Hat
      by (unfold fiberAt; by rewrite Hsame).
    split; rewrite Hat; [|done].
    apply (linked_ext nextEffect st st' _ l Heff).
    intros a Ha. rewrite Hsame; [done|]. by eapply linked_allocated.
Qed.

Lemma reconcileChildrenArray_same_list_witness :
  exists st',
    reconcileChildrenArray true false 0 (Some 1)
      [keyed "a"; keyed "b"; keyed "c"] 0 committedABC = Ok (Some 4) st'
    /\ siblingChain st' (Some 4) [4; 5; 6]
    /\ placed st' (Some 4) = []
    /\ alternate (fiberAt st' 5) = Some 2.
Proof.
  destruct (reconcileChildrenArray_same_list false committedABC 0 (Some 1)
              [1; 2; 3] [keyed "a"; keyed "b"; keyed "c"] 0)
    as (st' & Hrun & _ & _ & Hchain & Hfibers & Hplaced & _).
  - repeat (econstructor; [reflexivity|]). constructor.
  - reflexivity.
  - intros [|[|[|i]]] old newChild Hold Hnew; simplify_eq/=;
      repeat split; done.
  - exists st'. do 3 (split; [done|]).
    by destruct (Hfibers 1 5 eq_refl) as (-> & _).
Defined.

(** ** Two more runs on the three committed children *)

(** a, b against a, b, c' where c' is new: a and b are reused untouched,
    the third fiber is fresh and flagged Placement, nothing is deleted. *)
Example reconcile_trailing_insert :
  exists st',
    reconcileChildrenArray true false 0 (Some 1)
      [keyed "a"; keyed "b"; keyed "c"] 0
      (take 2 committedABC ++ [committedChild "b" 1 None])
    = Ok (Some 3) st'
    /\ map (summary st') (siblingsFrom (length st') st' (Some 3))
       = [(Some "a", 0, NoFlags, Some 1); (Some "b", 1, NoFlags, Some 2);
          (Some "c", 2, Placement, None)]
    /\ effectList st' 0 [].
Proof.
  eexists. split; [vm_compute; reflexivity|].
  split; [vm_compute; reflexivity|].
  split; [constructor|reflexivity].
Qed.

(** a, b, c against a: a is reused, b and c are flagged Deletion and are
    the side-effect list of the parent, in that order. *)
Example reconcile_trailing_delete :
  exists st',
    reconcileChildrenArray true false 0 (Some 1) [keyed "a"] 0 committedABC
    = Ok (Some 4) st'
    /\ map (summary st') (siblingsFrom (length st') st' (Some 4))
       = [(Some "a", 0, NoFlags, Some 1)]
    /\ effectsFrom (length st') st' (firstEffect (fiberAt st' 0)) = [2; 3]
    /\ map (fun a => flags (fiberAt st' a)) [2; 3] = [Deletion; Deletion].
Proof.
  eexists. split; [vm_compute; reflexivity|].
  repeat split; vm_compute; reflexivity.
Qed.

End ChildFiberFacts.

(* ===================================================================== *)
(** * The scheduler's other entry points, properties *)
(* ===================================================================== *)

Module SchedulerApiFacts.
Import Scheduler SchedulerFacts SchedulerApi.

(** ** Induction on programs *)

Lemma Program_Call_ind (P : Program -> Prop) (Q : Call -> Prop) :
  (forall calls returns, Forall Q calls -> P (Body calls returns)) ->
  (forall priorityLevel callback options,
     Q (CallScheduleCallback priorityLevel callback options)) ->
  (forall task, Q (CallCancelCallback task)) ->
  Q CallPauseExecution ->
  Q CallContinueExecution ->
  Q CallGetCurrentPriorityLevel ->
  (forall priorityLevel h, P h -> Q (CallRunWithPriority priorityLevel h)) ->
  (forall h, P h -> Q (CallNext h)) ->
  (forall parent h, P h -> Q (CallWrapped parent h)) ->
  forall p, P p.
Proof.
  intros HBody HSched HCancel HPause HCont HGet HRun HNext HWrap.
  fix IH 1. intros [calls returns]. apply HBody.
  induction calls as [|c rest IHrest]; constructor; [|exact IHrest].
  destruct c; auto.
Qed.

Lemma runProgram_Body fl depth calls returns w :
  runProgram fl depth (Body calls returns) w = runCalls fl depth calls returns w.
Proof.
  revert w. induction calls as [|c rest IHrest]; intros w; [done|].
  simpl. destruct (runCall fl depth c w) as [[[]|] w']; [|done].
  apply IHrest.
Qed.

(** ** The current priority level *)

Lemma scheduleCallback_currentPriorityLevel fl P cb opts s :
  currentPriorityLevel (unstable_scheduleCallback fl P cb opts s).2
  = currentPriorityLevel s.
Proof.
  unfold unstable_scheduleCallback.
  destruct fl as [dbg prof]. destruct prof; by repeat case_match.
Qed.

Lemma continueExecution_currentPriorityLevel s :
  currentPriorityLevel (unstable_continueExecution s) = currentPriorityLevel s.
Proof. unfold unstable_continueExecution. by case_match. Qed.

(** A program leaves the current priority level as it found it, and adds
    readings only: those of its own depth and of the handlers below. *)
Lemma runProgram_level fl p :
  forall depth w,
    let w' := (runProgram fl depth p w).2 in
    currentPriorityLevel w'.1 = currentPriorityLevel w.1.
Proof.
  induction p using Program_Call_ind with
    (Q := fun c => forall depth w,
            currentPriorityLevel (runCall fl depth c w).2.1
            = currentPriorityLevel w.1).
  - intros depth w. cbn zeta. rewrite runProgram_Body.
    revert w. induction H as [|c rest Hc _ IHrest]; intros w; simpl.
    + by destruct returns.
    + specialize (Hc depth w).
      destruct (runCall fl depth c w) as [[[]|] w1]; simpl in *.
      * by rewrite IHrest.
      * done.
  - intros depth w. cbn [runCall fst snd].
    apply scheduleCallback_currentPriorityLevel.
  - intros depth w. cbn [runCall fst snd]. by rewrite cancelCallback_unfold.
  - done.
  - intros depth w. cbn [runCall fst snd].
    apply continueExecution_currentPriorityLevel.
  - done.
  - intros depth w. simpl. unfold unstable_runWithPriority.
    by destruct (runProgram fl (S depth) p _) as [r w1].
  - intros depth w. simpl. unfold unstable_next.
    by destruct (runProgram fl (S depth) p _) as [r w1].
  - intros depth w. simpl. unfold callWrapped. simpl.
    by destruct (runProgram fl (S depth) p _) as [r w1].
Qed.

(** Readings a program adds are made at its own depth or below it. *)
Lemma runProgram_readings_deeper fl (Q : nat * PriorityLevel -> Prop) p :
  forall depth w,
    (forall d l, depth <= d -> Q (d, l))%nat ->
    Forall Q w.2 -> Forall Q (runProgram fl depth p w).2.2.
Proof.
  induction p using Program_Call_ind with
    (Q := fun c => forall depth w,
            (forall d l, depth <= d -> Q (d, l))%nat ->
            Forall Q w.2 -> Forall Q (runCall fl depth c w).2.2).
  - intros depth w HQ. rewrite runProgram_Body.
    revert w. induction H as [|c rest Hc _ IHrest]; intros w Hw; simpl.
    + by destruct returns.
    + specialize (Hc depth w HQ Hw).
      destruct (runCall fl depth c w) as [[[]|] w1]; simpl in *; auto.
  - done.
  - done.
  - done.
  - done.
  - intros depth w HQ Hw. cbn [runCall fst snd].
    apply Forall_app. split; [done|]. constructor; [|done]. by apply HQ.
  - intros depth w HQ Hw. cbn [runCall]. unfold unstable_runWithPriority.
    match goal with |- context [runProgram fl (S depth) p ?w0] =>
      pose proof (IHp (S depth) w0) as IH;
      destruct (runProgram fl (S depth) p w0) as [r w1] end.
    apply IH; [|done]. intros d l Hd. apply HQ. lia.
  - intros depth w HQ Hw. cbn [runCall]. unfold unstable_next.
    match goal with |- context [runProgram fl (S depth) p ?w0] =>
      pose proof (IHp (S depth) w0) as IH;
      destruct (runProgram fl (S depth) p w0) as [r w1] end.
    apply IH; [|done]. intros d l Hd. apply HQ. lia.
  - intros depth w HQ Hw. cbn [runCall]. unfold callWrapped.
    cbn [wrappedCallback parentPriorityLevel].
    match goal with |- context [runProgram fl (S depth) p ?w0] =>
      pose proof (IHp (S depth) w0) as IH;
      destruct (runProgram fl (S depth) p w0) as [r w1] end.
    apply IH; [|done]. intros d l Hd. apply HQ. lia.
Qed.

Lemma runCall_level fl depth c w :
  currentPriorityLevel (runCall fl depth c w).2.1 = currentPriorityLevel w.1.
Proof.
  pose proof (runProgram_level fl (Body [c] true) depth w) as H.
  cbn zeta in H. rewrite runProgram_Body in H. simpl in H.
  by destruct (runCall fl depth c w) as [[[]|] w1].
Qed.

Lemma runCall_readings_deeper fl (Q : nat * PriorityLevel -> Prop) depth c w :
  (forall d l, depth <= d -> Q (d, l))%nat ->
  Forall Q w.2 -> Forall Q (runCall fl depth c w).2.2.
Proof.
  intros HQ Hw.
  pose proof (runProgram_readings_deeper fl Q (Body [c] true) depth w HQ Hw)
    as H.
  rewrite runProgram_Body in H. simpl in H.
  by destruct (runCall fl depth c w) as [[[]|] w1].
Qed.

(** Whatever a handler calls, every reading it makes itself shows the
    level it was entered at. *)
Lemma runProgram_readAt fl depth p L w :
  currentPriorityLevel w.1 = L ->
  readAt depth L w.2 ->
  readAt depth L (runProgram fl depth p w).2.2.
Proof.
  destruct p as [calls returns]. rewrite runProgram_Body.
  revert w. induction calls as [|c rest IHrest]; intros w HL Hw; simpl.
  - by destruct returns.
  - assert (readAt depth L (runCall fl depth c w).2.2) as Hc.
    { assert (forall h (w0 : State * Readings),
                w0.2 = w.2 ->
                readAt depth L (runProgram fl (S depth) h w0).2.2) as Hdeep.
      { intros h w0 Hw0. apply runProgram_readings_deeper.
        - intros d l Hd ?. simpl in *. lia.
        - by rewrite Hw0. }
      destruct c; cbn [runCall fst snd]; try done.
      - apply Forall_app. split; [done|].
        constructor; [|done]. intros _. done.
      - unfold unstable_runWithPriority.
        match goal with |- context [runProgram fl (S depth) ?h ?w0] =>
          pose proof (Hdeep h w0 eq_refl) as Hh;
          destruct (runProgram fl (S depth) h w0) as [r w1] end.
        done.
      - unfold unstable_next.
        match goal with |- context [runProgram fl (S depth) ?h ?w0] =>
          pose proof (Hdeep h w0 eq_refl) as Hh;
          destruct (runProgram fl (S depth) h w0) as [r w1] end.
        done.
      - unfold callWrapped. cbn [wrappedCallback parentPriorityLevel].
        match goal with |- context [runProgram fl (S depth) ?h ?w0] =>
          pose proof (Hdeep h w0 eq_refl) as Hh;
          destruct (runProgram fl (S depth) h w0) as [r w1] end.
        done. }
    pose proof (runCall_level fl depth c w) as Hlevel.
    destruct (runCall fl depth c w) as [[[]|] w1]; simpl in *; [|done].
    apply IHrest; [congruence|done].
Qed.

(** Readings are added at the end. *)
Lemma runProgram_readings_prefix fl p :
  forall depth w, w.2 `prefix_of` (runProgram fl depth p w).2.2.
Proof.
  induction p using Program_Call_ind with
    (Q := fun c => forall depth w, w.2 `prefix_of` (runCall fl depth c w).2.2).
  - intros depth w. rewrite runProgram_Body.
    revert w. induction H as [|c rest Hc _ IHrest]; intros w; simpl.
    + by destruct returns.
    + specialize (Hc depth w).
      destruct (runCall fl depth c w) as [[[]|] w1]; simpl in *; [|done].
      etrans; [exact Hc|apply IHrest].
  - done.
  - done.
  - done.
  - done.
  - intros depth w. cbn [runCall fst snd]. by apply prefix_app_r.
  - intros depth w. cbn [runCall]. unfold unstable_runWithPriority.
    match goal with |- context [runProgram fl (S depth) p ?w0] =>
      pose proof (IHp (S depth) w0) as IH;
      destruct (runProgram fl (S depth) p w0) as [r w1] end.
    done.
  - intros depth w. cbn [runCall]. unfold unstable_next.
    match goal with |- context [runProgram fl (S depth) p ?w0] =>
      pose proof (IHp (S depth) w0) as IH;
      destruct (runProgram fl (S depth) p w0) as [r w1] end.
    done.
  - intros depth w. cbn [runCall]. unfold callWrapped.
    cbn [wrappedCallback parentPriorityLevel].
    match goal with |- context [runProgram fl (S depth) p ?w0] =>
      pose proof (IHp (S depth) w0) as IH;
      destruct (runProgram fl (S depth) p w0) as [r w1] end.
    done.
Qed.

Lemma runProgram_first_reading fl depth calls returns s :
  head (runProgram fl depth
          (Body (CallGetCurrentPriorityLevel :: calls) returns) (s, [])).2.2
  = Some (depth, currentPriorityLevel s).
Proof.
  rewrite runProgram_Body. cbn [runCalls runCall fst snd app].
  pose proof (runProgram_readings_prefix fl (Body calls returns) depth
                (s, [(depth, unstable_getCurrentPriorityLevel s)])) as Hp.
  rewrite runProgram_Body in Hp. cbn [snd] in Hp.
  destruct Hp as [more ->]. done.
Qed.

(** What a handler sees, entered at the level [L] from a state whose level
    was [L0], and what is left once the level is put back. *)
Lemma handler_entered fl h L s :
  let '(result, (s', readings)) :=
    runProgram fl 1 h (with_currentPriorityLevel L s, []) in
  readAt 1 L readings
  /\ (forall calls returns,
        h = Body (CallGetCurrentPriorityLevel :: calls) returns ->
        head readings = Some (1%nat, L)).
Proof.
  pose proof (runProgram_readAt fl 1 h L (with_currentPriorityLevel L s, [])
                eq_refl (Forall_nil_2 _)) as Hread.
  destruct (runProgram fl 1 h (with_currentPriorityLevel L s, []))
    as [result [s' readings]] eqn:Hrun.
  split; [done|].
  intros calls returns ->.
  pose proof (runProgram_first_reading fl 1 calls returns
                (with_currentPriorityLevel L s)) as Hfirst.
  by rewrite Hrun in Hfirst.
Qed.


(** X2.  [unstable_next(eventHandler)] runs the handler at Normal
    priority when the current level is Immediate, UserBlocking or Normal,
    and at the current level when that is lower: every reading the handler
    makes itself shows that level, whatever it calls in between.  Once the
    call is over, by return or by exception, the current level is what it
    was before the call. *)
Theorem next_handler_level fl h s :
  let '(result, (s', readings)) :=
    unstable_next (runProgram fl 1 h) (s, []) in
  let level := nextPriority (currentPriorityLevel s) in
  currentPriorityLevel s' = currentPriorityLevel s
  /\ readAt 1 level readings
  /\ (forall calls returns,
        h = Body (CallGetCurrentPriorityLevel :: calls) returns ->
        head readings = Some (1%nat, level))
  /\ level <> ImmediatePriority /\ level <> UserBlockingPriority
  /\ result = (runProgram fl 1 h (with_currentPriorityLevel level s, [])).1.
Proof.
  unfold unstable_next. cbn [fst snd].
  replace (match currentPriorityLevel s with
           | ImmediatePriority | UserBlockingPriority | NormalPriority =>
             NormalPriority
           | _ => currentPriorityLevel s
           end) with (nextPriority (currentPriorityLevel s))
    by (by destruct (currentPriorityLevel s)).
  pose proof (handler_entered fl h (nextPriority (currentPriorityLevel s)) s)
    as H.
  destruct (runProgram fl 1 h _) as [result [s' readings]].
  destruct H as [H1 H2].
  repeat split; try done; by destruct (currentPriorityLevel s).
Qed.

(** X3.  The function [unstable_wrapCallback(callback)] returns runs the
    callback, whenever and at whatever level it is called, at the level
    that was current when it was wrapped: every reading the callback makes
    itself shows that level.  Once the call is over, by return or by
    exception, the current level is what it was before the call. *)
Theorem wrapCallback_handler_level fl h (s0 : State) (r0 : Readings) s :
  let wrapped := unstable_wrapCallback (runProgram fl 1 h) (s0, r0) in
  let '(result, (s', readings)) := callWrapped wrapped (s, []) in
  currentPriorityLevel s' = currentPriorityLevel s
  /\ readAt 1 (currentPriorityLevel s0) readings
  /\ (forall calls returns,
        h = Body (CallGetCurrentPriorityLevel :: calls) returns ->
        head readings = Some (1%nat, currentPriorityLevel s0))
  /\ result
     = (runProgram fl 1 h
          (with_currentPriorityLevel (currentPriorityLevel s0) s, [])).1.
Proof.
  unfold unstable_wrapCallback, callWrapped.
  cbn [fst snd wrappedCallback parentPriorityLevel].
  pose proof (handler_entered fl h (currentPriorityLevel s0) s) as H.
  destruct (runProgram fl 1 h _) as [result [s' readings]].
  destruct H as [H1 H2]. by repeat split.
Qed.

(** A handler that reads the level, runs a nested handler at Immediate
    priority, in which it reads again, and reads once more after it; and
    the same with a nested handler that throws, which ends the outer one
    too. *)
Example runWithPriority_nested :
  let nested returns :=
    Body [CallGetCurrentPriorityLevel;
          CallRunWithPriority ImmediatePriority
            (Body [CallGetCurrentPriorityLevel] returns);
          CallGetCurrentPriorityLevel] true in
  let run returns :=
    unstable_runWithPriority LowPriority
      (runProgram productionFlags 1 (nested returns))
      (initialState 0 5, []) in
  (run true).2.2
  = [(1%nat, LowPriority); (2%nat, ImmediatePriority); (1%nat, LowPriority)]
  /\ (run false).1 = Threw
  /\ (run false).2.2 = [(1%nat, LowPriority); (2%nat, ImmediatePriority)]
  /\ currentPriorityLevel (run false).2.1 = NormalPriority.
Proof. by repeat split. Qed.

End SchedulerApiFacts.

(* ===================================================================== *)
(** * Timers, the work loop and its callers: further properties *)
(* ===================================================================== *)

Module SchedulerLoopFacts.
Import Scheduler SchedulerFacts SchedulerApi.

(** ** advanceTimers *)

Lemma advanceTimers_step_settled fl ct s :
  advanceTimers_step fl ct s = None <-> timersSettled ct s.
Proof.
  unfold advanceTimers_step, timersSettled.
  destruct (peek (timerQueue s)) as [timer|]; [|by split].
  destruct (callback (taskAt (tasks s) timer)) eqn:Hcb; cbn [isNull].
  - split; [done|]. intros H. by destruct (H timer eq_refl).
  - destruct (startTime (taskAt (tasks s) timer) <=? ct) eqn:Hle.
    + split; [done|]. intros H. destruct (H timer eq_refl). lia.
    + split; [|done]. intros _ ? [= <-]. rewrite Hcb. split; [done|lia].
  - destruct (startTime (taskAt (tasks s) timer) <=? ct) eqn:Hle.
    + split; [done|]. intros H. destruct (H timer eq_refl). lia.
    + split; [|done]. intros _ ? [= <-]. rewrite Hcb. split; [done|lia].
Qed.

Lemma taskAt_default_callback ts a :
  callback (taskAt ts a) <> VNull -> (a < length ts)%nat.
Proof.
  intros H. destruct (ts !! a) as [t|] eqn:Ht.
  - by eapply lookup_lt_Some.
  - unfold taskAt in H. by rewrite Ht in H.
Qed.

(** One turn of the loop: the root of the delayed queue leaves it, and
    either was cancelled and is dropped, or is due and goes on the ready
    queue, sorted by its expiration time. *)
Lemma advanceTimers_step_spec fl ct s s' :
  advanceTimers_step fl ct s = Some s' ->
  control s' = control s
  /\ length (tasks s') = length (tasks s)
  /\ (forall a, settled (taskAt (tasks s') a) = settled (taskAt (tasks s) a))
  /\ (forall a,
        sortIndex (taskAt (tasks s) a) = expirationTime (taskAt (tasks s) a) ->
        sortIndex (taskAt (tasks s') a) = expirationTime (taskAt (tasks s') a))
  /\ exists timer,
       peek (timerQueue s) = Some timer
       /\ timerQueue s ≡ₚ timer :: timerQueue s'
       /\ ((callback (taskAt (tasks s) timer) = VNull
            /\ taskQueue s' = taskQueue s)
           \/ (callback (taskAt (tasks s) timer) <> VNull
               /\ startTime (taskAt (tasks s) timer) <= ct
               /\ taskQueue s' ≡ₚ timer :: taskQueue s
               /\ sortIndex (taskAt (tasks s') timer)
                  = expirationTime (taskAt (tasks s') timer))).
Proof.
  unfold advanceTimers_step. intros Hstep.
  destruct (peek (timerQueue s)) as [timer|] eqn:Hpeek; [|done].
  assert (timerQueue s ≡ₚ timer :: timerQueue (popTimerQueue s)) as Hpop
    by (by apply pop_Permutation).
  destruct (isNull (callback (taskAt (tasks s) timer))) eqn:Hnull.
  - simplify_eq. repeat (split; [done|]).
    exists timer. split; [done|]. split; [done|]. left.
    split; [|done]. by destruct (callback (taskAt (tasks s) timer)).
  - destruct (startTime (taskAt (tasks s) timer) <=? ct) eqn:Hle; [|done].
    assert (callback (taskAt (tasks s) timer) <> VNull) as Hcb
      by (intros Hc; by rewrite Hc in Hnull).
    pose proof (taskAt_default_callback _ _ Hcb) as Hlt.
    set (g := fun t : Task =>
           if enableProfiling fl
           then set_isQueued true
                  (set_sortIndex (expirationTime (taskAt (tasks s) timer)) t)
           else set_sortIndex (expirationTime (taskAt (tasks s) timer)) t).
    assert (tasks s' = alter g timer (tasks s)
            /\ taskQueue s' ≡ₚ timer :: taskQueue s
            /\ timerQueue s' = timerQueue (popTimerQueue s)
            /\ control s' = control s) as (Hts & Htq & Hmq & Hctl).
    { subst g. destruct (enableProfiling fl); simplify_eq; simpl.
      - rewrite list_alter_alter_eq. repeat split; try done.
        apply push_Permutation.
      - repeat split; try done. apply push_Permutation. }
    assert (forall t, settled (g t) = settled t) as Hg
      by (intros t; subst g; by destruct (enableProfiling fl)).
    assert (forall t, sortIndex (g t) = expirationTime (taskAt (tasks s) timer))
      as Hgs by (intros t; subst g; by destruct (enableProfiling fl)).
    assert (forall a, settled (taskAt (tasks s') a)
                      = settled (taskAt (tasks s) a)) as Hsettled.
    { intros a. rewrite Hts. destruct (decide (a = timer)) as [->|Hne].
      - by rewrite taskAt_alter_eq.
      - by rewrite taskAt_alter_ne. }
    assert (sortIndex (taskAt (tasks s') timer)
            = expirationTime (taskAt (tasks s') timer)) as Hsorted.
    { pose proof (Hsettled timer) as Hst. unfold settled in Hst.
      injection Hst as _ _ _ _ He. rewrite He.
      by rewrite Hts, taskAt_alter_eq. }
    split; [done|]. split; [by rewrite Hts, length_alter|].
    split; [done|]. split.
    + intros a Ha. destruct (decide (a = timer)) as [->|Hne]; [done|].
      rewrite Hts, taskAt_alter_ne by done. done.
    + exists timer. split; [done|]. split; [by rewrite Hmq|]. right.
      repeat split; try done. lia.
Qed.

Lemma advanceTimers_loop_spec fl ct fuel :
  forall s,
    let s' := advanceTimers_loop fuel fl ct s in
    control s' = control s
    /\ length (tasks s') = length (tasks s)
    /\ (forall a, settled (taskAt (tasks s') a) = settled (taskAt (tasks s) a))
    /\ (forall a,
          sortIndex (taskAt (tasks s) a) = expirationTime (taskAt (tasks s) a) ->
          sortIndex (taskAt (tasks s') a) = expirationTime (taskAt (tasks s') a))
    /\ exists moved dropped,
         timerQueue s ≡ₚ dropped ++ moved ++ timerQueue s'
         /\ taskQueue s' ≡ₚ moved ++ taskQueue s
         /\ Forall (fun a => callback (taskAt (tasks s) a) = VNull) dropped
         /\ Forall (fun a =>
                      callback (taskAt (tasks s) a) <> VNull
                      /\ startTime (taskAt (tasks s) a) <= ct
                      /\ sortIndex (taskAt (tasks s') a)
                         = expirationTime (taskAt (tasks s) a)) moved.
Proof.
  induction fuel as [|fuel IH]; intros s; cbn zeta.
  - simpl. repeat (split; [done|]). exists [], []. by repeat split.
  - simpl. destruct (advanceTimers_step fl ct s) as [s1|] eqn:Hstep.
    2: { repeat (split; [done|]). exists [], []. by repeat split. }
    destruct (advanceTimers_step_spec fl ct s s1 Hstep)
      as (Hc1 & Hl1 & Hs1 & Hsort1 & timer & Hpeek & Hmq & Hcase).
    destruct (IH s1) as (Hc & Hl & Hs & Hsort & moved & dropped
                          & Hperm & Htq & Hdropped & Hmoved).
    set (s' := advanceTimers_loop fuel fl ct s1) in *.
    assert (forall a, settled (taskAt (tasks s') a)
                      = settled (taskAt (tasks s) a)) as Hsettled
      by (intros a; by rewrite Hs, Hs1).
    split; [congruence|]. split; [congruence|]. split; [done|].
    split; [auto|].
    assert (forall a, callback (taskAt (tasks s1) a)
                      = callback (taskAt (tasks s) a)
                      /\ startTime (taskAt (tasks s1) a)
                         = startTime (taskAt (tasks s) a)
                      /\ expirationTime (taskAt (tasks s1) a)
                         = expirationTime (taskAt (tasks s) a)) as Hsame.
    { intros a. pose proof (Hs1 a) as H. unfold settled in H.
      by injection H as _ -> _ -> ->. }
    assert (Forall (fun a => callback (taskAt (tasks s) a) = VNull) dropped)
      as Hdropped'.
    { eapply Forall_impl; [exact Hdropped|]. intros a Ha. simpl in Ha.
      destruct (Hsame a) as (<- & _). done. }
    assert (Forall (fun a =>
                callback (taskAt (tasks s) a) <> VNull
                /\ startTime (taskAt (tasks s) a) <= ct
                /\ sortIndex (taskAt (tasks s') a)
                   = expirationTime (taskAt (tasks s) a)) moved) as Hmoved'.
    { eapply Forall_impl; [exact Hmoved|]. intros a Ha. simpl in Ha.
      destruct (Hsame a) as (<- & <- & <-). done. }
    destruct Hcase as [(Hnull & Hq)|(Hlive & Hdue & Hq & Hsorted)].
    + exists moved, (timer :: dropped). split; [|split; [|split]].
      * rewrite Hmq, Hperm. done.
      * by rewrite Htq, Hq.
      * by constructor.
      * done.
    + exists (timer :: moved), dropped. split; [|split; [|split]].
      * rewrite Hmq, Hperm. apply Permutation_middle.
      * rewrite Htq, Hq. symmetry. apply Permutation_middle.
      * done.
      * constructor; [|done]. split; [done|]. split; [done|].
        pose proof (Hsort timer Hsorted) as Hfinal.
        rewrite Hfinal.
        pose proof (Hsettled timer) as H. unfold settled in H.
        by injection H as _ _ _ _ ->.
Qed.


(** ** Invariants of the work loop *)

Section LoopInvariant.

Variable P : State -> Prop.
Variable fl : FeatureFlags.

Hypothesis P_set_callback :
  forall a v s, P s -> P (updateTask a (set_callback v) s).
Hypothesis P_set_isQueued :
  forall a b s, P s -> P (updateTask a (set_isQueued b) s).
Hypothesis P_currentPriorityLevel :
  forall p s, P s -> P (with_currentPriorityLevel p s).
Hypothesis P_currentTask :
  forall t s, P s -> P (with_currentTask t s).
Hypothesis P_recordCall :
  forall task b s, P s -> P (with_host (recordCall task b) s).
Hypothesis P_elapse :
  forall dt s, P s -> P (with_host (elapse dt) s).
Hypothesis P_requestHostTimeout :
  forall ms s, P s -> P (with_host (requestHostTimeout ms) s).
Hypothesis P_scheduleCallback :
  forall p cb opts s, P s -> P (unstable_scheduleCallback fl p cb opts s).2.
Hypothesis P_popTaskQueue :
  forall s, P s -> P (popTaskQueue s).
Hypothesis P_advanceTimers :
  forall ct s, P s -> P (advanceTimers fl ct s).

Lemma cancelCallback_invariant task s :
  P s -> P (unstable_cancelCallback fl task s).
Proof.
  intros Hs. unfold unstable_cancelCallback.
  apply P_set_callback. repeat case_match; auto.
Qed.

Lemma runOps_invariant ops s : P s -> P (runOps fl ops s).
Proof.
  revert s. induction ops as [|op ops IH]; intros s Hs; [done|].
  rewrite runOps_cons. apply IH.
  destruct op; cbn [runOp]; auto using cancelCallback_invariant.
Qed.

Lemma invokeCallback_invariant ct task run s :
  P s -> P (invokeCallback fl ct task run s).2.
Proof.
  intros Hs. unfold invokeCallback, beginCallback.
  destruct (run _) as [ops [v|]]; cbn [snd].
  - unfold settleCallback.
    assert (P (runOps fl ops
                 (with_host
                    (recordCall task
                       (expirationTime
                          (taskAt (tasks (updateTask task (set_callback VNull) s))
                             task) <=? ct))
                    (with_currentPriorityLevel
                       (priorityLevel
                          (taskAt (tasks (updateTask task (set_callback VNull) s))
                             task))
                       (updateTask task (set_callback VNull) s))))) as H
      by auto using runOps_invariant.
    destruct v; repeat case_match; auto.
  - auto using runOps_invariant.
Qed.

Lemma workLoop_finish_invariant ct s : P s -> P (workLoop_finish ct s).2.
Proof. intros Hs. unfold workLoop_finish. repeat case_match; simpl; auto. Qed.

Lemma workLoop_loop_invariant kind htr fuel :
  forall ct s r s',
    workLoop_loop fuel fl kind htr ct s = Some (r, s') -> P s -> P s'.
Proof.
  induction fuel as [|fuel IH]; intros ct s r s' Hloop Hs.
  - simpl in Hloop.
    assert (Some (workLoop_finish ct s) = Some (r, s') -> P s') as Hfin.
    { intros [= H]. pose proof (workLoop_finish_invariant ct s Hs) as Hf.
      by rewrite H in Hf. }
    repeat case_match; try discriminate; auto.
  - cbn [workLoop_loop] in Hloop.
    assert (Some (workLoop_finish ct s) = Some (r, s') -> P s') as Hfin.
    { intros [= H]. pose proof (workLoop_finish_invariant ct s Hs) as Hf.
      by rewrite H in Hf. }
    destruct (currentTask s) as [task|]; [|auto].
    destruct (_ && isSchedulerPaused s); [auto|].
    destruct (_ && (_ || _)); [auto|].
    destruct (callback (taskAt (tasks s) task)) as [| |run] eqn:Hcb.
    1,2: eapply IH; [exact Hloop|]; auto.
    pose proof (invokeCallback_invariant ct task run s Hs) as Hinv.
    destruct (invokeCallback fl ct task run s) as [[|] s1]; cbn [snd] in Hinv.
    + eapply IH; [exact Hloop|]. auto.
    + by simplify_eq.
Qed.

Lemma workLoop_invariant kind htr fuel t0 s r s' :
  workLoop fuel fl kind htr t0 s = Some (r, s') -> P s -> P s'.
Proof.
  unfold workLoop. intros Hloop Hs.
  eapply workLoop_loop_invariant; [exact Hloop|]. auto.
Qed.

End LoopInvariant.

(** ** What the work loop reports *)

Lemma peek_nonempty (q : list nat) : peek q <> None <-> q <> [].
Proof. by destruct q. Qed.

Lemma timersSettled_atQueueHead fl ct s :
  timersSettled ct
    (with_currentTask (peek (taskQueue (advanceTimers fl ct s)))
       (advanceTimers fl ct s)).
Proof.
  pose proof (advanceTimers_complete fl ct s) as H.
  apply advanceTimers_step_settled in H. exact H.
Qed.

Lemma workLoop_finish_outcome ct s b s' :
  currentTask s = peek (taskQueue s) ->
  timersSettled ct s ->
  workLoop_finish ct s = (Finished b, s') ->
  (b = true <-> taskQueue s' <> [])
  /\ clock (host s') = clock (host s)
  /\ (b = false ->
      forall timer,
        peek (timerQueue s') = Some timer ->
        hostTimeout (host s')
        = Some (startTime (taskAt (tasks s') timer) - ct)
        /\ ct < startTime (taskAt (tasks s') timer)).
Proof.
  intros Hcur Hsettled Hfin. unfold workLoop_finish in Hfin.
  destruct (currentTask s) as [task|] eqn:Hc.
  - simplify_eq. split; [|split; [done|done]].
    split; [|done]. intros _. apply peek_nonempty. by rewrite <-Hcur.
  - destruct (peek (timerQueue s)) as [firstTimer|] eqn:Hpeek; simplify_eq.
    + split; [|split; [done|]].
      * split; [done|]. intros Hq. apply peek_nonempty in Hq.
        simpl in Hq. by rewrite <-Hcur in Hq.
      * intros _ timer Htimer. simpl in *. simplify_eq.
        split; [done|]. by destruct (Hsettled _ Hpeek).
    + split; [|split; [done|]].
      * split; [done|]. intros Hq. apply peek_nonempty in Hq.
        simpl in Hq. by rewrite <-Hcur in Hq.
      * intros _ timer Htimer. simpl in *. congruence.
Qed.

Lemma workLoop_loop_outcome fl kind htr fuel :
  forall ct s b s',
    currentTask s = peek (taskQueue s) ->
    timersSettled ct s ->
    workLoop_loop fuel fl kind htr ct s = Some (Finished b, s') ->
    (b = true <-> taskQueue s' <> [])
    /\ (b = false ->
        forall timer,
          peek (timerQueue s') = Some timer ->
          exists ct',
            hostTimeout (host s')
            = Some (startTime (taskAt (tasks s') timer) - ct')
            /\ ct' < startTime (taskAt (tasks s') timer)
            /\ ((ct' = ct /\ clock (host s') = clock (host s))
                \/ ct' = clock (host s'))).
Proof.
  assert (forall ct s b s',
            currentTask s = peek (taskQueue s) ->
            timersSettled ct s ->
            Some (workLoop_finish ct s) = Some (Finished b, s') ->
            (b = true <-> taskQueue s' <> [])
            /\ (b = false ->
                forall timer,
                  peek (timerQueue s') = Some timer ->
                  exists ct',
                    hostTimeout (host s')
                    = Some (startTime (taskAt (tasks s') timer) - ct')
                    /\ ct' < startTime (taskAt (tasks s') timer)
                    /\ ((ct' = ct /\ clock (host s') = clock (host s))
                        \/ ct' = clock (host s')))) as Hfin.
  { intros ct s b s' Hcur Hsettled [= H].
    destruct (workLoop_finish_outcome ct s b s' Hcur Hsettled H)
      as (Hb & Hclock & Harm).
    split; [done|]. intros -> timer Htimer.
    destruct (Harm eq_refl timer Htimer) as [H1 H2].
    exists ct. split; [done|]. split; [done|]. by left. }
  induction fuel as [|fuel IH]; intros ct s b s' Hcur Hsettled Hloop.
  - simpl in Hloop.
    repeat case_match; try discriminate;
      (eapply Hfin; [|exact Hsettled|exact Hloop]; congruence).
  - cbn [workLoop_loop] in Hloop.
    destruct (currentTask s) as [task|] eqn:Hc;
      [|eapply Hfin; [|exact Hsettled|exact Hloop]; congruence].
    destruct (_ && isSchedulerPaused s);
      [eapply Hfin; [|exact Hsettled|exact Hloop]; congruence|].
    destruct (_ && (_ || _));
      [eapply Hfin; [|exact Hsettled|exact Hloop]; congruence|].
    destruct (callback (taskAt (tasks s) task)) as [| |run] eqn:Hcb.
    1,2: apply IH in Hloop; [|done|done]; destruct Hloop as [Hb Harm];
         (split; [done|]); intros -> timer Htimer;
         destruct (Harm eq_refl timer Htimer) as (ct' & H1 & H2 & H3);
         exists ct'; (split; [done|]); (split; [done|]);
         destruct H3 as [[-> H3]| ->]; [by left|by right].
    destruct (invokeCallback fl ct task run s) as [[|] s1] eqn:Hinv;
      [|by simplify_eq].
    assert (timersSettled (getCurrentTime s1)
              (with_currentTask
                 (peek (taskQueue (advanceTimers fl (getCurrentTime s1) s1)))
                 (advanceTimers fl (getCurrentTime s1) s1))) as Hsettled1.
    { apply timersSettled_atQueueHead. }
    apply IH in Hloop; [|done|done]. destruct Hloop as [Hb Harm].
    split; [done|]. intros -> timer Htimer.
    destruct (Harm eq_refl timer Htimer) as (ct' & H1 & H2 & H3).
    exists ct'. split; [done|]. split; [done|]. right.
    destruct H3 as [[-> H3]| ->]; [|done].
    rewrite H3. simpl. by rewrite advanceTimers_host.
Qed.

Lemma workLoop_outcome fuel fl kind htr t0 s b s' :
  workLoop fuel fl kind htr t0 s = Some (Finished b, s') ->
  (b = true <-> taskQueue s' <> [])
  /\ (b = false ->
      forall timer,
        peek (timerQueue s') = Some timer ->
        exists ct,
          hostTimeout (host s') = Some (startTime (taskAt (tasks s') timer) - ct)
          /\ ct < startTime (taskAt (tasks s') timer)
          /\ (ct = t0 \/ ct = clock (host s'))).
Proof.
  unfold workLoop. intros Hloop.
  assert (timersSettled t0
            (with_currentTask (peek (taskQueue (advanceTimers fl t0 s)))
               (advanceTimers fl t0 s))) as Hsettled.
  { apply timersSettled_atQueueHead. }
  apply workLoop_loop_outcome in Hloop; [|done|done].
  destruct Hloop as [Hb Harm].
  split; [done|]. intros -> timer Htimer.
  destruct (Harm eq_refl timer Htimer) as (ct' & H1 & H2 & H3).
  exists ct'. split; [done|]. split; [done|]. destruct H3 as [[-> _]| ->]; auto.
Qed.

(** X5.  When the work loop returns, it reports more work exactly when
    the ready queue is not empty.  When it reports none and a delayed
    task is left, it has asked the host for a timeout for the root of the
    delayed queue, which starts later than [currentTime], with the delay
    [startTime - currentTime]; [currentTime] is the loop's own reading of
    the time, the time it was started with or the clock after the last
    callback it ran. *)
Theorem workLoop_reports_remaining_work fuel fl kind htr t0 s b s' :
  workLoop fuel fl kind htr t0 s = Some (Finished b, s') ->
  (b = true <-> taskQueue s' <> [])
  /\ (b = false ->
      forall timer,
        peek (timerQueue s') = Some timer ->
        exists ct,
          hostTimeout (host s') = Some (startTime (taskAt (tasks s') timer) - ct)
          /\ ct < startTime (taskAt (tasks s') timer)
          /\ (ct = t0 \/ ct = clock (host s'))).
Proof. apply workLoop_outcome. Qed.

Lemma workLoop_reports_remaining_work_witness :
  exists s',
    workLoop 1 productionFlags HostWithMessageChannel true 0 readyAndDelayed
    = Some (Finished false, s')
    /\ taskQueue s' = []
    /\ timerQueue s' = [1%nat]
    /\ hostTimeout (host s') = Some 10.
Proof.
  assert (exists s',
            workLoop 1 productionFlags HostWithMessageChannel true 0
              readyAndDelayed = Some (Finished false, s')) as [s' Hrun]
    by (eexists; vm_compute; reflexivity).
  exists s'. split; [exact Hrun|].
  destruct (workLoop_reports_remaining_work _ _ _ _ _ _ _ _ Hrun)
    as [Hb Harm].
  vm_compute in Hrun. injection Hrun as <-.
  split; [reflexivity|]. split; [reflexivity|reflexivity].
Defined.

(** ** flushWork *)

Lemma advanceTimers_control fl ct s :
  control (advanceTimers fl ct s) = control s.
Proof.
  unfold advanceTimers.
  by destruct (advanceTimers_loop_spec fl ct (S (length (timerQueue s))) s)
    as (Hc & _).
Qed.

Lemma advanceTimers_moves_or_keeps fl ct s :
  length (tasks (advanceTimers fl ct s)) = length (tasks s)
  /\ forall a, settled (taskAt (tasks (advanceTimers fl ct s)) a)
               = settled (taskAt (tasks s) a).
Proof.
  unfold advanceTimers.
  by destruct (advanceTimers_loop_spec fl ct (S (length (timerQueue s))) s)
    as (_ & Hl & Hs & _).
Qed.

(** While work is being performed, no entry point a callback calls asks
    the host for a callback. *)
Lemma scheduleCallback_while_performing fl P cb opts s :
  isPerformingWork s = true ->
  let s' := (unstable_scheduleCallback fl P cb opts s).2 in
  isPerformingWork s' = true
  /\ isHostCallbackScheduled s' = isHostCallbackScheduled s
  /\ hostCallbackRequested (host s') = hostCallbackRequested (host s).
Proof.
  intros Hp. unfold unstable_scheduleCallback.
  destruct s as [ts tq mq n p c l w hc ht h]. simpl in *. subst w.
  destruct fl as [dbg prof]. destruct prof, hc; simpl;
    repeat case_match; by simpl.
Qed.

Lemma workLoop_while_performing fuel fl kind htr t0 s r s' c :
  workLoop fuel fl kind htr t0 s = Some (r, s') ->
  isPerformingWork s = true ->
  isHostCallbackScheduled s = false ->
  hostCallbackRequested (host s) = c ->
  isPerformingWork s' = true
  /\ isHostCallbackScheduled s' = false
  /\ hostCallbackRequested (host s') = c.
Proof.
  intros Hloop H1 H2 H3.
  apply (workLoop_invariant
           (fun s => isPerformingWork s = true
                     /\ isHostCallbackScheduled s = false
                     /\ hostCallbackRequested (host s) = c)
           fl) in Hloop; try done.
  - intros p cb opts s0 (Hp & Hs & Hr).
    destruct (scheduleCallback_while_performing fl p cb opts s0 Hp)
      as (Hp' & Hs' & Hr').
    split; [done|]. split; congruence.
  - intros ct s0 (Hp & Hs & Hr).
    pose proof (advanceTimers_control fl ct s0) as Hc. unfold control in Hc.
    injection Hc as _ _ _ _ -> -> _ ->. done.
Qed.

(** X6.  When [flushWork] is over, whether the loop returned or a
    callback threw, the scheduler is no longer performing work, it has no
    current task and the current priority level is the one before the
    call.  No host callback is scheduled and none was asked for during
    the call, whatever the callbacks scheduled: the host learns of the
    work left from the result alone, [true] exactly when the ready queue
    is not empty. *)
Theorem flushWork_restores fuel fl kind htr t0 s r s' :
  flushWork fuel fl kind htr t0 s = Some (r, s') ->
  isPerformingWork s' = false
  /\ currentTask s' = None
  /\ currentPriorityLevel s' = currentPriorityLevel s
  /\ isHostCallbackScheduled s' = false
  /\ hostCallbackRequested (host s') = hostCallbackRequested (host s)
  /\ (forall b, r = Finished b -> (b = true <-> taskQueue s' <> [])).
Proof.
  unfold flushWork. intros Hflush.
  set (s0 := with_isPerformingWork true _) in Hflush.
  destruct (workLoop fuel fl kind htr t0 s0) as [[r1 s1]|] eqn:Hloop;
    [|done].
  injection Hflush as <- <-.
  assert (hostCallbackRequested (host s0) = hostCallbackRequested (host s))
    as Hreq by (subst s0; simpl; by destruct (isHostTimeoutScheduled s)).
  assert (isHostCallbackScheduled s0 = false) as Hsched
    by (subst s0; simpl; by destruct (isHostTimeoutScheduled s)).
  destruct (workLoop_while_performing _ _ _ _ _ _ _ _ _ Hloop eq_refl Hsched
              Hreq) as (_ & H2 & H3).
  assert (currentPriorityLevel s0 = currentPriorityLevel s) as Hlevel
    by (subst s0; simpl; by destruct (isHostTimeoutScheduled s)).
  split; [done|]. split; [done|]. split; [done|].
  split; [by destruct (enableProfiling fl), r1, (currentTask s1)|].
  split; [by destruct (enableProfiling fl), r1, (currentTask s1)|].
  intros b ->. destruct (workLoop_outcome _ _ _ _ _ _ _ _ Hloop) as [Hb _].
  by destruct (enableProfiling fl), (currentTask s1).
Qed.

Lemma flushWork_restores_witness :
  let s :=
    runOps productionFlags
      [OpSchedule NormalPriority
         (VFunction (fun _ => Behave [OpElapse 10] (Return VNull)))
         OptionsAbsent;
       OpSchedule UserBlockingPriority completesAtOnce OptionsAbsent;
       OpSchedule NormalPriority completesAtOnce OptionsAbsent]
      (initialState 0 5) in
  exists s',
    flushWork 2 productionFlags HostWithMessageChannel true 0 s
    = Some (Finished true, s')
    /\ calls (host s') = [(1%nat, false); (0%nat, false)]
    /\ isPerformingWork s' = false
    /\ currentPriorityLevel s' = NormalPriority
    /\ hostCallbackRequested (host s') = true
    /\ taskQueue s' <> [].
Proof.
  intros s.
  assert (exists s',
            flushWork 2 productionFlags HostWithMessageChannel true 0 s
            = Some (Finished true, s')) as [s' Hrun]
    by (eexists; vm_compute; reflexivity).
  exists s'. split; [exact Hrun|].
  destruct (flushWork_restores _ _ _ _ _ _ _ _ Hrun)
    as (H1 & _ & H3 & _ & H5 & H6).
  split; [vm_compute in Hrun; by injection Hrun as <-|].
  split; [exact H1|]. split; [exact H3|]. split; [exact H5|].
  by apply (H6 true).
Defined.

(** ** handleTimeout *)

(** X7.  [handleTimeout(currentTime)] moves the delayed tasks that are
    due to the ready queue and leaves neither queue unattended.  When it
    is over, [isHostTimeoutScheduled] is false; if the ready queue is not
    empty, a host callback is scheduled, and it was asked of the host if
    none was scheduled before; if the ready queue is empty, no host
    callback was scheduled and a delayed task is left, the host was asked
    for a timeout for the root of the delayed queue, which starts later
    than [currentTime], with the delay [startTime - currentTime].  When a
    host callback was scheduled already, the host is asked nothing. *)
Theorem handleTimeout_attends_queues fl ct s :
  let s' := handleTimeout fl ct s in
  isHostTimeoutScheduled s' = false
  /\ timersSettled ct s'
  /\ (taskQueue s' <> [] -> isHostCallbackScheduled s' = true)
  /\ (isHostCallbackScheduled s = false ->
      (taskQueue s' <> [] -> hostCallbackRequested (host s') = true)
      /\ (taskQueue s' = [] ->
          isHostCallbackScheduled s' = false
          /\ forall timer,
               peek (timerQueue s') = Some timer ->
               hostTimeout (host s')
               = Some (startTime (taskAt (tasks s') timer) - ct)
               /\ ct < startTime (taskAt (tasks s') timer)))
  /\ (isHostCallbackScheduled s = true -> host s' = host s).
Proof.
  cbn zeta. unfold handleTimeout.
  set (s1 := advanceTimers fl ct (with_isHostTimeoutScheduled false s)).
  assert (timersSettled ct s1) as Hsettled.
  { apply (advanceTimers_step_settled fl). apply advanceTimers_complete. }
  pose proof (advanceTimers_control fl ct (with_isHostTimeoutScheduled false s))
    as Hc.
  fold s1 in Hc. unfold control in Hc. simpl in Hc.
  injection Hc as _ _ _ _ _ Hsched Htimeout Hhost.
  rewrite Hsched.
  destruct (isHostCallbackScheduled s) eqn:Hs; cbn [negb].
  - split; [done|]. split; [done|]. split; [by rewrite Hsched|].
    split; [done|]. done.
  - destruct (peek (taskQueue s1)) as [task|] eqn:Hpeek.
    + assert (taskQueue s1 <> []) as Hne
        by (apply peek_nonempty; by rewrite Hpeek).
      split; [done|]. split; [done|]. split; [done|].
      split; [|done]. intros _. split; [done|]. done.
    + assert (taskQueue s1 = []) as Hnil
        by (by destruct (taskQueue s1)).
      destruct (peek (timerQueue s1)) as [firstTimer|] eqn:Htimer.
      * split; [done|]. split; [done|]. split; [simpl; by rewrite Hnil|].
        split; [|done]. intros _. split; [simpl; by rewrite Hnil|].
        intros _. split; [done|]. intros timer Ht. simpl in Ht.
        rewrite Htimer in Ht. injection Ht as <-.
        split; [done|]. by destruct (Hsettled _ Htimer).
      * split; [done|]. split; [done|]. split; [by rewrite Hnil|].
        split; [|done]. intros _. split; [by rewrite Hnil|].
        intros _. split; [done|]. intros timer Ht. congruence.
Qed.

(** ** Pausing *)

(** X8.  In a build with [enableSchedulerDebugging], while the scheduler
    is paused the work loop calls no callback: it returns at once,
    whatever fuel it is given, with the record of calls and the callback
    of every task as it found them, and reports more work exactly when the
    ready queue is not empty.  It still moves the delayed tasks that are
    due to the ready queue before it returns. *)
Theorem workLoop_paused fl kind htr fuel t0 s :
  enableSchedulerDebugging fl = true ->
  isSchedulerPaused s = true ->
  exists b s',
    workLoop fuel fl kind htr t0 s = Some (Finished b, s')
    /\ calls (host s') = calls (host s)
    /\ (forall a, settled (taskAt (tasks s') a) = settled (taskAt (tasks s) a))
    /\ timersSettled t0 s'
    /\ (b = true <-> taskQueue s' <> []).
Proof.
  intros Hdbg Hpaused. unfold workLoop.
  set (s1 := with_currentTask _ _).
  pose proof (advanceTimers_control fl t0 s) as Hc. unfold control in Hc.
  injection Hc as _ Hp _ _ _ _ _ Hhost.
  pose proof (timersSettled_atQueueHead fl t0 s) as Hsettled. fold s1 in Hsettled.
  assert (workLoop_loop fuel fl kind htr t0 s1
          = Some (workLoop_finish t0 s1)) as Hloop.
  { destruct fuel; simpl; destruct (peek (taskQueue (advanceTimers fl t0 s)));
      try done; by rewrite Hdbg, Hp, Hpaused. }
  destruct (workLoop_finish t0 s1) as [[b|] s'] eqn:Hfin.
  2: { unfold workLoop_finish in Hfin. by repeat case_match. }
  exists b, s'. split; [done|].
  destruct (workLoop_finish_outcome t0 s1 b s' eq_refl Hsettled Hfin)
    as (Hb & _ & _).
  assert (tasks s' = tasks s1 /\ calls (host s') = calls (host s1)
          /\ timerQueue s' = timerQueue s1) as (Hts & Hcalls & Hmq).
  { unfold workLoop_finish in Hfin. repeat case_match; by simplify_eq. }
  split; [by rewrite Hcalls; simpl; rewrite Hhost|].
  split.
  - intros a. rewrite Hts. simpl.
    destruct (advanceTimers_moves_or_keeps fl t0 s) as (_ & Hs). apply Hs.
  - split; [|done]. intros timer Ht. rewrite Hts. rewrite Hmq in Ht.
    by apply Hsettled.
Qed.

Lemma workLoop_paused_witness :
  let fl := mkFlags true false in
  let s := unstable_pauseExecution (oneReadyTask completesAtOnce) in
  exists b s',
    workLoop 0 fl HostWithMessageChannel true 6000 s = Some (Finished b, s')
    /\ calls (host s') = calls (host s)
    /\ (forall a, settled (taskAt (tasks s') a) = settled (taskAt (tasks s) a))
    /\ timersSettled 6000 s'
    /\ (b = true <-> taskQueue s' <> []).
Proof.
  intros fl s.
  exact (workLoop_paused fl HostWithMessageChannel true 0 6000 s
           eq_refl eq_refl).
Defined.

(** Without [enableSchedulerDebugging] nothing reads [isSchedulerPaused]:
    every step of the loop commutes with a write to it. *)
Lemma advanceTimers_step_paused fl ct b s :
  advanceTimers_step fl ct (with_isSchedulerPaused b s)
  = with_isSchedulerPaused b <$> advanceTimers_step fl ct s.
Proof.
  unfold advanceTimers_step. destruct s as [ts tq mq n p c l w hc ht h].
  simpl. by repeat case_match.
Qed.

Lemma advanceTimers_loop_paused fl ct b fuel :
  forall s,
    advanceTimers_loop fuel fl ct (with_isSchedulerPaused b s)
    = with_isSchedulerPaused b (advanceTimers_loop fuel fl ct s).
Proof.
  induction fuel as [|fuel IH]; intros s; [done|].
  simpl. rewrite advanceTimers_step_paused.
  destruct (advanceTimers_step fl ct s) as [s1|]; simpl; [apply IH|done].
Qed.

Lemma advanceTimers_paused fl ct b s :
  advanceTimers fl ct (with_isSchedulerPaused b s)
  = with_isSchedulerPaused b (advanceTimers fl ct s).
Proof. unfold advanceTimers. apply advanceTimers_loop_paused. Qed.

Lemma scheduleCallback_paused fl P cb opts b s :
  unstable_scheduleCallback fl P cb opts (with_isSchedulerPaused b s)
  = ((unstable_scheduleCallback fl P cb opts s).1,
     with_isSchedulerPaused b (unstable_scheduleCallback fl P cb opts s).2).
Proof.
  unfold unstable_scheduleCallback.
  destruct s as [ts tq mq n p c l w hc ht h], fl as [dbg prof].
  unfold getCurrentTime, with_isSchedulerPaused.
  destruct prof; simpl; by repeat case_match.
Qed.

Lemma cancelCallback_paused fl task b s :
  unstable_cancelCallback fl task (with_isSchedulerPaused b s)
  = with_isSchedulerPaused b (unstable_cancelCallback fl task s).
Proof. by rewrite !cancelCallback_unfold. Qed.

Lemma runOps_paused fl ops b :
  forall s,
    runOps fl ops (with_isSchedulerPaused b s)
    = with_isSchedulerPaused b (runOps fl ops s).
Proof.
  induction ops as [|op ops IH]; intros s; [done|].
  rewrite !runOps_cons. rewrite <-IH. f_equal.
  destruct op; cbn [runOp].
  - by rewrite scheduleCallback_paused.
  - apply cancelCallback_paused.
  - done.
Qed.

Lemma settleCallback_paused fl task v b s :
  settleCallback fl task v (with_isSchedulerPaused b s)
  = with_isSchedulerPaused b (settleCallback fl task v s).
Proof.
  unfold settleCallback. destruct s as [ts tq mq n p c l w hc ht h].
  destruct v, (enableProfiling fl); simpl; by repeat case_match.
Qed.

Lemma invokeCallback_paused fl ct task run b s :
  invokeCallback fl ct task run (with_isSchedulerPaused b s)
  = ((invokeCallback fl ct task run s).1,
     with_isSchedulerPaused b (invokeCallback fl ct task run s).2).
Proof.
  unfold invokeCallback.
  assert (beginCallback ct task (with_isSchedulerPaused b s)
          = ((beginCallback ct task s).1,
             with_isSchedulerPaused b (beginCallback ct task s).2)) as ->
    by done.
  destruct (beginCallback ct task s) as [d s0]. cbn [fst snd].
  destruct (run d) as [ops [v|]]; rewrite runOps_paused;
    [by rewrite settleCallback_paused|done].
Qed.

Lemma workLoop_finish_paused ct b s :
  workLoop_finish ct (with_isSchedulerPaused b s)
  = ((workLoop_finish ct s).1, with_isSchedulerPaused b (workLoop_finish ct s).2).
Proof.
  unfold workLoop_finish. destruct s as [ts tq mq n p c l w hc ht h].
  simpl. by repeat case_match.
Qed.

Lemma workLoop_loop_paused fl kind htr b fuel :
  enableSchedulerDebugging fl = false ->
  forall ct s,
    workLoop_loop fuel fl kind htr ct (with_isSchedulerPaused b s)
    = (fun rs => (rs.1, with_isSchedulerPaused b rs.2))
        <$> workLoop_loop fuel fl kind htr ct s.
Proof.
  intros Hdbg.
  induction fuel as [|fuel IH]; intros ct s.
  - simpl. rewrite Hdbg. simpl. rewrite workLoop_finish_paused.
    by repeat case_match.
  - cbn [workLoop_loop]. rewrite Hdbg. cbn [andb].
    rewrite workLoop_finish_paused.
    change (currentTask (with_isSchedulerPaused b s)) with (currentTask s).
    change (tasks (with_isSchedulerPaused b s)) with (tasks s).
    change (host (with_isSchedulerPaused b s)) with (host s).
    destruct (currentTask s) as [task|]; [|done].
    destruct (_ && (_ || _)); [done|].
    destruct (callback (taskAt (tasks s) task)) as [| |run].
    1,2: apply (IH ct (with_currentTask (peek (taskQueue (popTaskQueue s)))
                         (popTaskQueue s))).
    rewrite invokeCallback_paused.
    destruct (invokeCallback fl ct task run s) as [[|] s1]; cbn [fst snd];
      [|done].
    change (getCurrentTime (with_isSchedulerPaused b s1))
      with (getCurrentTime s1).
    rewrite advanceTimers_paused.
    apply (IH (getCurrentTime s1)
             (with_currentTask
                (peek (taskQueue (advanceTimers fl (getCurrentTime s1) s1)))
                (advanceTimers fl (getCurrentTime s1) s1))).
Qed.

(** X9.  Without [enableSchedulerDebugging], [unstable_pauseExecution]
    does not stop the work loop: from the paused state the loop returns
    the result it returns from the state not paused, calls the same
    callbacks with the same arguments and leaves the same state, the
    paused mark apart. *)
Theorem pauseExecution_inert_without_debugging fl kind htr fuel t0 s :
  enableSchedulerDebugging fl = false ->
  workLoop fuel fl kind htr t0 (unstable_pauseExecution s)
  = (fun rs => (rs.1, unstable_pauseExecution rs.2))
      <$> workLoop fuel fl kind htr t0 s.
Proof.
  intros Hdbg. unfold workLoop, unstable_pauseExecution.
  rewrite advanceTimers_paused.
  apply (workLoop_loop_paused fl kind htr true fuel Hdbg t0
           (with_currentTask (peek (taskQueue (advanceTimers fl t0 s)))
              (advanceTimers fl t0 s))).
Qed.

Lemma pauseExecution_inert_without_debugging_witness :
  exists s',
    workLoop 1 productionFlags HostWithMessageChannel true 0
      (unstable_pauseExecution (oneReadyTask completesAtOnce))
    = Some (Finished false, s')
    /\ calls (host s') = [(0%nat, false)]
    /\ isSchedulerPaused s' = true.
Proof.
  rewrite (pauseExecution_inert_without_debugging productionFlags
             HostWithMessageChannel true 1 0 (oneReadyTask completesAtOnce)
             eq_refl).
  eexists. split; [vm_compute; reflexivity|]. by split.
Defined.

(** ** Task ids *)








End SchedulerLoopFacts.

(* ===================================================================== *)
(** * The host configuration in a browser, properties *)
(* ===================================================================== *)

Module HostConfigFacts.
Import HostConfig.

Lemma runHostCalls_invariant inputPending (R : HostState -> Prop) calls :
  (forall m c, R m -> R (runHostCall inputPending m c)) ->
  forall m, R m -> R (runHostCalls inputPending calls m).
Proof.
  intros Hcall. unfold runHostCalls.
  induction calls as [|c calls IH]; intros m Hm; simpl; auto.
Qed.

Lemma runEvents_invariant inputPending (R : HostState -> Prop) events :
  (forall m e, R m -> R (step inputPending m e)) ->
  forall m, R m -> R (runEvents inputPending events m).
Proof.
  intros Hstep. unfold runEvents.
  induction events as [|e events IH]; intros m Hm; simpl; auto.
Qed.

(** ** The yield interval *)






(** ** The message loop *)

Section MessageLoop.

Variable inputPending : bool.

Lemma runHostCall_atRest m c : atRest m -> atRest (runHostCall inputPending m c).
Proof.
  unfold atRest. intros [Hp Hcb]. destruct c; simpl; try done.
  - unfold requestHostCallback. simpl.
    destruct (isMessageLoopRunning m) eqn:Hrun; simpl.
    + split; [by rewrite Hrun|done].
    + split; [by rewrite Hp|done].
  - unfold requestPaint. destruct inputPending; simpl; by split.
  - unfold forceFrameRate.
    destruct ((fps <? 0) || (125 <? fps)), (0 <? fps); simpl; by split.
Qed.

Lemma runHostCall_insideCallback m c : insideCallback m -> insideCallback (runHostCall inputPending m c).
Proof.
  unfold insideCallback. intros [Hp Hrun]. destruct c; simpl; try done.
  - unfold requestHostCallback. simpl. by rewrite Hrun.
  - unfold requestPaint. destruct inputPending; simpl; by split.
  - unfold forceFrameRate.
    destruct ((fps <? 0) || (125 <? fps)), (0 <? fps); simpl; by split.
Qed.

Lemma performWorkUntilDeadline_atRest m :
  insideCallback m -> atRest (performWorkUntilDeadline inputPending m).2.
Proof.
  intros Hm. unfold performWorkUntilDeadline.
  destruct (scheduledHostCallback m) as [[run]|] eqn:Hcb.
  - set (m1 := set_entered _ _).
    assert (insideCallback m1) as Hm1 by done.
    destruct (run true (getCurrentTime m)) as [calls [hasMoreWork|]];
      cbn [snd];
      pose proof (runHostCalls_invariant inputPending insideCallback calls
                    runHostCall_insideCallback m1 Hm1) as [Hp Hrun];
      unfold atRest.
    + destruct hasMoreWork; simpl.
      * split; [by rewrite Hp, Hrun|done].
      * by split.
    + simpl. split; [by rewrite Hp, Hrun|done].
  - destruct Hm as [Hp Hrun]. unfold atRest. simpl.
    split; [done|]. by rewrite Hcb.
Qed.

Lemma step_atRest m e : atRest m -> atRest (step inputPending m e).
Proof.
  intros Hm. destruct e as [c| |id]; simpl.
  - by apply runHostCall_atRest.
  - destruct (posted m) as [|n] eqn:Hposted; [done|].
    apply performWorkUntilDeadline_atRest.
    destruct Hm as [Hp Hcb]. rewrite Hposted in Hp.
    destruct (isMessageLoopRunning m) eqn:Hrun; [|done].
    split; [simpl; lia|done].
  - destruct (list_find _ _) as [[i [[id' ms] [run]]]|]; [|done].
    apply (runHostCalls_invariant inputPending atRest _ runHostCall_atRest).
    done.
Qed.

(** X12.  Whatever is called and whatever happens after the module is
    loaded, there is never more than one message in flight on the
    channel: one exactly while [isMessageLoopRunning] holds, none
    otherwise, so a [requestHostCallback] made while the loop runs posts
    nothing.  And a callback that is scheduled has the loop running:
    there is a message in flight whose handler will call it. *)
Theorem message_loop_one_message_in_flight events t :
  let m := runEvents inputPending events (initialHost t) in
  posted m = (if isMessageLoopRunning m then 1%nat else 0%nat)
  /\ (forall callback,
        scheduledHostCallback m = Some callback ->
        isMessageLoopRunning m = true /\ posted m = 1%nat).
Proof.
  cbn zeta.
  pose proof (runEvents_invariant inputPending atRest events step_atRest
                (initialHost t)) as [Hp Hcb].
  { by split. }
  split; [done|]. intros callback Hsome.
  assert (isMessageLoopRunning
            (runEvents inputPending events (initialHost t)) = true) as Hrun
    by (apply Hcb; by rewrite Hsome).
  split; [done|]. by rewrite Hp, Hrun.
Qed.


End MessageLoop.

(** The loop at work: a callback is requested twice, runs when the
    message is delivered, asks for more time once and is done the second
    time; in between the frame rate is forced to 50. *)
Example message_loop_run :
  let callback :=
    HostFunction (fun _ currentTime => ([], Some (currentTime <? 10))) in
  let m :=
    runEvents false
      [EvCall (CallRequestHostCallback callback);
       EvCall (CallRequestHostCallback callback);
       EvMessage;
       EvCall (CallForceFrameRate 50);
       EvCall (CallElapse 10);
       EvMessage;
       EvMessage]
      (initialHost 0) in
  entered m = [(true, 0, 5); (true, 10, 30)]
  /\ posted m = 0%nat
  /\ isMessageLoopRunning m = false
  /\ scheduledHostCallback m = None.
Proof. by repeat split. Qed.

End HostConfigFacts.

(* ===================================================================== *)
(** * The reconciler's use of the scheduler, properties *)
(* ===================================================================== *)

Module SchedulerIntegrationFacts.
Import SchedulerApi SchedulerIntegration.

(** ** Priority levels *)

Lemma reactPriorityToSchedulerPriority_Some r p :
  reactPriorityToSchedulerPriority r = Some p ->
  95 <= r <= 99
  /\ forall s, Scheduler.currentPriorityLevel s = p ->
               getCurrentPriorityLevel s = Some r.
Proof.
  unfold reactPriorityToSchedulerPriority, getCurrentPriorityLevel,
    unstable_getCurrentPriorityLevel.
  repeat case_decide; intros [= <-]; subst r;
    (split; [done|]); by intros s ->.
Qed.

Lemma reactPriorityToSchedulerPriority_None r :
  reactPriorityToSchedulerPriority r = None <-> ~ 95 <= r <= 99.
Proof.
  unfold reactPriorityToSchedulerPriority, ImmediatePriority,
    UserBlockingPriority, NormalPriority, LowPriority, IdlePriority.
  repeat case_decide; split; try done; try lia.
Qed.

Lemma restore_currentPriorityLevel p s :
  Scheduler.with_currentPriorityLevel (Scheduler.currentPriorityLevel s)
    (Scheduler.with_currentPriorityLevel p s) = s.
Proof. by destruct s. Qed.

(** X14.  The two conversions between the reconciler's priority levels
    and the scheduler's are inverse to each other on the five levels
    from [IdlePriority] (95) to [ImmediatePriority] (99):
    [runWithPriority(level, fn)] runs [fn] at a scheduler level at which
    [getCurrentPriorityLevel()] returns [level], and leaves the
    scheduler's level as it was.  For any other number, [NoPriority] (90)
    among them, the conversion fails its invariant: [runWithPriority]
    and [scheduleCallback] throw before anything is run or scheduled. *)
Theorem priority_levels_round_trip :
  (forall r, is_Some (reactPriorityToSchedulerPriority r) <-> 95 <= r <= 99)
  /\ (forall (E : Type) r (s : Scheduler.State) (e : E),
        95 <= r <= 99 ->
        runWithPriority r
          (fun w => (Returned (getCurrentPriorityLevel w.1), w)) (s, e)
        = (Returned (Some r), (s, e)))
  /\ (forall (E A : Type) r (fn : Handler A) (w : Scheduler.State * E),
        ~ 95 <= r <= 99 -> runWithPriority r fn w = (Threw, w))
  /\ (forall fl r callback options w,
        ~ 95 <= r <= 99 ->
        scheduleCallback fl r callback options w = (Threw, w))
  /\ reactPriorityToSchedulerPriority NoPriority = None.
Proof.
  split; [|split; [|split; [|split]]].
  - intros r. split.
    + intros [p Hp]. by destruct (reactPriorityToSchedulerPriority_Some r p Hp).
    + intros Hr. destruct (reactPriorityToSchedulerPriority r) eqn:H; [done|].
      by apply reactPriorityToSchedulerPriority_None in H.
  - intros E r s e Hr. unfold runWithPriority.
    destruct (reactPriorityToSchedulerPriority r) as [p|] eqn:Hp.
    2: { by apply reactPriorityToSchedulerPriority_None in Hp. }
    destruct (reactPriorityToSchedulerPriority_Some r p Hp) as [_ Hget].
    unfold unstable_runWithPriority. cbn [fst snd].
    rewrite Hget.
    + by rewrite restore_currentPriorityLevel.
    + unfold reactPriorityToSchedulerPriority in Hp.
      repeat case_decide; by simplify_eq.
  - intros E A r fn w Hr. unfold runWithPriority.
    apply reactPriorityToSchedulerPriority_None in Hr. by rewrite Hr.
  - intros fl r callback options w Hr. unfold scheduleCallback.
    apply reactPriorityToSchedulerPriority_None in Hr. by rewrite Hr.
  - done.
Qed.

(** ** scheduleSyncCallback *)

Lemma arrayAt_alter m q (f : list SchedulerCallback -> list SchedulerCallback) :
  (q < length (arrays m))%nat ->
  arrayAt (set_arrays (alter f q (arrays m)) m) q = f (arrayAt m q).
Proof.
  intros Hq. unfold arrayAt. simpl. rewrite list_lookup_alter_eq.
  destruct (lookup_lt_is_Some_2 _ _ Hq) as [a ->]. done.
Qed.

Lemma scheduleSyncCallback_push fl v1 callback (w : World) q :
  syncQueue w.2 = Some q ->
  scheduleSyncCallback fl v1 callback w
  = (FakeCallbackNode,
     (w.1, set_arrays (alter (fun a => a ++ [callback]) q (arrays w.2)) w.2)).
Proof. intros Hq. unfold scheduleSyncCallback. by rewrite Hq. Qed.

Lemma scheduleSyncCallback_fst fl v1 cb (w : World) :
  (scheduleSyncCallback fl v1 cb w).1 = FakeCallbackNode.
Proof.
  unfold scheduleSyncCallback. destruct (syncQueue w.2); [done|].
  cbv zeta.
  by destruct (Scheduler.unstable_scheduleCallback _ _ _ _ _) as [task s].
Qed.

Lemma scheduleSyncCallback_pushes fl v1 rest :
  forall (w : World) q,
    syncQueue w.2 = Some q ->
    (q < length (arrays w.2))%nat ->
    let w' := foldl (fun w cb => (scheduleSyncCallback fl v1 cb w).2) w rest in
    w'.1 = w.1
    /\ syncQueue w'.2 = Some q
    /\ immediateQueueCallbackNode w'.2 = immediateQueueCallbackNode w.2
    /\ arrayAt w'.2 q = arrayAt w.2 q ++ rest.
Proof.
  induction rest as [|cb rest IH]; intros w q Hq Hlt; cbn zeta.
  - simpl. by rewrite app_nil_r.
  - simpl. rewrite (scheduleSyncCallback_push fl v1 cb w q Hq). cbn [snd].
    match goal with |- context [foldl _ ?w0 rest] =>
      destruct (IH w0 q) as (H1 & H2 & H3 & H4) end.
    + done.
    + simpl. by rewrite length_alter.
    + split; [done|]. split; [done|]. split; [done|].
      rewrite H4. cbn [snd]. rewrite arrayAt_alter by done.
      by rewrite <-app_assoc.
Qed.

(** X15.  However many callbacks [scheduleSyncCallback] is given, once
    the queue is there it only appends to it: the first call makes the
    queue and schedules one task with the scheduler, of Immediate
    priority and without delay, so with the timeout -1, and with
    [flushSyncCallbackQueueImpl] as callback; every later call adds its
    callback at the end of the queue and leaves the scheduler alone.
    Each call returns the fake node, which [cancelCallback] ignores. *)
Theorem scheduleSyncCallback_schedules_one_task fl v1 first rest (w : World) :
  syncQueue w.2 = None ->
  let w' :=
    foldl (fun w cb => (scheduleSyncCallback fl v1 cb w).2) w (first :: rest) in
  let task := length (Scheduler.tasks w.1) in
  (exists queue,
     syncQueue w'.2 = Some queue /\ arrayAt w'.2 queue = first :: rest)
  /\ immediateQueueCallbackNode w'.2 = Some task
  /\ (exists t,
        Scheduler.tasks w'.1 = Scheduler.tasks w.1 ++ [t]
        /\ Scheduler.priorityLevel t = Scheduler_ImmediatePriority
        /\ Scheduler.callback t = v1
        /\ Scheduler.startTime t = Scheduler.getCurrentTime w.1
        /\ Scheduler.expirationTime t
           = Scheduler.startTime t + Scheduler.IMMEDIATE_PRIORITY_TIMEOUT)
  /\ Scheduler.taskQueue w'.1 ≡ₚ task :: Scheduler.taskQueue w.1
  /\ Scheduler.timerQueue w'.1 = Scheduler.timerQueue w.1
  /\ (forall cb w0, (scheduleSyncCallback fl v1 cb w0).1 = FakeCallbackNode)
  /\ cancelCallback fl FakeCallbackNode w' = w'.
Proof.
  intros Hnone. cbn zeta. cbn [foldl].
  pose proof (SchedulerFacts.scheduleCallback_tasks fl
                Scheduler_ImmediatePriority v1 Scheduler.OptionsAbsent w.1)
    as Hts.
  pose proof (SchedulerFacts.scheduleCallback_fst fl
                Scheduler_ImmediatePriority v1 Scheduler.OptionsAbsent w.1)
    as Hfst.
  pose proof (SchedulerFacts.scheduleCallback_queues fl
                Scheduler_ImmediatePriority v1 Scheduler.OptionsAbsent w.1)
    as Hqs.
  cbn zeta in Hts, Hqs. cbn [Scheduler.computeStartTime] in Hts, Hqs.
  rewrite Z.ltb_irrefl in Hts, Hqs. destruct Hqs as [Hmq Htq].
  set (w1 := (scheduleSyncCallback fl v1 first w).2).
  assert (w1.1 = (Scheduler.unstable_scheduleCallback fl
                    Scheduler_ImmediatePriority v1 Scheduler.OptionsAbsent
                    w.1).2
          /\ syncQueue w1.2 = Some (length (arrays w.2))
          /\ arrays w1.2 = arrays w.2 ++ [[first]]
          /\ immediateQueueCallbackNode w1.2
             = Some (length (Scheduler.tasks w.1))) as (Hs1 & Hq1 & Ha1 & Hn1).
  { subst w1. unfold scheduleSyncCallback. rewrite Hnone.
    destruct (Scheduler.unstable_scheduleCallback fl
                Scheduler_ImmediatePriority v1 Scheduler.OptionsAbsent w.1)
      as [task s1].
    cbn [fst snd] in *. by subst task. }
  destruct (scheduleSyncCallback_pushes fl v1 rest w1 (length (arrays w.2)))
    as (H1 & H2 & H3 & H4).
  { done. }
  { rewrite Ha1, length_app. simpl. lia. }
  cbn zeta in H1, H2, H3, H4.
  split; [|split; [|split; [|split; [|split; [|split]]]]].
  - exists (length (arrays w.2)). split; [exact H2|].
    rewrite H4. unfold arrayAt. rewrite Ha1. by rewrite list_lookup_middle.
  - by rewrite H3.
  - rewrite H1, Hs1. eexists. split; [exact Hts|]. by repeat split.
  - by rewrite H1, Hs1.
  - by rewrite H1, Hs1.
  - apply scheduleSyncCallback_fst.
  - done.
Qed.

Lemma scheduleSyncCallback_schedules_one_task_witness :
  let w :=
    foldl (fun w cb =>
             (scheduleSyncCallback Scheduler.productionFlags
                Scheduler.completesAtOnce cb w).2)
      (Scheduler.initialState 0 5, initialIntegration)
      [Callback 1 [] ReturnsNull; Callback 2 [] ReturnsNull;
       Callback 3 [] ReturnsNull] in
  arrayAt w.2 0
  = [Callback 1 [] ReturnsNull; Callback 2 [] ReturnsNull;
     Callback 3 [] ReturnsNull]
  /\ immediateQueueCallbackNode w.2 = Some 0%nat
  /\ length (Scheduler.tasks w.1) = 1%nat.
Proof.
  intros w.
  destruct (scheduleSyncCallback_schedules_one_task Scheduler.productionFlags
              Scheduler.completesAtOnce (Callback 1 [] ReturnsNull)
              [Callback 2 [] ReturnsNull; Callback 3 [] ReturnsNull]
              (Scheduler.initialState 0 5, initialIntegration) eq_refl)
    as ((queue & Hq & Harr) & Hnode & (t & Hts & _) & _).
  split; [reflexivity|]. split; [exact Hnode|].
  fold w in Hts. by rewrite Hts.
Defined.

(** ** Flushing the queue *)






Section Flush.

Variable fl : Scheduler.FeatureFlags.
Variables v1 v2 : Scheduler.Value.

(** A flush asked for by a callback of a flush under way. *)
Local Abbreviation inside := (flushSyncCallbackQueue_body fl v1 v2 (fun _ => None)).









End Flush.


(** A flush in which the second of three callbacks throws: the third is
    left in a new queue. *)
Example flushSyncCallbackQueue_throwing :
  let w : World :=
    foldl (fun w cb =>
             (scheduleSyncCallback Scheduler.productionFlags
                Scheduler.completesAtOnce cb w).2)
      (Scheduler.initialState 0 5, initialIntegration)
      [Callback 1 [] ReturnsNull; Callback 2 [] Throws;
       Callback 3 [] ReturnsNull] in
  exists w',
    flushSyncCallbackQueue Scheduler.productionFlags
      Scheduler.completesAtOnce Scheduler.completesAtOnce w
    = Some (Threw, w')
    /\ called w'.2 = [(1, true); (2, true)]%nat
    /\ syncQueue w'.2 = Some 1%nat
    /\ arrayAt w'.2 1 = [Callback 3 [] ReturnsNull]
    /\ length (Scheduler.tasks w'.1) = 2%nat.
Proof.
  intros w. eexists. split; [vm_compute; reflexivity|].
  vm_compute. by repeat split.
Qed.

End SchedulerIntegrationFacts.

(* ===================================================================== *)
(** * The child reconciler, further properties *)
(* ===================================================================== *)

Module ChildFiberSingleFacts.
Import ChildFiber ChildFiberTerms ChildFiberFacts.

Local Open Scope nat_scope.

(** ** The map of the remaining children *)

Lemma map_get_set (m : ChildMap) k v k' :
  map_get (map_set m k v) k' = if decide (k = k') then Some v else map_get m k'.
Proof.
  induction m as [|[k0 v0] m IH]; simpl.
  - by destruct (decide (k = k')).
  - destruct (decide (k0 = k)) as [->|Hne]; simpl.
    + by destruct (decide (k = k')).
    + destruct (decide (k0 = k')) as [->|Hne'].
      * by rewrite decide_False by done.
      * by rewrite IH.
Qed.

Lemma mapRemainingChildren_loop_spec (cs : list nat) :
  forall fuel (st : Store) first (m0 : ChildMap),
    siblingChain st first cs ->
    length cs <= fuel ->
    exists m,
      mapRemainingChildren_loop fuel m0 first st = Ok m st
      /\ forall k,
           map_get m k
           = match last (filter (fun c => mapKeyOf st c = k) cs) with
             | Some c => Some c
             | None => map_get m0 k
             end.
Proof.
  induction cs as [|c cs IH]; intros fuel st first m0 Hchain Hfuel.
  - inversion Hchain; subst. exists m0. split; [by destruct fuel|done].
  - inversion Hchain as [|a f l Hf Hrest]; subst.
    destruct fuel as [|fuel]; [simpl in Hfuel; lia|].
    cbn [mapRemainingChildren_loop]. unfold bind, get.
    rewrite (fiberAt_lookup _ _ _ Hf).
    edestruct (IH fuel st (sibling f)) as (m & Hrun & Hget);
      [exact Hrest|simpl in Hfuel; lia|].
    exists m. split; [exact Hrun|]. intros k. rewrite Hget.
    rewrite filter_cons.
    assert (mapKeyOf st c = keyOrIndex (key f) (index f)) as ->
      by (unfold mapKeyOf; by rewrite (fiberAt_lookup _ _ _ Hf)).
    destruct (last (filter _ cs)) as [d|] eqn:Hlast.
    + destruct (decide _); rewrite ?last_cons, Hlast; done.
    + assert (map_get
                match key f with
                | Some k0 => map_set m0 (KeyString k0) c
                | None => map_set m0 (KeyIndex (index f)) c
                end k
              = if decide (keyOrIndex (key f) (index f) = k)
                then Some c else map_get m0 k) as ->.
      { unfold keyOrIndex. destruct (key f); apply map_get_set. }
      destruct (decide _); rewrite ?last_cons, Hlast; done.
Qed.

Lemma filter_key_absent (f : nat -> MapKey) k l :
  k ∉ f <$> l -> filter (fun c => f c = k) l = [].
Proof.
  induction l as [|e l IH]; [done|].
  rewrite fmap_cons. intros [Hne Hl]%not_elem_of_cons.
  rewrite filter_cons, decide_False by done. by apply IH.
Qed.

Lemma last_filter_key (f : nat -> MapKey) l c :
  NoDup (f <$> l) -> c ∈ l -> last (filter (fun d => f d = f c) l) = Some c.
Proof.
  induction l as [|d l IH]; [by intros _ ?%elem_of_nil|].
  rewrite fmap_cons. intros [Hd Hnd]%NoDup_cons [->|Hc]%elem_of_cons.
  - rewrite filter_cons, decide_True by done.
    by rewrite filter_key_absent.
  - rewrite filter_cons. destruct (decide (f d = f c)) as [Heq|Hne].
    + exfalso. apply Hd. rewrite Heq. by apply list_elem_of_fmap_2.
    + by apply IH.
Qed.

(** X17.  [mapRemainingChildren] reads the chain of siblings that starts
    at [currentFirstChild] and writes nothing.  In the map it returns, a
    key or an index finds the last sibling of the chain filed under it,
    a sibling being filed under its key, or under its index when its key
    is null; nothing else is in the map.  So when no two siblings are
    filed under one key, every sibling is found under its own. *)
Theorem mapRemainingChildren_last_with_key (st : Store) returnFiber first cs :
  siblingChain st (Some first) cs ->
  exists m,
    mapRemainingChildren returnFiber first st = Ok m st
    /\ (forall k,
          map_get m k = last (filter (fun c => mapKeyOf st c = k) cs))
    /\ (NoDup (mapKeyOf st <$> cs) ->
        forall c, c ∈ cs -> map_get m (mapKeyOf st c) = Some c).
Proof.
  intros Hchain. unfold mapRemainingChildren, bind, storeSize.
  destruct (mapRemainingChildren_loop_spec cs (length st) st (Some first) [])
    as (m & Hrun & Hget); [done|by eapply linked_length|].
  exists m. split; [done|].
  assert (forall k,
            map_get m k = last (filter (fun c => mapKeyOf st c = k) cs))
    as Hlast.
  { intros k. rewrite Hget. by destruct (last _). }
  split; [done|]. intros Hnd c Hc. rewrite Hlast.
  by apply (last_filter_key (mapKeyOf st)).
Qed.

Lemma mapRemainingChildren_last_with_key_witness :
  exists m,
    mapRemainingChildren 0 1 committedABC = Ok m committedABC
    /\ map_get m (KeyString "b") = Some 2
    /\ map_get m (KeyIndex 1) = None.
Proof.
  destruct (mapRemainingChildren_last_with_key committedABC 0 1 [1; 2; 3])
    as (m & Hrun & Hget & _).
  { repeat (econstructor; [reflexivity|]). constructor. }
  exists m. split; [exact Hrun|]. by rewrite !Hget.
Defined.

(** ** A text as the only child *)

Lemma deleteEach_flags returnFiber cs (st st1 : Store) :
  deleteEach true returnFiber cs st = Ok tt st1 ->
  length st1 = length st
  /\ preserved st st1
  /\ forall a, a < length st ->
       flags (fiberAt st1 a)
       = if decide (a ∈ cs) then Deletion else flags (fiberAt st a).
Proof.
  intros Hrun.
  destruct (deleteEach_frame returnFiber cs st) as (st' & Hrun' & Hlen & Hfr).
  rewrite Hrun in Hrun'. injection Hrun' as <-.
  split; [done|]. split; [by eapply deleteEach_preserved|].
  intros a Ha. destruct (lookup_lt_is_Some_2 st a Ha) as [f Hf].
  destruct (Hfr a f Hf) as (f' & Hf' & _ & Hfl).
  by rewrite (fiberAt_lookup _ _ _ Hf), (fiberAt_lookup _ _ _ Hf').
Qed.

Lemma reconcileSingleTextNode_run (st : Store) returnFiber first cs
    textContent lanes :
  siblingChain st first cs ->
  exists st1 deleted fresh,
    reconcileSingleTextNode true returnFiber first textContent lanes st
    = Ok (length st1) (st1 ++ [fresh])
    /\ deleteEach true returnFiber deleted st = Ok tt st1
    /\ ((exists c rest,
           cs = c :: rest /\ tag (fiberAt st c) = HostText
           /\ deleted = rest
           /\ fresh
              = let f := fiberAt st1 c in
                mkFiber (tag f) (key f) (elementType f) (type f)
                  (stateNode f) (Some returnFiber) (child f) None 0
                  (ref f) (TextProps textContent) (mode f) NoFlags
                  None None None (ChildFiber.lanes f) (Some c))
        \/ ((forall c rest, cs = c :: rest -> tag (fiberAt st c) <> HostText)
            /\ deleted = cs
            /\ fresh
               = mkFiber HostText None None None NoStateNode
                   (Some returnFiber) None None 0 RefNull
                   (TextProps textContent) (mode (fiberAt st1 returnFiber))
                   NoFlags None None None lanes None)).
Proof.
  intros Hchain. unfold reconcileSingleTextNode.
  assert (forall deleted first' (st1 : Store),
            siblingChain st first' deleted ->
            deleteEach true returnFiber deleted st = Ok tt st1 ->
            (deleteRemainingChildren true returnFiber first' ;;
             let* r := get returnFiber in
             let* created :=
               createFiberFromText textContent (mode r) lanes in
             update created (set_return (Some returnFiber)) ;;
             ret created) st
            = Ok (length st1)
                (st1 ++ [mkFiber HostText None None None NoStateNode
                           (Some returnFiber) None None 0 RefNull
                           (TextProps textContent)
                           (mode (fiberAt st1 returnFiber)) NoFlags
                           None None None lanes None])) as Hinsert.
  { intros deleted first' st1 Hch Hrun. unfold bind at 1.
    rewrite (deleteRemainingChildren_eq st returnFiber first' deleted Hch).
    rewrite Hrun.
    unfold bind, get, createFiberFromText, alloc, update, ret. simpl.
    by rewrite store_alter_snoc. }
  inversion Hchain as [|c f rest Hf Hrest]; subst.
  - exists st, []; eexists. split; [by apply (Hinsert [] None st)|].
    split; [done|]. right. split; [by intros c rest [=]|done].
  - unfold bind at 1. unfold get at 1. rewrite (fiberAt_lookup _ _ _ Hf).
    destruct (decide (tag f = HostText)) as [Htag|Htag].
    + destruct (deleteEach_frame returnFiber rest st) as (st1 & Hrun & _).
      exists st1, rest; eexists. split.
      { unfold bind at 1.
        rewrite (deleteRemainingChildren_eq st returnFiber (sibling f) rest)
          by done.
        rewrite Hrun. unfold bind at 1. rewrite useFiber_run. cbv zeta.
        unfold bind, update, ret. by rewrite store_alter_snoc. }
      split; [done|]. left. exists c, rest.
      split; [done|]. split; [by rewrite (fiberAt_lookup _ _ _ Hf)|done].
    + destruct (deleteEach_frame returnFiber (c :: rest) st)
        as (st1 & Hrun & _).
      exists st1, (c :: rest); eexists.
      split; [by apply (Hinsert (c :: rest) (Some c) st1)|].
      split; [done|]. right. split; [|done].
      intros c' rest' [= <- <-]. by rewrite (fiberAt_lookup _ _ _ Hf).
Qed.

(** X18.  Reconciling a text (a string or a number), with side effects
    tracked, against the old children [cs] always gives one new text
    fiber whose [return] is the parent and which has no sibling.  If the
    first old child is a text fiber, the new fiber is its clone with the
    new text as pending props, it is not flagged, and every other old
    child is flagged Deletion.  Otherwise, also when there is no old
    child, the new fiber is a fresh one, flagged Placement, and every old
    child is flagged Deletion. *)
Theorem reconcileChildFibers_text (enableLazyElements : bool) (st : Store)
    returnFiber first cs textContent lanes :
  siblingChain st first cs ->
  exists result st',
    reconcileChildFibers true enableLazyElements returnFiber first
      (NText textContent) lanes st = Ok (Some result) st'
    /\ result = length st
    /\ length st' = S (length st)
    /\ preserved st st'
    /\ tag (fiberAt st' result) = HostText
    /\ pendingProps (fiberAt st' result) = TextProps textContent
    /\ return_ (fiberAt st' result) = Some returnFiber
    /\ sibling (fiberAt st' result) = None
    /\ (forall c rest,
          cs = c :: rest -> tag (fiberAt st c) = HostText ->
          alternate (fiberAt st' result) = Some c
          /\ flags (fiberAt st' result) = NoFlags
          /\ flags (fiberAt st' c) = flags (fiberAt st c)
          /\ Forall (fun d => flags (fiberAt st' d) = Deletion) rest)
    /\ ((forall c rest, cs = c :: rest -> tag (fiberAt st c) <> HostText) ->
          alternate (fiberAt st' result) = None
          /\ flags (fiberAt st' result) = Placement
          /\ Forall (fun d => flags (fiberAt st' d) = Deletion) cs).
Proof.
  intros Hchain.
  assert (Forall (fun c => c < length st) cs) as Hall.
  { apply Forall_forall. intros c Hc. by eapply linked_allocated. }
  pose proof (linked_NoDup _ _ _ _ Hchain) as Hnd.
  destruct (reconcileSingleTextNode_run st returnFiber first cs textContent
              lanes Hchain) as (st1 & deleted & fresh & Hrun & Hdel & Hcase).
  destruct (deleteEach_flags _ _ _ _ Hdel) as (Hlen & Hp & Hfl).
  unfold reconcileChildFibers. cbn [reconcileChildFibers_body].
  unfold bind at 1 2. rewrite Hrun.
  unfold placeSingleChild, bind, get, update, ret. rewrite fiberAt_snoc.
  assert (forall d, d ∈ deleted -> d ∈ cs) as Hsub.
  { intros d Hd. destruct Hcase as [(c & rest & -> & _ & -> & _)|(_ & -> & _)];
      [by right|done]. }
  assert (forall fresh' : Fiber,
            Forall (fun d => flags (fiberAt (st1 ++ [fresh']) d) = Deletion)
              deleted) as Hdeleted.
  { intros fresh'. apply Forall_forall. intros d Hd.
    assert (d < length st) by (eapply Forall_forall in Hall; eauto).
    rewrite fiberAt_app_l by lia. rewrite Hfl by done.
    by rewrite decide_True. }
  destruct Hcase as [(c & rest & -> & Htag & -> & ->)|(Hno & -> & ->)].
  - cbv zeta. simpl. do 2 eexists. split; [reflexivity|].
    apply Forall_cons in Hall as [Hc Hall].
    apply NoDup_cons in Hnd as [Hcrest Hnd].
    split; [done|]. split; [rewrite length_app; simpl; lia|].
    split; [eapply preserved_trans; [exact Hp|apply preserved_app]|].
    rewrite fiberAt_snoc. simpl.
    pose proof (preserved_fiberAt _ _ c Hp Hc) as Hid.
    split; [by apply (f_equal tag) in Hid; simpl in Hid; congruence|].
    do 3 (split; [done|]). split.
    + intros c' rest' [= <- <-] _. do 2 (split; [done|]). split.
      * rewrite fiberAt_app_l by lia. rewrite Hfl by done.
        by rewrite decide_False.
      * apply Hdeleted.
    + intros Hno. by destruct (Hno c rest eq_refl).
  - simpl. rewrite store_alter_snoc. do 2 eexists. split; [reflexivity|].
    split; [done|]. split; [rewrite length_app; simpl; lia|].
    split; [eapply preserved_trans; [exact Hp|apply preserved_app]|].
    rewrite fiberAt_snoc. simpl.
    do 4 (split; [done|]). split.
    + intros c rest -> Htag. by destruct (Hno c rest eq_refl).
    + intros _. do 2 (split; [done|]). apply Hdeleted.
Qed.

Lemma reconcileChildFibers_text_witness :
  exists result st',
    reconcileChildFibers true false 0 (Some 1) (NText "hello") 0 committedABC
    = Ok (Some result) st'
    /\ alternate (fiberAt st' result) = None
    /\ flags (fiberAt st' result) = Placement
    /\ Forall (fun d => flags (fiberAt st' d) = Deletion) [1; 2; 3].
Proof.
  destruct (reconcileChildFibers_text false committedABC 0 (Some 1) [1; 2; 3]
              "hello" 0)
    as (result & st' & Hrun & _ & _ & _ & _ & _ & _ & _ & _ & Hfresh).
  { repeat (econstructor; [reflexivity|]). constructor. }
  exists result, st'. split; [exact Hrun|]. apply Hfresh.
  by intros c rest [= <- <-].
Defined.

(** ** Nothing to render *)

(** X19.  A child that is null, a boolean or a function renders nothing:
    with side effects tracked every old child is flagged Deletion, no
    other fiber is flagged, and the result is null; without tracking the
    store is left as it is.  [undefined] does the same under a parent
    that is not a component, but under a class, function, forward-ref,
    simple-memo or block component the reconciler throws, and no child
    has been deleted by then.  [undefined] as the children of a top-level
    fragment without key never throws: the old children are deleted. *)
Theorem reconcileChildFibers_nothing_to_render (enableLazyElements : bool)
    (st : Store) returnFiber first cs lanes :
  siblingChain st first cs ->
  exists st',
    deleteRemainingChildren true returnFiber first st = Ok None st'
    /\ length st' = length st
    /\ preserved st st'
    /\ (forall a, a < length st ->
          flags (fiberAt st' a)
          = if decide (a ∈ cs) then Deletion else flags (fiberAt st a))
    /\ (forall newChild,
          newChild = NNull \/ newChild = NFunction ->
          reconcileChildFibers true enableLazyElements returnFiber first
            newChild lanes st = Ok None st'
          /\ reconcileChildFibers false enableLazyElements returnFiber first
               newChild lanes st = Ok None st)
    /\ reconcileChildFibers true enableLazyElements returnFiber first
         NUndefined lanes st
       = (if bool_decide (tag (fiberAt st returnFiber)
                          ∈ [ClassComponent; Block; FunctionComponent;
                             ForwardRef; SimpleMemoComponent])
          then Throw NothingReturnedFromRender
          else Ok None st')
    /\ (forall ref owner props,
          reconcileChildFibers true enableLazyElements returnFiber first
            (NElement None REACT_FRAGMENT_TYPE ref owner props NUndefined)
            lanes st = Ok None st').
Proof.
  intros Hchain.
  destruct (deleteEach_frame returnFiber cs st) as (st' & Hrun & _).
  destruct (deleteEach_flags _ _ _ _ Hrun) as (Hlen & Hp & Hfl).
  assert (deleteRemainingChildren true returnFiber first st = Ok None st')
    as Hdel.
  { rewrite (deleteRemainingChildren_eq st returnFiber first cs Hchain).
    by rewrite Hrun. }
  exists st'. do 4 (split; [done|]). split; [|split].
  - intros newChild [->| ->]; by split.
  - unfold reconcileChildFibers. cbn [reconcileChildFibers_body].
    unfold bind at 1. unfold get. cbn [negb andb].
    destruct (bool_decide _); [done|exact Hdel].
  - intros ref owner props. unfold reconcileChildFibers.
    cbn [reconcileChildFibers_body]. unfold bind at 1. unfold get.
    cbn [negb andb]. exact Hdel.
Qed.

Lemma reconcileChildFibers_nothing_to_render_witness :
  exists st',
    reconcileChildFibers true false 0 (Some 1) NUndefined 0 committedABC
    = Ok None st'
    /\ Forall (fun c => flags (fiberAt st' c) = Deletion) [1; 2; 3]
    /\ flags (fiberAt st' 0) = NoFlags.
Proof.
  destruct (reconcileChildFibers_nothing_to_render false committedABC 0
              (Some 1) [1; 2; 3] 0)
    as (st' & _ & _ & _ & Hfl & _ & Hundefined & _).
  { repeat (econstructor; [reflexivity|]). constructor. }
  exists st'. split; [exact Hundefined|]. split.
  - apply Forall_forall. intros c Hc. rewrite Hfl.
    + by rewrite decide_True.
    + apply (linked_allocated sibling committedABC (Some 1) [1; 2; 3]);
        [|done].
      repeat (econstructor; [reflexivity|]). constructor.
  - rewrite Hfl by (simpl; lia). reflexivity.
Defined.

End ChildFiberSingleFacts.
